(** * Composite actuators of Odemis ([src/odemis/driver/actuator.py])

    A shallow embedding of the wrapper actuators (multiplexing, coupled and
    converting stages, anti-backlash, fixed positions, sensor-verified,
    combined fixed positions, rotation) together with the properties their
    design description states about them.

    Conventions of the embedding:
    - Python floats are idealised as exact numbers: rationals [Q] wherever
      only field operations, comparisons and the float modulo are used, and
      reals [R] for the affine conversion, which needs [cos] and [sin].
    - A Python [dict] that the code iterates over is an association list in
      insertion order; a [dict] that is only indexed is a [gmap].
    - Python exceptions are values of [exn]; a computation that can raise
      returns a [result].
    - Calls issued to a dependency are recorded in a trace, the tasks given
      to the single-worker executor in a queue.
    - A move of a dependency is called and answered by a future; that the
      move fails is the failure of this future ([await]).  A dependency that
      raises at the call itself is told apart only in the move bodies of
      [MultiplexActuator], where it changes which calls are made
      ([Refusals]). *)

From Stdlib Require Import QArith Qround Qabs Qminmax Lqa Reals Lra String List.
From stdpp Require Import gmap strings.
Import ListNotations.

(** Linear arithmetic over the rationals and over the reals. *)
Ltac lraQ := Lqa.lra.
Ltac lraR := Lra.lra.

(** ** Exceptions and results *)

Inductive exn : Type :=
| ValueError
| NotImplementedError
| IOError
| LookupError
| ZeroDivisionError
| KeyError
| AssertionError
| DepError (code : nat).   (* any exception raised by a dependency *)

(** What [except LookupError] catches: [KeyError] is a subclass of
    [LookupError]. *)
Definition is_LookupError (e : exn) : bool :=
  match e with
  | LookupError | KeyError => true
  | _ => false
  end.

Inductive result (A : Type) : Type :=
| Ok (a : A)
| Raise (e : exn)
| Diverge.                 (* the computation does not return *)
Arguments Ok {A} a.
Arguments Raise {A} e.
Arguments Diverge {A}.

#[global] Instance result_ret : MRet result := fun A a => Ok a.
#[global] Instance result_bind : MBind result := fun A B k r =>
  match r with
  | Ok a => k a
  | Raise e => Raise e
  | Diverge => Diverge
  end.

(** ** Stateful computations that may raise *)

Definition M (S A : Type) : Type := S -> result A * S.

#[global] Instance M_ret {S} : MRet (M S) := fun A a s => (Ok a, s).
#[global] Instance M_bind {S} : MBind (M S) := fun A B k m s =>
  match m s with
  | (Ok a, s1) => k a s1
  | (Raise e, s1) => (Raise e, s1)
  | (Diverge, s1) => (Diverge, s1)
  end.

Definition raise {S A} (e : exn) : M S A := fun s => (Raise e, s).
Definition diverge {S A} : M S A := fun s => (Diverge, s).
Definition lift {S A} (r : result A) : M S A := fun s => (r, s).

(** [try: body finally: fin]: [fin] runs whether [body] returned or raised;
    what [fin] raises replaces the outcome of [body]. *)
Definition try_finally {S A} (body : M S A) (fin : M S unit) : M S A := fun s =>
  match body s with
  | (Diverge, s1) => (Diverge, s1)
  | (r, s1) =>
      match fin s1 with
      | (Ok _, s2) => (r, s2)
      | (Raise e, s2) => (Raise e, s2)
      | (Diverge, s2) => (Diverge, s2)
      end
  end.

(** [try: body except Exception as ex: handler] *)
Definition try_except {S A} (body : M S A) (handler : exn -> M S A) : M S A := fun s =>
  match body s with
  | (Raise e, s1) => handler e s1
  | r => r
  end.

(** ** Dictionaries in insertion order *)

Definition dict (num : Type) : Type := list (string * num).

Fixpoint dict_get {num} (k : string) (d : dict num) : option num :=
  match d with
  | [] => None
  | (k', v) :: d' => if String.eqb k k' then Some v else dict_get k d'
  end.

(** [d[k] = v] *)
Fixpoint dict_set {num} (k : string) (v : num) (d : dict num) : dict num :=
  match d with
  | [] => [(k, v)]
  | (k', v') :: d' =>
      if String.eqb k k' then (k, v) :: d' else (k', v') :: dict_set k v d'
  end.

Definition dict_keys {num} (d : dict num) : list string := map fst d.

(** [not d] *)
Definition is_empty {A} (d : list A) : bool :=
  match d with [] => true | _ => false end.

(** [d[k]], raising [KeyError] on a missing key. *)
Definition getitem {num} (d : dict num) (k : string) : result num :=
  match dict_get k d with
  | Some v => Ok v
  | None => Raise KeyError
  end.

(** ** Dependencies, executor and the state of a component *)

(** The calls a wrapper issues to its dependencies; [dep] is the role of the
    dependency. *)
Inductive call (num : Type) : Type :=
| MoveRel (dep : string) (shift : dict num)
| MoveAbs (dep : string) (pos : dict num)
| MoveRelSync (dep : string) (shift : dict num)
| MoveAbsSync (dep : string) (pos : dict num)
| Reference (dep : string) (axes : gset string)
| Stop (dep : string) (axes : option (gset string)).
Arguments MoveRel {num}.
Arguments MoveAbs {num}.
Arguments MoveRelSync {num}.
Arguments MoveAbsSync {num}.
Arguments Reference {num}.
Arguments Stop {num}.

(** How the future of a move behaves under a loop that waits for it with a
    timeout and peeks at the executor after every wait: the [_update_axes] of
    the next queued future seen after each wait that timed out ([None] when
    nothing is queued), then how the future ends and what is queued then. *)
Record async_run : Type := mk_run {
  timed_out : list (option (gset string));
  outcome : option exn;
  next_at_end : option (gset string)
}.

(** The dependency capability interface: what the wrapped drivers answer.
    [W] is the state of the hardware and of the clients of the executor. *)
Class Driver (num W : Type) : Type := {
  (* dep.position.value *)
  position : string -> W -> dict num;
  (* f.result() for the future of a call: [None] when the call succeeded *)
  await : call num -> W -> option exn * W;
  (* the future of a call under the waiting loop of the anti-backlash moves *)
  watch : call num -> W -> async_run * W
}.

Inductive task_fn : Type := DoMoveRel | DoMoveAbs | DoReference.

(** A task handed to the executor, with the [_update_axes] of its future. *)
Record task (num : Type) : Type := mk_task {
  t_fn : task_fn;
  t_arg : dict num;
  t_update_axes : gset string
}.
Arguments mk_task {num}.
Arguments t_fn {num}.
Arguments t_arg {num}.
Arguments t_update_axes {num}.

(** What a public method hands back. [num] is the type of the values sent
    to the dependencies, [arg] that of the values of the exposed axes. *)
Inductive future (num arg : Type) : Type :=
| InstantaneousFuture
| TaskFuture (t : task arg)
| DepFuture (c : call num).
Arguments InstantaneousFuture {num arg}.
Arguments TaskFuture {num arg}.
Arguments DepFuture {num arg}.

Record sys (num arg W I : Type) : Type := mk_sys {
  world : W;
  trace : list (call num);      (* calls issued to the dependencies, oldest first *)
  queue : list (task arg);      (* tasks waiting in the executor *)
  this : I                      (* the fields of the component *)
}.
Arguments mk_sys {num arg W I}.
Arguments world {num arg W I}.
Arguments trace {num arg W I}.
Arguments queue {num arg W I}.
Arguments this {num arg W I}.

Section Operations.
Context {num arg W I : Type} {D : Driver num W}.
Abbreviation St := (sys num arg W I).

Definition get_self : M St I := fun s => (Ok (this s), s).
Definition put_self (i : I) : M St unit := fun s =>
    (Ok tt, mk_sys (world s) (trace s) (queue s) i).

  (* dep.moveRel(...), dep.moveAbs(...), ...: the call is handed over *)
Definition issue (c : call num) : M St (call num) := fun s =>
    (Ok c, mk_sys (world s) (trace s ++ [c]) (queue s) (this s)).

  (* f.result() *)
Definition fresult (f : call num) : M St unit := fun s =>
    let '(o, w) := await f (world s) in
    (match o with None => Ok tt | Some e => Raise e end,
     mk_sys w (trace s) (queue s) (this s)).

  (* dep.position.value *)
Definition dep_position (dep : string) : M St (dict num) := fun s =>
    (Ok (position dep (world s)), s).

  (* self._executor.submit(fn, arg) and submitf(f, fn, f, arg) *)
Definition submit (t : task arg) : M St (future num arg) := fun s =>
    (Ok (TaskFuture t), mk_sys (world s) (trace s) (queue s ++ [t]) (this s)).

  (* self._executor.cancel() *)
Definition cancel : M St unit := fun s =>
    (Ok tt, mk_sys (world s) (trace s) [] (this s)).
End Operations.

(** The helpers of the base class [model.Actuator], which is not part of
    this source tree, are taken as parameters. *)
Class ActuatorBase (num I : Type) : Type := {
  _checkMoveRel : I -> dict num -> result unit;
  _checkMoveAbs : I -> dict num -> result unit;
  _applyInversion : I -> dict num -> dict num
}.

(** ** Python float arithmetic, idealised over [Q] *)

Module PyFloat.
Local Open Scope Q_scope.

(** [x % c] on floats: the result has the sign of the divisor, which is
    [x - c * floor (x / c)]; a zero divisor raises. *)
Definition fmod (x c : Q) : result Q :=
  if Qeq_bool c 0 then Raise ZeroDivisionError
  else Ok (x - c * inject_Z (Qfloor (x / c))).

(** The value of [x % c] when [c] is not zero. *)
Definition fmod_val (x c : Q) : Q := x - c * inject_Z (Qfloor (x / c)).

(** [2 * math.pi] as the IEEE-754 double it is: 884279719003555 / 2^47. *)
Definition two_pi : Q := 884279719003555 # 140737488355328.

End PyFloat.

(** ** ConvertStage *)

Module ConvertStage.
Local Open Scope R_scope.

Definition vec : Type := R * R.
Definition matrix : Type := vec * vec.     (* the two rows *)

(** [numpy.array.dot] of a 2x2 matrix and a vector *)
Definition dot (m : matrix) (v : vec) : vec :=
  (fst (fst m) * fst v + snd (fst m) * snd v,
   fst (snd m) * fst v + snd (snd m) * snd v).

Record t : Type := mk {
  md_pos_cor : vec;             (* metadata MD_POS_COR: translation *)
  md_rotation_cor : R;          (* metadata MD_ROTATION_COR: rotation *)
  md_pixel_size_cor : vec;      (* metadata MD_PIXEL_SIZE_COR: scale *)
  _Mtodep : matrix;
  _Mfromdep : matrix;
  _O : vec;
  _dependency : string;         (* role of the wrapped stage *)
  _axes_dep : string * string;  (* names of its x and y axes *)
  position_value : dict R       (* the position VA *)
}.

Definition _updateConversion (self : t) : t :=
  let translation := md_pos_cor self in
  let rotation := md_rotation_cor self in
  let scale := md_pixel_size_cor self in
  mk (md_pos_cor self) (md_rotation_cor self) (md_pixel_size_cor self)
     ((cos rotation * fst scale, - sin rotation * fst scale),
      (sin rotation * snd scale, cos rotation * snd scale))
     ((cos (- rotation) / fst scale, - sin (- rotation) / snd scale),
      (sin (- rotation) / fst scale, cos (- rotation) / snd scale))
     (fst translation, snd translation)
     (_dependency self) (_axes_dep self) (position_value self).

Definition _convertPosFromdep (self : t) (pos_dep : vec) (absolute : bool) : vec :=
  let q := (fst pos_dep, snd pos_dep) in
  let p := dot (_Mfromdep self) q in
  if absolute then (fst p - fst (_O self), snd p - snd (_O self)) else p.

Definition _convertPosTodep (self : t) (pos : vec) (absolute : bool) : vec :=
  let p := (fst pos, snd pos) in
  let p := if absolute then (fst p + fst (_O self), snd p + snd (_O self)) else p in
  dot (_Mtodep self) p.

(** The fields set by [__init__] before the position VA is subscribed. *)
Definition __init__ (dependency : string) (axes : string * string)
    (rotation : R) (scale translation : option vec) : t :=
  let scale := match scale with None => (1, 1) | Some sc => sc end in
  let translation := match translation with None => (0, 0) | Some tr => tr end in
  _updateConversion
    (mk translation rotation scale ((0, 0), (0, 0)) ((0, 0), (0, 0)) (0, 0)
        dependency axes [("x"%string, 0); ("y"%string, 0)]).

Section Methods.
Context {W arg I : Type} {D : Driver R W}.
Abbreviation St := (sys R arg W I).

  (** [pos.get(k, default)]; the default [cpos[k]] is evaluated first. *)
Definition get_default (pos cpos : dict R) (k : string) : result R :=
    d ← getitem cpos k;
    Ok (match dict_get k pos with Some v => v | None => d end).

Definition moveAbs (self : t) (pos : dict R) : M St (call R) :=
    let cpos := position_value self in
    x ← lift (get_default pos cpos "x");
    y ← lift (get_default pos cpos "y");
    let vpos_dep := _convertPosTodep self (x, y) true in
    let pos_dep := dict_set (snd (_axes_dep self)) (snd vpos_dep)
                     [(fst (_axes_dep self), fst vpos_dep)] in
    issue (MoveAbs (_dependency self) pos_dep).

Definition moveRel (self : t) (shift : dict R) : M St (call R) :=
    let vshift := (match dict_get "x" shift with Some v => v | None => 0 end,
                   match dict_get "y" shift with Some v => v | None => 0 end) in
    let vshift_dep := _convertPosTodep self vshift false in
    let shift_dep := dict_set (snd (_axes_dep self)) (snd vshift_dep)
                       [(fst (_axes_dep self), fst vshift_dep)] in
    issue (MoveRel (_dependency self) shift_dep).
End Methods.

End ConvertStage.

(** ** CoupledStage *)

Module CoupledStage.
Local Open Scope R_scope.

Record t : Type := mk {
  _stage_conv : ConvertStage.t;
  _position : dict R;
  position_value : dict R       (* the position VA *)
}.

Section Methods.
Context {W : Type} {D : Driver R W} {B : ActuatorBase R t}.
Abbreviation St := (sys R R W t).

Definition master : string := "master".
Definition slave : string := "slave".

Definition _updatePosition : M St unit :=
    mode_pos ← dep_position master;
    self ← get_self;
    x ← lift (getitem mode_pos "x");
    let self := mk (_stage_conv self) (dict_set "x" x (_position self))
                   (position_value self) in
    _ ← put_self self;
    y ← lift (getitem mode_pos "y");
    let self := mk (_stage_conv self) (dict_set "y" y (_position self))
                   (position_value self) in
    let pos := _applyInversion self (_position self) in
    put_self (mk (_stage_conv self) (_position self) pos).

  (** The [finally] block of the two move bodies. *)
Definition move_slave : M St unit :=
    mpos ← dep_position master;
    x ← lift (getitem mpos "x");
    y ← lift (getitem mpos "y");
    self ← get_self;
    f ← ConvertStage.moveAbs (_stage_conv self) [("x"%string, x); ("y"%string, y)];
    fresult f.

Definition _doMoveAbs (pos : dict R) : M St unit :=
    f ← issue (MoveAbs master pos);
    _ ← try_finally (fresult f) move_slave;
    _updatePosition.

Definition _doMoveRel (shift : dict R) : M St unit :=
    f ← issue (MoveRel master shift);
    _ ← try_finally (fresult f) move_slave;
    _updatePosition.

Definition moveRel (shift : dict R) : M St (future R R) :=
    let shift := if is_empty shift then [("x"%string, 0); ("y"%string, 0)] else shift in
    self ← get_self;
    _ ← lift (_checkMoveRel self shift);
    let shift := _applyInversion self shift in
    submit (mk_task DoMoveRel shift ∅).

Definition moveAbs (pos : dict R) : M St (future R R) :=
    self ← get_self;
    let pos := if is_empty pos then position_value self else pos in
    _ ← lift (_checkMoveAbs self pos);
    let pos := _applyInversion self pos in
    submit (mk_task DoMoveAbs pos ∅).
End Methods.

End CoupledStage.

(** Description of an axis ([model.Axis]): only what the wrappers look at. *)
Record axis_def : Type := mk_axis {
  range : option (Q * Q);       (* [None]: the axis has no [range] attribute *)
  canUpdate : bool
}.

(** ** AntiBacklashActuator *)

Module AntiBacklashActuator.
Local Open Scope Q_scope.

Record t : Type := mk {
  _backlash : gmap string Q;
  _shifted : gmap string bool;
  axes : dict axis_def
}.

Definition set_shifted (a : string) (b : bool) (self : t) : t :=
  mk (_backlash self) (<[a := b]> (_shifted self)) (axes self).

(** The loop of [__init__] over the axes of the dependency. *)
Fixpoint init_axes (backlash : gmap string Q) (dep_axes : dict axis_def)
    (axes_def : dict axis_def) : result (dict axis_def) :=
  match dep_axes with
  | [] => Ok axes_def
  | (an, ax) :: rest =>
      match backlash !! an, range ax with
      | Some b, Some rng =>
          if Qlt_le_dec (snd rng - fst rng) (Qabs b) then Raise ValueError
          else if Qlt_le_dec 0 b
               then init_axes backlash rest
                      (dict_set an (mk_axis (Some (fst rng + b, snd rng)) true) axes_def)
               else init_axes backlash rest
                      (dict_set an (mk_axis (Some (fst rng, snd rng + b)) true) axes_def)
      | _, _ =>
          init_axes backlash rest (dict_set an (mk_axis (range ax) true) axes_def)
      end
  end.

(** [__init__]: [dependencies] maps a role to the axes of that dependency.
    The checks on the types of the keys and values of [backlash] hold by
    typing. *)
Definition __init__ (dependencies : list (string * dict axis_def))
    (backlash : gmap string Q) : result t :=
  match dependencies with
  | [(_, dep_axes)] =>
      axes_def ← init_axes backlash dep_axes [];
      let shifted : gmap string bool :=
        list_to_map (map (fun a => (a, false)) (dict_keys axes_def)) in
      let missing : gset string := dom backlash ∖ list_to_set (dict_keys axes_def) in
      if bool_decide (missing = ∅) then Ok (mk backlash shifted axes_def)
      else Raise ValueError
  | _ => Raise ValueError
  end.

Section Methods.
Context {W : Type} {D : Driver Q W} {B : ActuatorBase Q t}.
Abbreviation St := (sys Q Q W t).

  (** The single dependency. *)
Definition dep : string := "dep".

  (** The loop of [_antiBacklashMove] that collects the axes to revert. *)
Fixpoint revert_axes (axes : list string) (sub_backlash : dict Q) : M St (dict Q) :=
    match axes with
    | [] => mret sub_backlash
    | a :: rest =>
        self ← get_self;
        match _shifted self !! a with
        | None => raise KeyError
        | Some false => revert_axes rest sub_backlash
        | Some true =>
            let sub_backlash :=
              match _backlash self !! a with
              | Some b => dict_set a b sub_backlash
              | None => sub_backlash
              end in
            _ ← put_self (set_shifted a false self);
            revert_axes rest sub_backlash
        end
    end.

Definition _antiBacklashMove (axes : list string) : M St unit :=
    sub_backlash ← revert_axes axes [];
    if is_empty sub_backlash then mret tt
    else f ← issue (MoveRelSync dep sub_backlash); fresult f.

  (** The loop of [_doMoveRel] that subtracts the backlash. *)
Fixpoint plan_shift (items : dict Q) (sub_shift : dict Q) : M St (dict Q) :=
    match items with
    | [] => mret sub_shift
    | (a, v) :: rest =>
        self ← get_self;
        match _backlash self !! a with
        | None => plan_shift rest (dict_set a v sub_shift)
        | Some b =>
            if Qlt_le_dec (v * b) 0 then
              match _shifted self !! a with
              | None => raise KeyError
              | Some true => plan_shift rest (dict_set a v sub_shift)
              | Some false =>
                  _ ← put_self (set_shifted a true self);
                  plan_shift rest (dict_set a (v - b) sub_shift)
              end
            else plan_shift rest (dict_set a v sub_shift)
        end
    end.

  (** [any(self._shifted)]: iterating a dict yields its keys, and a key is
      truthy when it is not the empty string. *)
Definition any_shifted (self : t) : bool :=
    existsb (fun a => negb (String.eqb a "")) (elements (dom (_shifted self))).

  (** [nf is not None and axes <= nf._update_axes] *)
Definition covered (axes : gset string) (nf : option (gset string)) : bool :=
    match nf with
    | None => false
    | Some update_axes => bool_decide (axes ⊆ update_axes)
    end.

  (** The waiting loop: [Ok false] is the early [return], [Ok true] leaves
      the loop with the move done. *)
Definition wait_loop (axes : gset string) (run : async_run) : result bool :=
    if existsb (covered axes) (timed_out run) then Ok false
    else match outcome run with
         | Some e => Raise e
         | None => if covered axes (next_at_end run) then Ok false else Ok true
         end.

Definition wait_update (axes : gset string) (f : call Q) : M St bool := fun s =>
    let '(run, w) := watch f (world s) in
    (wait_loop axes run, mk_sys w (trace s) (queue s) (this s)).

Definition _doMoveRel (shift : dict Q) : M St unit :=
    sub_shift ← plan_shift shift [];
    let axes : gset string := list_to_set (dict_keys shift) in
    self ← get_self;
    go_on ← (if negb (any_shifted self)
             then f ← issue (MoveRelSync dep sub_shift); _ ← fresult f; mret true
             else f ← issue (MoveRel dep sub_shift); wait_update axes f);
    if go_on : bool then _antiBacklashMove (dict_keys shift) else mret tt.

  (** [_createFuture]: the [_update_axes] of the new future. *)
Fixpoint all_canUpdate (self : t) (axes : list string) : result bool :=
    match axes with
    | [] => Ok true
    | a :: rest =>
        ax ← getitem (AntiBacklashActuator.axes self) a;
        if canUpdate ax then all_canUpdate self rest else Ok false
    end.

Definition _createFuture (axes : list string) (update : bool) : M St (gset string) :=
    if update then
      self ← get_self;
      ok ← lift (all_canUpdate self axes);
      if ok : bool then mret (list_to_set axes) else mret ∅
    else mret ∅.

Definition moveRel (shift : dict Q) (update : bool) : M St (future Q Q) :=
    if is_empty shift then mret InstantaneousFuture
    else
      self ← get_self;
      _ ← lift (_checkMoveRel self shift);
      f ← _createFuture (dict_keys shift) update;
      submit (mk_task DoMoveRel shift f).

Definition moveAbs (pos : dict Q) (update : bool) : M St (future Q Q) :=
    if is_empty pos then mret InstantaneousFuture
    else
      self ← get_self;
      _ ← lift (_checkMoveAbs self pos);
      f ← _createFuture (dict_keys pos) update;
      submit (mk_task DoMoveAbs pos f).
End Methods.

End AntiBacklashActuator.

(** ** MultiplexActuator *)

Module MultiplexActuator.
Local Open Scope Q_scope.

Record t : Type := mk {
  _axis_to_dep : gmap string (string * string);  (* axis -> (dependency, its axis) *)
  _executor : bool      (* an executor exists: more than one dependency *)
}.

(** [d.popitem()]: the pair inserted last. *)
Definition popitem {A} (d : dict A) : result ((string * A) * dict A) :=
  match rev d with
  | [] => Raise KeyError
  | item :: r => Ok (item, rev r)
  end.

(** [_moveTodepMove]: the moves grouped by dependency. *)
Fixpoint _moveTodepMove (self : t) (mv : dict Q) (dep_to_move : dict (dict Q))
    : result (dict (dict Q)) :=
  match mv with
  | [] => Ok dep_to_move
  | (axis, distance) :: rest =>
      match _axis_to_dep self !! axis with
      | None => Raise KeyError
      | Some (dep, dep_axis) =>
          let move := match dict_get dep dep_to_move with
                      | Some m => m
                      | None => []
                      end in
          _moveTodepMove self rest
            (dict_set dep (dict_set dep_axis distance move) dep_to_move)
      end
  end.

Section Methods.
Context {W : Type} {D : Driver Q W} {B : ActuatorBase Q t}.
Abbreviation St := (sys Q Q W t).

Definition moveRel (shift : dict Q) : M St (future Q Q) :=
    if is_empty shift then mret InstantaneousFuture
    else
      self ← get_self;
      _ ← lift (_checkMoveRel self shift);
      let shift := _applyInversion self shift in
      if _executor self then submit (mk_task DoMoveRel shift ∅)
      else
        cmv ← lift (_moveTodepMove self shift []);
        popped ← lift (popitem cmv);
        if is_empty (snd popped) then
          f ← issue (MoveRel (fst (fst popped)) (snd (fst popped)));
          mret (DepFuture f)
        else raise AssertionError.

Definition moveAbs (pos : dict Q) : M St (future Q Q) :=
    if is_empty pos then mret InstantaneousFuture
    else
      self ← get_self;
      _ ← lift (_checkMoveAbs self pos);
      let pos := _applyInversion self pos in
      if _executor self then submit (mk_task DoMoveAbs pos ∅)
      else
        cmv ← lift (_moveTodepMove self pos []);
        popped ← lift (popitem cmv);
        if is_empty (snd popped) then
          f ← issue (MoveAbs (fst (fst popped)) (snd (fst popped)));
          mret (DepFuture f)
        else raise AssertionError.
End Methods.

End MultiplexActuator.

(** ** LinearActuator *)

Module LinearActuator.
Local Open Scope Q_scope.

Record t : Type := mk {
  _axis : string;
  _caxis : string;
  _offset : Q;
  _move_num : nat
}.

Section Methods.
Context {W : Type} {D : Driver Q W} {B : ActuatorBase Q t}.
Abbreviation St := (sys Q Q W t).

Definition moveRel (shift : dict Q) : M St (future Q Q) :=
    if is_empty shift then mret InstantaneousFuture
    else
      self ← get_self;
      _ ← lift (_checkMoveRel self shift);
      submit (mk_task DoMoveRel shift ∅).

Definition moveAbs (pos : dict Q) : M St (future Q Q) :=
    if is_empty pos then mret InstantaneousFuture
    else
      self ← get_self;
      _ ← lift (_checkMoveAbs self pos);
      let pos := _applyInversion self pos in
      submit (mk_task DoMoveAbs pos ∅).
End Methods.

End LinearActuator.

(** ** FixedPositionsActuator *)

Module FixedPositionsActuator.
Local Open Scope Q_scope.

Record t : Type := mk {
  _axis : string;             (* exposed axis *)
  _caxis : string;            (* axis of the dependency *)
  _cycle : option Q;
  _move_sum : Q
}.

Section Methods.
Context {W : Type} {D : Driver Q W} {B : ActuatorBase Q t}.
Abbreviation St := (sys Q Q W t).

Definition dep : string := "dep".

Definition moveRel (shift : dict Q) : M St (future Q Q) :=
    if is_empty shift then mret InstantaneousFuture
    else
      self ← get_self;
      _ ← lift (_checkMoveRel self shift);
      raise NotImplementedError.

Definition moveAbs (pos : dict Q) : M St (future Q Q) :=
    if is_empty pos then mret InstantaneousFuture
    else
      self ← get_self;
      _ ← lift (_checkMoveAbs self pos);
      let pos := _applyInversion self pos in
      submit (mk_task DoMoveAbs pos ∅).

Definition stop (axes : option (gset string)) : M St unit :=
    self ← get_self;
    let axes :=
      match axes with
      | Some _ =>
          let axes : gset string := ∅ in
          Some (if bool_decide (_axis self ∈ axes) then axes ∪ {[ _caxis self ]}
                else axes)
      | None => None
      end in
    f ← issue (Stop dep axes);
    fresult f.
End Methods.

End FixedPositionsActuator.

(** ** CombinedSensorActuator *)

Module CombinedSensorActuator.
Local Open Scope Q_scope.

Record t : Type := mk {
  _axis : string;
  _axis_sensor : string;
  _to_sensor : list (Q * Q);    (* actuator position -> sensor position *)
  _pos_shift : Q
}.

Definition set_pos_shift (v : Q) (self : t) : t :=
  mk (_axis self) (_axis_sensor self) (_to_sensor self) v.

(** [d[p]] for a dict keyed by floats. *)
Fixpoint getitem_float (d : list (Q * Q)) (p : Q) : result Q :=
  match d with
  | [] => Raise KeyError
  | (k, v) :: rest => if Qeq_bool p k then Ok v else getitem_float rest p
  end.

Section Methods.
Context {W : Type} {D : Driver Q W} {B : ActuatorBase Q t}.
Abbreviation St := (sys Q Q W t).

Definition actuator : string := "actuator".
Definition sensor : string := "sensor".

  (* self._sensor.position.value[self._axis_sensor] *)
Definition read_sensor : M St Q :=
    self ← get_self;
    spos ← dep_position sensor;
    lift (getitem spos (_axis_sensor self)).

  (** The [while spos != exp_spos] loop of [_doMoveAbs]. [Some tot_shift] is
      the normal end of the loop, [None] the [return] that gives up. The loop
      ends by itself at the tenth turn; [fuel] only makes that structural. *)
Fixpoint extra_moves (fuel retry : nat) (p_cor prev_pos exp_spos tot_shift spos : Q)
      : M St (option Q) :=
    if Qeq_bool spos exp_spos then mret (Some tot_shift)
    else
      match fuel with
      | O => diverge
      | S fuel =>
          let retry := S retry in
          if Nat.eqb retry 10 then raise IOError
          else if Qeq_bool p_cor prev_pos then mret None
          else
            let shift := (p_cor - prev_pos) * (1 # 10) in
            self ← get_self;
            _ ← try_except
                  (f ← issue (MoveRel actuator [(_axis self, shift)]); fresult f)
                  (fun ex => raise IOError);
            let tot_shift := tot_shift + shift in
            spos ← read_sensor;
            extra_moves fuel retry p_cor prev_pos exp_spos tot_shift spos
      end.

Definition _doMoveAbs (pos : dict Q) : M St unit :=
    self ← get_self;
    p ← lift (getitem pos (_axis self));
    let p_cor := p + _pos_shift self in
    dpos ← dep_position actuator;
    prev_pos ← lift (getitem dpos (_axis self));
    (* self._dependency.moveAbs(pos).result(): [pos] as requested *)
    f ← issue (MoveAbs actuator pos);
    _ ← fresult f;
    exp_spos ← lift (getitem_float (_to_sensor self) p);
    spos ← read_sensor;
    r ← extra_moves 10 0 p_cor prev_pos exp_spos 0 spos;
    match r with
    | Some tot_shift =>
        self ← get_self;
        put_self (set_pos_shift (_pos_shift self + tot_shift) self)
    | None => mret tt
    end.

Definition moveRel (shift : dict Q) : M St (future Q Q) :=
    if is_empty shift then mret InstantaneousFuture
    else
      self ← get_self;
      _ ← lift (_checkMoveRel self shift);
      raise NotImplementedError.

Definition moveAbs (pos : dict Q) : M St (future Q Q) :=
    if is_empty pos then mret InstantaneousFuture
    else
      self ← get_self;
      _ ← lift (_checkMoveAbs self pos);
      let pos := _applyInversion self pos in
      submit (mk_task DoMoveAbs pos ∅).
End Methods.

End CombinedSensorActuator.

(** ** CombinedFixedPositionActuator *)

Module CombinedFixedPositionActuator.
Local Open Scope Q_scope.
Import PyFloat.

Record t : Type := mk {
  _axis_name : string;
  _positions : dict (list Q);   (* position name -> target of each dependency *)
  _atol : list Q;
  _cycle : list (option Q);
  _fallback : string;
  _dependencies : list string;  (* the roles, sorted *)
  _caxes_map : list string;     (* the axis of each dependency *)
  position_value : dict string  (* the position VA *)
}.

Definition set_position (pos : dict string) (self : t) : t :=
  mk (_axis_name self) (_positions self) (_atol self) (_cycle self) (_fallback self)
     (_dependencies self) (_caxes_map self) pos.

(** [zip] of four sequences stops with the shortest. *)
Fixpoint zip4 {A B C D} (la : list A) (lb : list B) (lc : list C) (ld : list D)
    : list (A * B * C * D) :=
  match la, lb, lc, ld with
  | a :: la, b :: lb, c :: lc, d :: ld => (a, b, c, d) :: zip4 la lb lc ld
  | _, _, _, _ => []
  end.

(** The distance between the current and the target position of one axis. *)
Definition axis_dist (cp tp : Q) (cyl : option Q) : result Q :=
  match cyl with
  | None => Ok (Qabs (cp - tp))
  | Some cyl =>
      m1 ← fmod (cp - tp) cyl;
      m2 ← fmod (tp - cp) cyl;
      Ok (Qmin m1 m2)
  end.

(** The inner loop: [Ok false] is the [break], [Ok true] the [else] branch
    of the [for]. *)
Fixpoint axes_match (l : list (Q * Q * Q * option Q)) : result bool :=
  match l with
  | [] => Ok true
  | (cp, tp, atol, cyl) :: rest =>
      dist ← axis_dist cp tp cyl;
      if Qlt_le_dec atol dist then Ok false else axes_match rest
  end.

(** The outer loop over the table of positions. *)
Fixpoint find_position (self : t) (positions : dict (list Q)) (cur : list Q)
    : result string :=
  match positions with
  | [] => Raise LookupError
  | (pos_key, pos_dependencies) :: rest =>
      ok ← axes_match (zip4 cur pos_dependencies (_atol self) (_cycle self));
      if ok : bool then Ok pos_key else find_position self rest cur
  end.

Section Methods.
Context {W : Type} {D : Driver Q W} {B : ActuatorBase string t}.
Abbreviation St := (sys Q string W t).

  (* [c.position.value[ca] for c, ca in zip(self._dependencies, self._caxes_map)] *)
Fixpoint current_positions (deps caxes : list string) : M St (list Q) :=
    match deps, caxes with
    | c :: deps, ca :: caxes =>
        p ← dep_position c;
        v ← lift (getitem p ca);
        vs ← current_positions deps caxes;
        mret (v :: vs)
    | _, _ => mret []
    end.

Definition _readPositionfromDependencies : M St string :=
    self ← get_self;
    pos_dependencies_cur ← current_positions (_dependencies self) (_caxes_map self);
    lift (find_position self (_positions self) pos_dependencies_cur).

Definition _updatePosition : M St unit :=
    try_except
      (pos_key_matching ← _readPositionfromDependencies;
       self ← get_self;
       put_self (set_position [(_axis_name self, pos_key_matching)] self))
      (fun ex =>
         if is_LookupError ex then
           self ← get_self;
           _ ← put_self (set_position [(_axis_name self, _fallback self)] self);
           _ ← current_positions (_dependencies self) (_caxes_map self);
           mret tt
         else raise ex).

Definition moveRel (shift : dict string) : M St (future Q string) :=
    if is_empty shift then mret InstantaneousFuture
    else raise NotImplementedError.

Definition moveAbs (pos : dict string) : M St (future Q string) :=
    if is_empty pos then mret InstantaneousFuture
    else
      self ← get_self;
      _ ← lift (_checkMoveAbs self pos);
      target ← lift (getitem pos (_axis_name self));
      if String.eqb target (_fallback self) then raise ValueError
      else submit (mk_task DoMoveAbs pos ∅).
End Methods.

End CombinedFixedPositionActuator.

(** ** RotationActuator *)

Module RotationActuator.
Local Open Scope Q_scope.
Import PyFloat.

Record t : Type := mk {
  _cycle : Q;
  _axis : string;             (* exposed axis *)
  _caxis : string;            (* axis of the dependency *)
  _ref_start : Q;
  _move_num_total : nat;
  _pos_cor : Q;               (* metadata MD_POS_COR *)
  _executor : bool            (* [false] once terminated *)
}.

(** [_findShortestMove]: [cur_pos] is the value read from
    [self._dependency.position.value[self._caxis]]. *)
Definition _findShortestMove (self : t) (cur_pos target_pos : Q) : result (Q * Q) :=
  let vector := target_pos - cur_pos in
  mod1 ← fmod vector (_cycle self);
  mod2 ← fmod (- vector) (_cycle self);
  if Qlt_le_dec mod1 mod2 then Ok (mod1, cur_pos)
  else Ok (- mod2, cur_pos).

Section Methods.
Context {W : Type} {D : Driver Q W} {B : ActuatorBase Q t}.
Abbreviation St := (sys Q Q W t).

Definition dep : string := "dep".

Definition moveRel (shift : dict Q) : M St (future Q Q) :=
    if is_empty shift then mret InstantaneousFuture
    else
      self ← get_self;
      _ ← lift (_checkMoveRel self shift);
      submit (mk_task DoMoveRel shift ∅).

Definition moveAbs (pos : dict Q) : M St (future Q Q) :=
    if is_empty pos then mret InstantaneousFuture
    else
      self ← get_self;
      _ ← lift (_checkMoveAbs self pos);
      submit (mk_task DoMoveAbs pos ∅).

Definition stop (axes : option (gset string)) : M St unit :=
    self ← get_self;
    _ ← (if _executor self then cancel else mret tt);
    let axes :=
      match axes with
      | Some _ =>
          let axes : gset string := ∅ in
          Some (if bool_decide (_axis self ∈ axes) then axes ∪ {[ _caxis self ]}
                else axes)
      | None => None
      end in
    f ← issue (Stop dep axes);
    fresult f.
End Methods.

End RotationActuator.

(** ** Reference behaviour, worded after the design description *)

Module Spec.

(** What [CoupledStage] does with the request it substitutes for an empty
    one: the check of the base class, then a task for the executor. *)
Definition coupled_submits {W : Type} {B : ActuatorBase R CoupledStage.t}
    (fn : task_fn) (check : result unit) (request : dict R)
    (s : sys R R W CoupledStage.t) : result (future R R) * sys R R W CoupledStage.t :=
  match check with
  | Ok _ =>
      let t := mk_task fn (_applyInversion (this s) request) ∅ in
      (Ok (TaskFuture t), mk_sys (world s) (trace s) (queue s ++ [t]) (this s))
  | Raise e => (Raise e, s)
  | Diverge => (Diverge, s)
  end.

(** The move that [ConvertStage.moveAbs] sends to the wrapped stage for the
    exposed position (x, y). *)
Definition converted_move (conv : ConvertStage.t) (x y : R) : call R :=
  let q := ConvertStage._convertPosTodep conv (x, y) true in
  MoveAbs (ConvertStage._dependency conv)
    (dict_set (snd (ConvertStage._axes_dep conv)) (snd q)
       [(fst (ConvertStage._axes_dep conv), fst q)]).



(** The compensating move: the backlash of every axis that is shifted. *)
Definition compensation (self : AntiBacklashActuator.t) (axes : list string) : dict Q :=
  flat_map (fun a =>
              match AntiBacklashActuator._shifted self !! a,
                    AntiBacklashActuator._backlash self !! a with
              | Some true, Some b => [(a, b)]
              | _, _ => []
              end) axes.

(** The corrective move of the sensor-verified actuator: a tenth of the way
    from the previous position to the corrected target. *)
Definition extra (self : CombinedSensorActuator.t) (p_cor prev_pos : Q) : call Q :=
  MoveRel CombinedSensorActuator.actuator
    [(CombinedSensorActuator._axis self, ((p_cor - prev_pos) * (1 # 10))%Q)].

(** The hardware after [k] further calls [c], each waited for. *)
Fixpoint world_after {num W : Type} {D : Driver num W} (c : call num) (k : nat)
    (w : W) : W :=
  match k with
  | O => w
  | S k => world_after c k (snd (await c w))
  end.

(** The distance of the design description between a current and a target
    position: absolute without a cycle, modulo-aware with one. *)
Definition cyclic_dist (cp tp : Q) (cyl : option Q) : Q :=
  match cyl with
  | None => Qabs (cp - tp)
  | Some c => Qmin (PyFloat.fmod_val (cp - tp) c) (PyFloat.fmod_val (tp - cp) c)
  end.

(** A table entry matches when every axis is within its tolerance. *)
Definition within_tolerance (self : CombinedFixedPositionActuator.t)
    (cur target : list Q) : bool :=
  forallb (fun '(cp, tp, atol, cyl) => Qle_bool (cyclic_dist cp tp cyl) atol)
    (CombinedFixedPositionActuator.zip4 cur target
       (CombinedFixedPositionActuator._atol self)
       (CombinedFixedPositionActuator._cycle self)).

(** First matching entry of the table, else the fallback. *)
Definition reported_position (self : CombinedFixedPositionActuator.t)
    (cur : list Q) : string :=
  match find (fun entry => within_tolerance self cur (snd entry))
             (CombinedFixedPositionActuator._positions self) with
  | Some entry => fst entry
  | None => CombinedFixedPositionActuator._fallback self
  end.

(** A cycle that the float modulo accepts. *)
Definition cycle_ok (cyl : option Q) : Prop :=
  match cyl with
  | Some c => ~ (c == 0)%Q
  | None => True
  end.

End Spec.

(** ** Configurations of the scenarios of the design description *)

Module Scenarios.

(** A dependency that accepts every call and reports no position. *)
Definition still_driver {num : Type} : Driver num unit :=
  {| position := fun _ _ => [];
     await := fun _ w => (None, w);
     watch := fun _ w => (mk_run [] None None, w) |}.

(** A base class whose checks accept every request and that inverts no axis. *)
Definition lenient_base {num I : Type} : ActuatorBase num I :=
  {| _checkMoveRel := fun _ _ => Ok tt;
     _checkMoveAbs := fun _ _ => Ok tt;
     _applyInversion := fun _ d => d |}.

(** The rotation actuator of concrete scenario 2: a full turn of [2 * pi]. *)
Definition rot_2pi : RotationActuator.t :=
  RotationActuator.mk PyFloat.two_pi "rz" "x" (PyFloat.two_pi * (5 # 100))%Q 0 0 true.

(** A converting stage that is not rotated, scaled by 2 and 3 and shifted by
    (1, 1). *)
Definition stage_2_3 : ConvertStage.t :=
  ConvertStage.__init__ "aligner" ("x", "y")%string 0%R (Some (2, 3)%R) (Some (1, 1)%R).

(** Concrete scenario 4: positions A = [0, 0] and B = [1, 1], fallback
    "unknown", tolerances [atol0] and [atol1], no cycle. *)
Definition pol_AB (atol0 atol1 : Q) : CombinedFixedPositionActuator.t :=
  CombinedFixedPositionActuator.mk "pol"
    [("A"%string, [0; 0]%Q); ("B"%string, [1; 1]%Q)]
    [atol0; atol1] [None; None] "unknown" ["dep1"; "dep2"]%string ["rz"; "rz"]%string [].

(** Two dependencies that both stand at 0.5. *)
Definition driver_at_half : Driver Q unit :=
  {| position := fun _ _ => [("rz"%string, (1 # 2)%Q)];
     await := fun _ w => (None, w);
     watch := fun _ w => (mk_run [] None None, w) |}.

(** A master stage at (3, 4) whose moves fail with the exception [e], in
    front of a slave stage that accepts every move. *)
Definition failing_master (e : exn) : Driver R unit :=
  {| position := fun _ _ => [("x"%string, 3%R); ("y"%string, 4%R)];
     await := fun c w =>
       match c with
       | MoveAbs "master" _ | MoveRel "master" _ => (Some e, w)
       | _ => (None, w)
       end;
     watch := fun _ w => (mk_run [] None None, w) |}.

(** The coupled stage over [stage_2_3], not yet positioned. *)
Definition coupled_2_3 : CoupledStage.t :=
  CoupledStage.mk stage_2_3 [] [].

(** Concrete scenario for the sensor-verified actuator: the actuator axis
    stands at [at_pos], and the sensor keeps reading 0. *)
Definition blind_sensor (at_pos : Q) : Driver Q unit :=
  {| position := fun dep _ =>
       if String.eqb dep "sensor" then [("s"%string, 0%Q)] else [("x"%string, at_pos)];
     await := fun _ w => (None, w);
     watch := fun _ w => (mk_run [] None None, w) |}.

(** A stage whose sensor sees position 1 only once the actuator stands at
    1.05 or beyond.  The state of the hardware is the position of the
    actuator axis; every move succeeds and lands where it is sent. *)
Definition stiff_stage : Driver Q Q :=
  {| position := fun dep w =>
       if String.eqb dep "sensor"
       then [("s"%string, if Qle_bool (105 # 100) w then 5%Q else 0%Q)]
       else [("x"%string, w)];
     await := fun c w =>
       match c with
       | MoveAbs _ [(_, p)] => (None, p)
       | MoveRel _ [(_, d)] => (None, (w + d)%Q)
       | _ => (None, w)
       end;
     watch := fun _ w => (mk_run [] None None, w) |}.

(** Positions 0 and 1 of the actuator are seen as 0 and 5 by the sensor. *)
Definition flipper (pos_shift : Q) : CombinedSensorActuator.t :=
  CombinedSensorActuator.mk "x" "s" [(0, 0); (1, 5)]%Q pos_shift.

(** Concrete scenario 3: one axis "x" with a backlash of 0.01, shifted or
    not. *)
Definition stage_x (shifted : bool) : AntiBacklashActuator.t :=
  AntiBacklashActuator.mk {[ "x"%string := (1 # 100)%Q ]} {[ "x"%string := shifted ]}
    [("x"%string, mk_axis (Some (0, 1)%Q) true)].


End Scenarios.

(** * The move bodies and the position updates *)

(** ** Calls that a dependency refuses at once *)

(** A dependency can raise when a move is called, before any future exists
    (as [FixedPositionsActuator.moveRel] does with [NotImplementedError]).
    Where a move is waited for as soon as it is called this shows like the
    failure of its future; it differs where several moves are called before
    the first is waited for.  [refuses c w] is the exception that the call
    [c] raises at once when the hardware is in state [w]. *)
Class Refusals (num W : Type) : Type :=
  refuses : call num -> W -> option exn.

(** [dep.moveRel(...)], [dep.moveAbs(...)] where the call itself may raise. *)
Definition call_dep {num arg W I : Type} {R : Refusals num W} (c : call num)
    : M (sys num arg W I) (call num) := fun s =>
  match refuses c (world s) with
  | Some e => (Raise e, s)
  | None => issue c s
  end.

(** ** RotationActuator: position update and move bodies *)

Module RotationMoves.
Local Open Scope Q_scope.
Import PyFloat RotationActuator.

(** [x // c] on floats: the floor of the quotient; a zero divisor raises. *)
Definition ffloordiv (x c : Q) : result Z :=
  if Qeq_bool c 0 then Raise ZeroDivisionError else Ok (Qfloor (x / c)).

Definition set_move_num_total (n : nat) (self : t) : t :=
  mk (_cycle self) (_axis self) (_caxis self) (_ref_start self) n (_pos_cor self)
     (_executor self).

Section Methods.
Context {W : Type} {D : Driver Q W}.
Abbreviation St := (sys Q Q W t).

(** [_updatePosition]: the value written to the position VA. *)
Definition _updatePosition : M St (dict Q) :=
  self ← get_self;
  dpos ← dep_position dep;
  v ← lift (getitem dpos (_caxis self));
  p ← lift (fmod (v - _pos_cor self) (_cycle self));
  mret [(_axis self, p)].

(** [self._findShortestMove(target_pos)], reading the dependency. *)
Definition findShortestMove (target_pos : Q) : M St (Q * Q) :=
  self ← get_self;
  dpos ← dep_position dep;
  cur_pos ← lift (getitem dpos (_caxis self));
  lift (_findShortestMove self cur_pos target_pos).

Definition _doMoveAbs (pos : dict Q) : M St unit :=
  self ← get_self;
  target_pos ← lift (getitem pos (_axis self));
  let target_pos := target_pos + _pos_cor self in
  _ ← put_self (set_move_num_total (S (_move_num_total self)) self);
  mc ← findShortestMove target_pos;
  let move := fst mc in
  let cur_pos := snd mc in
  let final_pos := cur_pos + move in
  self ← get_self;
  d1 ← lift (ffloordiv cur_pos (_cycle self));
  d2 ← lift (ffloordiv final_pos (_cycle self));
  let pass_ref := negb (Z.eqb d1 d2) in
  move ← (if pass_ref || Nat.leb 5 (_move_num_total self) then
            mc ← findShortestMove (_ref_start self);
            f ← issue (MoveRel dep [(_caxis self, fst mc)]);
            _ ← fresult f;
            f ← issue (Reference dep {[ _caxis self ]});
            _ ← fresult f;
            mc ← findShortestMove target_pos;
            self ← get_self;
            _ ← put_self (set_move_num_total 0 self);
            mret (fst mc)
          else mret move);
  self ← get_self;
  f ← issue (MoveRel dep [(_caxis self, move)]);
  fresult f.

Definition _doMoveRel (shift : dict Q) : M St unit :=
  self ← get_self;
  dpos ← dep_position dep;
  v ← lift (getitem dpos (_caxis self));
  let cur_pos := v - _pos_cor self in
  d ← lift (getitem shift (_axis self));
  let pos := cur_pos + d in
  _doMoveAbs [(_axis self, pos)].

Definition _doReference : M St unit :=
  self ← get_self;
  f ← issue (Reference dep {[ _caxis self ]});
  fresult f.
End Methods.

End RotationMoves.

(** ** FixedPositionsActuator: the move body *)

Module FixedPositionsMoves.
Local Open Scope Q_scope.
Import PyFloat FixedPositionsActuator.

(** The fields the move body uses beside those of [FixedPositionsActuator.t]:
    the offset to the reference switch ([cycle / len(positions)]), whether
    [_update_dep_position] is subscribed to the position of the dependency,
    and [self._position[self._axis]], the position last received from the
    dependency. *)
Record obj : Type := mk_obj {
  fields : t;
  _offset : Q;
  subscribed : bool;
  _position : option Q
}.

Definition set_subscribed (b : bool) (o : obj) : obj :=
  mk_obj (fields o) (_offset o) b (_position o).

Definition set_move_sum (v : Q) (o : obj) : obj :=
  mk_obj (mk (_axis (fields o)) (_caxis (fields o)) (_cycle (fields o)) v)
         (_offset o) (subscribed o) (_position o).

Definition set_position (p : Q) (o : obj) : obj :=
  mk_obj (fields o) (_offset o) (subscribed o) (Some p).

Section Methods.
Context {W : Type} {D : Driver Q W}.
Abbreviation St := (sys Q Q W obj).

(** The branch of [_doMoveAbs] for a cyclic axis: the relative move still
    to make once the branch returns. *)
Definition cyclic_move (cycle distance cur_pos : Q) : M St Q :=
  let vector1 := distance - cur_pos in
  mod1 ← lift (fmod vector1 cycle);
  let vector2 := cur_pos - distance in
  mod2 ← lift (fmod vector2 cycle);
  if Qlt_le_dec (Qabs mod1) (Qabs mod2) then
    o ← get_self;
    _ ← put_self (set_move_sum (_move_sum (fields o) + mod1) o);
    o ← get_self;
    if Qle_bool cycle (_move_sum (fields o)) then
      _ ← put_self (set_move_sum 0 o);
      m ← lift (fmod (cycle - cur_pos) cycle);
      let move_to_ref := m + _offset o in
      f ← issue (MoveRel dep [(_caxis (fields o), move_to_ref)]);
      _ ← fresult f;
      f ← issue (Reference dep {[ _caxis (fields o) ]});
      _ ← fresult f;
      mret distance
    else mret mod1
  else
    o ← get_self;
    _ ← put_self (set_move_sum (_move_sum (fields o) - mod2) o);
    mret (- mod2).

(** [_update_dep_position(value)], called with the position of the
    dependency, up to [self._position[self._axis] = p].  The call of
    [_updatePosition] that follows writes the nearest known position into
    the position VA with [util.find_closest], which is not part of the
    sources at hand; the position VA is not modelled. *)
Definition _update_dep_position : M St unit :=
  o ← get_self;
  value ← dep_position dep;
  p ← lift (getitem value (_caxis (fields o)));
  p ← match _cycle (fields o) with
      | Some cycle => lift (fmod p cycle)
      | None => mret p
      end;
  put_self (set_position p o).

(** The [try] block of [_doMoveAbs]. *)
Definition move_body (distance : Q) : M St unit :=
  o ← get_self;
  _ ← put_self (set_subscribed false o);
  match _cycle (fields o) with
  | None =>
      f ← issue (MoveAbs dep [(_caxis (fields o), distance)]);
      fresult f
  | Some cycle =>
      dpos ← dep_position dep;
      cur_pos ← lift (getitem dpos (_caxis (fields o)));
      move ← cyclic_move cycle distance cur_pos;
      f ← issue (MoveRel dep [(_caxis (fields o), move)]);
      fresult f
  end.

(** The [finally] block: [subscribe(self._update_dep_position, init=True)]
    subscribes and calls the callback at once. *)
Definition resubscribe : M St unit :=
  o ← get_self;
  _ ← put_self (set_subscribed true o);
  _update_dep_position.

(** [_doMoveAbs pos] for [pos] with first item [first]: the body only looks
    at [list(pos.items())[0]]. *)
Definition _doMoveAbs (first : string * Q) (rest : dict Q) : M St unit :=
  try_finally (move_body (snd first)) resubscribe.
End Methods.

End FixedPositionsMoves.

(** ** LinearActuator: periodic referencing and the move bodies *)

Module LinearMoves.
Local Open Scope Q_scope.
Import LinearActuator.

(** The fields the move bodies use beside those of [LinearActuator.t]. *)
Record obj : Type := mk_obj {
  fields : t;
  _ref_start : Q;
  _ref_period : option nat      (* [None]: no automatic referencing *)
}.

Definition set_move_num (n : nat) (o : obj) : obj :=
  mk_obj (mk (_axis (fields o)) (_caxis (fields o)) (_offset (fields o)) n)
         (_ref_start o) (_ref_period o).

(** [self._ref_period and self._move_num > self._ref_period]: a period of
    [None] or of 0 is falsy. *)
Definition reference_due (o : obj) : bool :=
  match _ref_period o with
  | Some (S n) => Nat.ltb (S n) (_move_num (fields o))
  | _ => false
  end.

(** [_update_dep_position]: the value written to the position VA. *)
Definition _update_dep_position (o : obj) (value : dict Q) : result (dict Q) :=
  v ← getitem value (_caxis (fields o));
  Ok [(_axis (fields o), v - _offset (fields o))].

Section Methods.
Context {W : Type} {D : Driver Q W}.
Abbreviation St := (sys Q Q W obj).

Definition dep : string := "dep".

Definition _referenceIfNeeded : M St unit :=
  o ← get_self;
  _ ← put_self (set_move_num (S (_move_num (fields o))) o);
  o ← get_self;
  if reference_due o then
    f ← issue (MoveAbsSync dep
                 [(_caxis (fields o), _ref_start o + _offset (fields o))]);
    _ ← fresult f;
    f ← issue (Reference dep {[ _caxis (fields o) ]});
    _ ← fresult f;
    o ← get_self;
    put_self (set_move_num 0 o)
  else mret tt.

Definition _doMoveRel (shift : dict Q) : M St unit :=
  _ ← _referenceIfNeeded;
  o ← get_self;
  d ← lift (getitem shift (_axis (fields o)));
  f ← issue (MoveRel dep [(_caxis (fields o), d)]);
  fresult f.

(** [_doMoveAbs pos] for [pos] with first item [first]. *)
Definition _doMoveAbs (first : string * Q) (rest : dict Q) : M St unit :=
  _ ← _referenceIfNeeded;
  o ← get_self;
  let distance := snd first in
  f ← issue (MoveAbs dep [(_caxis (fields o), distance + _offset (fields o))]);
  fresult f.

Definition _doReference : M St unit :=
  o ← get_self;
  _ ← put_self (set_move_num 0 o);
  f ← issue (Reference dep {[ _caxis (fields o) ]});
  fresult f.
End Methods.

End LinearMoves.

(** ** MultiplexActuator: the move bodies *)

Module MultiplexMoves.
Local Open Scope Q_scope.
Import MultiplexActuator.

Section Methods.
Context {W : Type} {D : Driver Q W} {R : Refusals Q W}.
Abbreviation St := (sys Q Q W t).

(** The loop [for dep, move in ....items(): f = dep.move(move);
    futures.append(f)]; [send] is [MoveRel] or [MoveAbs]. *)
Fixpoint send_moves (send : string -> dict Q -> call Q) (moves : dict (dict Q))
    (futures : list (call Q)) : M St (list (call Q)) :=
  match moves with
  | [] => mret futures
  | (dep, move) :: rest =>
      f ← call_dep (send dep move);
      send_moves send rest (futures ++ [f])
  end.

(** The loop [for f in futures: f.result()]. *)
Fixpoint wait_all (futures : list (call Q)) : M St unit :=
  match futures with
  | [] => mret tt
  | f :: rest => _ ← fresult f; wait_all rest
  end.

Definition _doMoveRel (shift : dict Q) : M St unit :=
  self ← get_self;
  cmv ← lift (_moveTodepMove self shift []);
  futures ← send_moves MoveRel cmv [];
  wait_all futures.

Definition _doMoveAbs (pos : dict Q) : M St unit :=
  self ← get_self;
  cmv ← lift (_moveTodepMove self pos []);
  futures ← send_moves MoveAbs cmv [];
  wait_all futures.
End Methods.

End MultiplexMoves.

(** ** CombinedFixedPositionActuator: the move body *)

Module CombinedFixedMoves.
Local Open Scope Q_scope.
Import CombinedFixedPositionActuator.

(** The fields of [CombinedFixedPositionActuator.t] and whether
    [_updatePosition] is subscribed to the positions of the dependencies. *)
Record obj : Type := mk_obj {
  fields : t;
  subscribed : bool
}.

Definition set_subscribed (b : bool) (o : obj) : obj := mk_obj (fields o) b.

(** [zip] of three sequences stops with the shortest. *)
Fixpoint zip3 {A B C} (la : list A) (lb : list B) (lc : list C) : list (A * B * C) :=
  match la, lb, lc with
  | a :: la, b :: lb, c :: lc => (a, b, c) :: zip3 la lb lc
  | _, _, _ => []
  end.

Section Methods.
Context {W : Type} {D : Driver Q W}.
Abbreviation St := (sys Q string W obj).

(** A method that only uses the fields of [CombinedFixedPositionActuator.t]. *)
Definition on_fields {A} (m : M (sys Q string W t) A) : M St A := fun s =>
  let r := m (mk_sys (world s) (trace s) (queue s) (fields (this s))) in
  (fst r, mk_sys (world (snd r)) (trace (snd r)) (queue (snd r))
            (mk_obj (this (snd r)) (subscribed (this s)))).

(** The loop [for dep, ac, cp in zip(...): f = dep.moveAbs({ac: cp});
    futures_dependencies.append(f)]. *)
Fixpoint send_targets (l : list (string * string * Q)) (futures : list (call Q))
    : M St (list (call Q)) :=
  match l with
  | [] => mret futures
  | (dep, ac, cp) :: rest =>
      f ← issue (MoveAbs dep [(ac, cp)]);
      send_targets rest (futures ++ [f])
  end.

(** The loop that waits for every future and collects what they raise. *)
Fixpoint wait_collect (futures : list (call Q)) (exceptions : list exn)
    : M St (list exn) :=
  match futures with
  | [] => mret exceptions
  | f :: rest =>
      exceptions ← try_except (_ ← fresult f; mret exceptions)
                              (fun ex => mret (exceptions ++ [ex]));
      wait_collect rest exceptions
  end.

Definition _doMoveAbs (pos : dict string) : M St unit :=
  o ← get_self;
  key ← lift (getitem pos (_axis_name (fields o)));
  _pos ← lift (getitem (_positions (fields o)) key);
  try_finally
    (o ← get_self;
     _ ← put_self (set_subscribed false o);
     futures ← send_targets
                 (zip3 (_dependencies (fields o)) (_caxes_map (fields o)) _pos) [];
     exceptions ← wait_collect futures [];
     _ ← on_fields _updatePosition;
     match exceptions with
     | [] => mret tt
     | ex :: _ => raise ex
     end)
    (o ← get_self; put_self (set_subscribed true o)).
End Methods.

End CombinedFixedMoves.

(** ** AntiBacklashActuator: the absolute move *)

Module BacklashMoves.
Local Open Scope Q_scope.
Import AntiBacklashActuator.

Section Methods.
Context {W : Type} {D : Driver Q W}.
Abbreviation St := (sys Q Q W t).

(** The loop of [_doMoveAbs] that subtracts the backlash; [self.position] is
    the position VA of the dependency. *)
Fixpoint plan_pos (items : dict Q) (sub_pos : dict Q) : M St (dict Q) :=
  match items with
  | [] => mret sub_pos
  | (a, v) :: rest =>
      self ← get_self;
      match _backlash self !! a with
      | None => plan_pos rest (dict_set a v sub_pos)
      | Some b =>
          cur ← dep_position dep;
          p ← lift (getitem cur a);
          let shift := v - p in
          if Qlt_le_dec (shift * b) 0 then
            _ ← put_self (set_shifted a true self);
            plan_pos rest (dict_set a (v - b) sub_pos)
          else
            _ ← put_self (set_shifted a false self);
            plan_pos rest (dict_set a v sub_pos)
      end
  end.

(** [_doMoveAbs]; [axes_order] is the order in which the set
    [set(pos.keys())] is iterated by [_antiBacklashMove]. *)
Definition _doMoveAbs (pos : dict Q) (axes_order : list string) : M St unit :=
  sub_pos ← plan_pos pos [];
  let axes : gset string := list_to_set (dict_keys pos) in
  self ← get_self;
  go_on ← (if negb (any_shifted self)
           then f ← issue (MoveAbsSync dep sub_pos); _ ← fresult f; mret true
           else f ← issue (MoveAbs dep sub_pos); wait_update axes f);
  if go_on : bool then _antiBacklashMove axes_order else mret tt.
End Methods.

End BacklashMoves.

(** ** ConvertStage: the position update *)

Module ConvertMoves.
Local Open Scope R_scope.
Import ConvertStage.

Definition set_position (pos : dict R) (self : t) : t :=
  mk (md_pos_cor self) (md_rotation_cor self) (md_pixel_size_cor self)
     (_Mtodep self) (_Mfromdep self) (_O self) (_dependency self) (_axes_dep self) pos.

(** [_updatePosition pos_dep]: the component with its position VA
    rewritten from the position of the dependency. *)
Definition _updatePosition (self : t) (pos_dep : dict R) : result t :=
  x ← getitem pos_dep (fst (_axes_dep self));
  y ← getitem pos_dep (snd (_axes_dep self));
  let vpos := _convertPosFromdep self (x, y) true in
  Ok (set_position [("x"%string, fst vpos); ("y"%string, snd vpos)] self).

End ConvertMoves.

(** ** CoupledStage: the referenced state *)

Module CoupledReferenced.

(** The inner loop of [_updateReferenced] for a dependency whose
    [referenced] VA holds [cref]: [ref[a] = ref.get(a, True) and cref[a]] for
    every axis [a] of the stage that [cref] has.  Each turn writes a key of
    its own, so the order in which the set is iterated plays no part. *)
Definition merge_referenced (axes : gset string) (cref ref : gmap string bool)
    : gmap string bool :=
  set_fold (fun a ref =>
              match cref !! a with
              | Some b => <[a := default true (ref !! a) && b]> ref
              | None => ref
              end)
           ref (axes ∩ dom cref).

(** [_updateReferenced]: the value written to the [referenced] VA;
    [dependencies] holds, for each dependency, the value of its [referenced]
    VA, or [None] when it has none. *)
Fixpoint _updateReferenced (axes : gset string)
    (dependencies : list (option (gmap string bool))) (ref : gmap string bool)
    : gmap string bool :=
  match dependencies with
  | [] => ref
  | None :: rest => _updateReferenced axes rest ref
  | Some cref :: rest => _updateReferenced axes rest (merge_referenced axes cref ref)
  end.

End CoupledReferenced.

(** ** CombinedSensorActuator: the position update *)

Module SensorMoves.
Local Open Scope Q_scope.
Import CombinedSensorActuator.

(** The loop [for ap, sp in self._to_sensor.items(): if sp == spos_axis]. *)
Fixpoint actuator_position (to_sensor : list (Q * Q)) (spos_axis : Q) : option Q :=
  match to_sensor with
  | [] => None
  | (ap, sp) :: rest =>
      if Qeq_bool sp spos_axis then Some ap else actuator_position rest spos_axis
  end.

(** [_updatePosition spos]: the value written to the position VA, [None]
    when the method returns without writing. *)
Definition _updatePosition (self : t) (spos : dict Q) : result (option (dict Q)) :=
  spos_axis ← getitem spos (_axis_sensor self);
  Ok (match actuator_position (_to_sensor self) spos_axis with
      | Some ap => Some [(_axis self, ap)]
      | None => None
      end).

End SensorMoves.

(** ** RotationActuator: construction *)

Module RotationInit.
Local Open Scope Q_scope.
Import RotationActuator.

Section Methods.
Context {W : Type} {D : Driver Q W}.

(** [__init__] through the subscription to the position of the dependency
    (line 1979), which calls [_updatePosition] at once: [dependencies] maps
    the axis of the actuator to the axes of the dependency, [w] is the state
    of the hardware, and the result is the new object with the first value
    of its position VA.  The checks on the type of the dependency hold by
    typing; the part that follows, on the [referenced] VA (lines 1981-1992),
    is not covered. *)
Definition __init__ (dependencies : list (string * dict axis_def)) (axis_name : string)
    (cycle : Q) (ref_start : option Q) (inverted : bool) (w : W)
    : result (t * dict Q) :=
  if inverted then Raise ValueError
  else
    match dependencies with
    | [(axis, dep_axes)] =>
        let ref_start := match ref_start with
                         | None => cycle * (5 # 100)
                         | Some r => r
                         end in
        if negb (Qle_bool 0 cycle) then Raise ValueError
        else if negb (Qle_bool 0 ref_start && Qle_bool ref_start cycle)
        then Raise ValueError
        else
          _ ← getitem dep_axes axis_name;
          let self := mk cycle axis axis_name ref_start 0 0 true in
          pos ← fst (RotationMoves._updatePosition (mk_sys w [] [] self : sys Q Q W t));
          Ok (self, pos)
    | _ => Raise ValueError
    end.
End Methods.

End RotationInit.

(** ** Reference functions for the move bodies *)

Module SpecMoves.
Local Open Scope Q_scope.


(** The two calls of a reference run of the linear actuator. *)
Definition reference_run (o : LinearMoves.obj) : list (call Q) :=
  [MoveAbsSync LinearMoves.dep
     [(LinearActuator._caxis (LinearMoves.fields o),
       LinearMoves._ref_start o + LinearActuator._offset (LinearMoves.fields o))];
   Reference LinearMoves.dep {[ LinearActuator._caxis (LinearMoves.fields o) ]}].

(** The value a grouped move holds for axis [da] of dependency [dep]. *)
Definition dep_lookup (dep da : string) (cmv : dict (dict Q)) : option Q :=
  match dict_get dep cmv with
  | Some move => dict_get da move
  | None => None
  end.

(** The outcome of waiting in turn for the futures of [calls]: the first
    failure, if any, and the state of the hardware then. *)
Fixpoint first_failure {W : Type} {D : Driver Q W} (calls : list (call Q)) (w : W)
    : option exn * W :=
  match calls with
  | [] => (None, w)
  | c :: rest =>
      match await c w with
      | (Some e, w1) => (Some e, w1)
      | (None, w1) => first_failure rest w1
      end
  end.

(** The outcome of waiting for the futures of all of [calls], whether they
    fail or not: the failures in order, and the state of the hardware at the
    end. *)
Fixpoint all_failures {W : Type} {D : Driver Q W} (calls : list (call Q)) (w : W)
    : list exn * W :=
  match calls with
  | [] => ([], w)
  | c :: rest =>
      let r := all_failures rest (snd (await c w)) in
      (match fst (await c w) with Some e => e :: fst r | None => fst r end, snd r)
  end.

(** The absolute position sent for axis [a] asked to go to [v] while the
    dependency stands at [cur]: short of [v] by the backlash when the move
    goes against the backlash. *)
Definition planned_pos_value (self : AntiBacklashActuator.t) (cur : dict Q)
    (a : string) (v : Q) : Q :=
  match AntiBacklashActuator._backlash self !! a, dict_get a cur with
  | Some b, Some p => if Qlt_le_dec ((v - p) * b) 0 then v - b else v
  | _, _ => v
  end.

Definition planned_pos (self : AntiBacklashActuator.t) (cur : dict Q) (pos : dict Q)
    : dict Q :=
  map (fun av => (fst av, planned_pos_value self cur (fst av) (snd av))) pos.

(** The axis [__init__] defines for axis [an] of the dependency. *)
Definition restricted (backlash : gmap string Q) (an : string) (ax : axis_def)
    : axis_def :=
  match backlash !! an, range ax with
  | Some b, Some rng =>
      if Qlt_le_dec 0 b then mk_axis (Some (fst rng + b, snd rng)) true
      else mk_axis (Some (fst rng, snd rng + b)) true
  | _, _ => mk_axis (range ax) true
  end.

(** What the dependencies say about axis [a]: one entry for each
    dependency whose [referenced] VA has the axis. *)
Definition reports (a : string) (dependencies : list (option (gmap string bool)))
    : list bool :=
  flat_map (fun c => match c with
                     | Some cref => match cref !! a with Some b => [b] | None => [] end
                     | None => []
                     end) dependencies.

End SpecMoves.

(** ** Configurations used to instantiate the properties of the move bodies *)

Module MoveScenarios.


(** A linear axis "z" over the axis "x" of its dependency, with an offset of
    2, referenced every third move. *)
Definition rail (move_num : nat) : LinearMoves.obj :=
  LinearMoves.mk_obj (LinearActuator.mk "z" "x" 2%Q move_num) (1 # 2)%Q (Some 3%nat).

(** Three axes over two dependencies: "x" and "y" on the stage, "z" on the
    focus. *)
Definition xyz : MultiplexActuator.t :=
  MultiplexActuator.mk
    (<["x" := ("stage", "a")]> (<["y" := ("stage", "b")]> (<["z" := ("focus", "z")]> ∅)))
    true.

(** Dependencies of which the one with role "focus" fails every move with
    [IOError]. *)
Definition failing_focus : Driver Q unit :=
  {| position := fun _ _ => [];
     await := fun c w =>
       match c with
       | MoveAbs "focus" _ | MoveRel "focus" _ => (Some IOError, w)
       | _ => (None, w)
       end;
     watch := fun _ w => (mk_run [] None None, w) |}.

(** Dependencies that accept every call. *)
Definition never_refuses {num W : Type} : Refusals num W := fun _ _ => None.

(** Dependencies of which the one with role "focus" refuses every move at
    once with [NotImplementedError]. *)
Definition focus_refuses : Refusals Q unit := fun c _ =>
  match c with
  | MoveAbs "focus" _ | MoveRel "focus" _ => Some NotImplementedError
  | _ => None
  end.

(** Two axes over a single dependency: no executor. *)
Definition single : MultiplexActuator.t :=
  MultiplexActuator.mk (<["x" := ("stage", "a")]> (<["y" := ("stage", "b")]> ∅)) false.

(** Dependencies that reach the position every absolute move asks for: the
    state of the hardware maps a role to the position of its axes. *)
Definition obedient : Driver Q (dict (dict Q)) :=
  {| position := fun dep w => match dict_get dep w with Some p => p | None => [] end;
     await := fun c w =>
       match c with
       | MoveAbs dep pos => (None, dict_set dep pos w)
       | _ => (None, w)
       end;
     watch := fun _ w => (mk_run [] None None, w) |}.

(** A dependency that stands at [p] on axis [axis] and accepts every
    move. *)
Definition standing_at (axis : string) (p : Q) : Driver Q unit :=
  {| position := fun _ _ => [(axis, p)];
     await := fun _ w => (None, w);
     watch := fun _ w => (mk_run [] None None, w) |}.


End MoveScenarios.

(** * Properties *)

Set Warnings "-clear-no-such-hyp".

Module PyFloatFacts.
Local Open Scope Q_scope.
Import PyFloat.

Lemma fmod_nonzero x c : ~ c == 0 -> fmod x c = Ok (fmod_val x c).
Proof.
  intros Hc. unfold fmod.
  destruct (Qeq_bool c 0) eqn:E; [|reflexivity].
  apply Qeq_bool_iff in E. contradiction.
Qed.

Lemma floor_bounds (x c : Q) :
  0 < c ->
  c * inject_Z (Qfloor (x / c)) <= x /\ x < c * inject_Z (Qfloor (x / c)) + c.
Proof.
  intros Hc.
  assert (Hx : c * (x / c) == x) by (apply Qmult_div_r; lraQ).
  pose proof (Qfloor_le (x / c)) as Hlo.
  pose proof (Qlt_floor (x / c)) as Hhi.
  rewrite inject_Z_plus in Hhi. change (inject_Z 1) with 1 in Hhi.
  set (k := inject_Z (Qfloor (x / c))) in *.
  assert (H1 : c * k <= c * (x / c)) by (apply Qmult_le_l; assumption).
  assert (H2 : c * (x / c) < c * (k + 1)) by (apply Qmult_lt_l; assumption).
  rewrite Hx in H1, H2. split; lraQ.
Qed.

(** For a positive divisor the float modulo lands in [[0, c)]. *)
Lemma fmod_val_range x c : 0 < c -> 0 <= fmod_val x c /\ fmod_val x c < c.
Proof.
  intros Hc. unfold fmod_val.
  destruct (floor_bounds x c Hc) as [Hlo Hhi]. split; lraQ.
Qed.

(** The two directions add up to nothing or to one full divisor. *)
Lemma fmod_val_opp_sum x c :
  0 < c ->
  fmod_val x c + fmod_val (- x) c == 0 \/ fmod_val x c + fmod_val (- x) c == c.
Proof.
  intros Hc. unfold fmod_val.
  destruct (floor_bounds x c Hc) as [Hlo Hhi].
  destruct (floor_bounds (- x) c Hc) as [Hlo' Hhi'].
  set (k1 := Qfloor (x / c)) in *. set (k2 := Qfloor (- x / c)) in *.
  assert (Hs : c * inject_Z (k1 + k2) <= 0 /\ 0 < c * inject_Z (k1 + k2 + 2)).
  { rewrite !inject_Z_plus. change (inject_Z 2) with 2. split; lraQ. }
  destruct Hs as [Hs1 Hs2].
  assert (Hk : (k1 + k2 <= 0)%Z).
  { destruct (Z_le_gt_dec (k1 + k2) 0) as [|Hgt]; [assumption|exfalso].
    assert (1 <= inject_Z (k1 + k2)) by (change 1 with (inject_Z 1); rewrite <- Zle_Qle; lia).
    assert (c * 1 <= c * inject_Z (k1 + k2)) by (apply Qmult_le_l; assumption).
    lraQ. }
  assert (Hk' : (-1 <= k1 + k2)%Z).
  { destruct (Z_le_gt_dec (-1) (k1 + k2)) as [|Hgt]; [assumption|exfalso].
    assert (inject_Z (k1 + k2 + 2) <= 0) by (change 0 with (inject_Z 0); rewrite <- Zle_Qle; lia).
    assert (c * inject_Z (k1 + k2 + 2) <= c * 0) by (apply Qmult_le_l; assumption).
    lraQ. }
  assert (Hcase : (k1 + k2 = 0 \/ k1 + k2 = -1)%Z) by lia.
  destruct Hcase as [E|E]; [left|right].
  - assert (H : c * (inject_Z k1 + inject_Z k2) == c * 0)
      by (rewrite <- inject_Z_plus, E; reflexivity).
    lraQ.
  - assert (H : c * (inject_Z k1 + inject_Z k2) == c * (-1))
      by (rewrite <- inject_Z_plus, E; reflexivity).
    lraQ.
Qed.

End PyFloatFacts.

Module RotationFacts.
Local Open Scope Q_scope.
Import PyFloat PyFloatFacts RotationActuator Scenarios.

Lemma fmod_val_comp x y c : x == y -> fmod_val x c == fmod_val y c.
Proof.
  intros E. unfold fmod_val.
  assert (Hq : x / c == y / c) by (rewrite E; reflexivity).
  rewrite (Qfloor_comp _ _ Hq), E. reflexivity.
Qed.

(** What [_findShortestMove] returns for a positive cycle. *)
Lemma findShortestMove_value self cur target :
  0 < _cycle self ->
  _findShortestMove self cur target =
    Ok (let mod1 := fmod_val (target - cur) (_cycle self) in
        let mod2 := fmod_val (- (target - cur)) (_cycle self) in
        if Qlt_le_dec mod1 mod2 then mod1 else - mod2, cur).
Proof.
  intros Hc. unfold _findShortestMove.
  rewrite !fmod_nonzero by lraQ. cbn.
  destruct (Qlt_le_dec _ _); reflexivity.
Qed.

(** C2, the concrete part as the description words it, fails: from 0.1 to 6.2 on a
    cycle of [2 * pi] the returned move is further than 0.1 away from -0.083. *)
Lemma findShortestMove_scenario_not_0083 :
  exists m, _findShortestMove rot_2pi (1 # 10) (62 # 10) = Ok (m, 1 # 10) /\
            ~ Qabs (m - - (83 # 1000)) <= 1 # 10.
Proof.
  eexists. split; [vm_compute; reflexivity|].
  vm_compute. intros H. apply H. reflexivity.
Qed.

(** C2 (amended): for a positive cycle [_findShortestMove] returns the signed
    shorter of the two modulo distances, of magnitude at most half a cycle;
    from 0.1 to 6.2 on a cycle of [2 * pi] the move is negative, about -0.183
    (that is [6.1 - 2 * pi]), not the positive alternative 6.1. *)
Theorem findShortestMove_shortest self cur target :
  0 < _cycle self ->
  let c := _cycle self in
  let mod1 := fmod_val (target - cur) c in
  let mod2 := fmod_val (cur - target) c in
  (exists m, _findShortestMove self cur target = Ok (m, cur) /\
             m == (if Qlt_le_dec mod1 mod2 then mod1 else - mod2) /\
             Qabs m == Qmin mod1 mod2 /\
             Qabs m <= c / 2) /\
  (exists m, _findShortestMove rot_2pi (1 # 10) (62 # 10) = Ok (m, 1 # 10) /\
             m == (61 # 10) - two_pi /\
             m < 0 /\ - (184 # 1000) < m /\ m < - (183 # 1000) /\
             Qabs m < 61 # 10).
Proof.
  intros Hc c mod1 mod2. split.
  - eexists. split; [apply findShortestMove_value; exact Hc|].
    cbv zeta. fold c.
    assert (E2 : fmod_val (- (target - cur)) c == mod2)
      by (apply fmod_val_comp; ring).
    fold mod1.
    destruct (fmod_val_range (target - cur) c Hc) as [H1a H1b].
    destruct (fmod_val_range (cur - target) c Hc) as [H2a H2b].
    fold mod1 in H1a, H1b. fold mod2 in H2a, H2b.
    pose proof (fmod_val_opp_sum (target - cur) c Hc) as Hsum.
    fold mod1 in Hsum. rewrite E2 in Hsum.
    assert (Hhalf : c / 2 == c * (1 # 2)) by (field).
    set (m2 := fmod_val (- (target - cur)) c) in *.
    destruct (Qlt_le_dec mod1 m2) as [Hlt|Hge];
      destruct (Qlt_le_dec mod1 mod2) as [Hlt'|Hge']; try lraQ.
    + split; [reflexivity|].
      rewrite (Qabs_pos mod1) by assumption.
      rewrite (Q.min_l mod1 mod2) by lraQ.
      split; [reflexivity|]. rewrite Hhalf. destruct Hsum; lraQ.
    + split; [lraQ|].
      rewrite Qabs_opp, (Qabs_pos m2) by lraQ.
      rewrite (Q.min_r mod1 mod2) by lraQ.
      split; [lraQ|]. rewrite Hhalf. destruct Hsum; lraQ.
  - eexists. split; [vm_compute; reflexivity|].
    vm_compute. repeat split; intros; discriminate.
Qed.

Lemma findShortestMove_shortest_witness :
  exists m, _findShortestMove rot_2pi (1 # 10) (62 # 10) = Ok (m, 1 # 10) /\
            Qabs m <= two_pi / 2.
Proof.
  destruct (findShortestMove_shortest rot_2pi (1 # 10) (62 # 10)) as [[m (E & _ & _ & Hm)] _].
  - reflexivity.
  - exists m. split; assumption.
Defined.

End RotationFacts.

Module ConvertFacts.
Local Open Scope R_scope.
Import ConvertStage Scenarios.

Lemma cos2_sin2 (r : R) : cos r * cos r + sin r * sin r = 1.
Proof. pose proof (sin2_cos2 r) as H. unfold Rsqr in H. lraR. Qed.

(** Closes [lhs = v] when [lhs] is [v] plus a multiple [k] of
    [cos r ^ 2 + sin r ^ 2 - 1]. *)
Ltac by_unit_circle r v k :=
  transitivity (v + (cos r * cos r + sin r * sin r - 1) * k);
  [ field; auto | rewrite (cos2_sin2 r); ring ].

(** C3: once [_updateConversion] has run, for a scale without zero component
    the conversions to and from the dependency are inverse of each other,
    with the translation and without it. *)
Theorem convert_roundtrip (self : t) (p : vec) (absolute : bool) :
  fst (md_pixel_size_cor self) <> 0 ->
  snd (md_pixel_size_cor self) <> 0 ->
  let cs := _updateConversion self in
  _convertPosTodep cs (_convertPosFromdep cs p absolute) absolute = p /\
  _convertPosFromdep cs (_convertPosTodep cs p absolute) absolute = p.
Proof.
  intros Hx Hy cs. subst cs.
  destruct self as [[ox oy] r [sx sy] mt mf o d a pv], p as [x y].
  cbn in Hx, Hy.
  unfold _convertPosTodep, _convertPosFromdep, _updateConversion, dot.
  rewrite cos_neg, sin_neg.
  pose proof (cos2_sin2 r) as Hcs.
  destruct absolute; cbn [fst snd md_pos_cor md_rotation_cor md_pixel_size_cor
                          _Mtodep _Mfromdep _O]; split; f_equal.
  all: match goal with
       | |- _ = ?v =>
           first [ by_unit_circle r v x | by_unit_circle r v y
                 | by_unit_circle r v (x + ox) | by_unit_circle r v (y + oy) ]
       end.
Qed.

Lemma convert_roundtrip_witness :
  _convertPosTodep stage_2_3 (_convertPosFromdep stage_2_3 (1, 2) true) true = (1, 2) /\
  _convertPosFromdep stage_2_3 (_convertPosTodep stage_2_3 (1, 2) false) false = (1, 2).
Proof.
  split.
  - apply (convert_roundtrip stage_2_3 (1, 2) true); cbn; lraR.
  - apply (convert_roundtrip stage_2_3 (1, 2) false); cbn; lraR.
Defined.

End ConvertFacts.

(** ** [stop] of the single-axis wrappers *)

Section StopFacts.
Context {W : Type} {D : Driver Q W}.
Context {BR : ActuatorBase Q RotationActuator.t}.
Context {BF : ActuatorBase Q FixedPositionsActuator.t}.

(** C7 (the code departs from it): whatever set of axes [stop] is given, the
    one forwarded to the dependency is the empty set, never the axis of the
    dependency, because the argument is overwritten by a fresh set before
    the exposed axis is looked up in it; [FixedPositionsActuator.stop] does
    not cancel the queue either, while [RotationActuator.stop] does. *)
Theorem stop_forwards_empty_set (axes : gset string)
    (sr : sys Q Q W RotationActuator.t) (sf : sys Q Q W FixedPositionsActuator.t) :
  trace (snd (RotationActuator.stop (Some axes) sr)) =
    trace sr ++ [Stop RotationActuator.dep (Some ∅)] /\
  queue (snd (RotationActuator.stop (Some axes) sr)) =
    (if RotationActuator._executor (this sr) then [] else queue sr) /\
  trace (snd (FixedPositionsActuator.stop (Some axes) sf)) =
    trace sf ++ [Stop FixedPositionsActuator.dep (Some ∅)] /\
  queue (snd (FixedPositionsActuator.stop (Some axes) sf)) = queue sf.
Proof.
  unfold RotationActuator.stop, FixedPositionsActuator.stop.
  unfold mbind, M_bind, get_self, cancel, issue, fresult, mret, M_ret. cbn.
  destruct (RotationActuator._executor (this sr)); cbn;
    destruct (await _ (world sr)) as [[e|] w]; cbn;
    destruct (await _ (world sf)) as [[e'|] w']; cbn; auto.
Qed.

End StopFacts.

(** ** Relative moves on the discrete actuators *)

Section DiscreteFacts.
Context {W : Type} {D : Driver Q W}.
Context {BF : ActuatorBase Q FixedPositionsActuator.t}.
Context {BC : ActuatorBase string CombinedFixedPositionActuator.t}.

(** C9: for a non-empty shift that the check of the base class accepts,
    [moveRel] of both discrete actuators raises [NotImplementedError] at
    once: nothing is queued and no dependency is called. *)
Theorem moveRel_discrete_not_implemented
    (shift : dict Q) (names : dict string)
    (sf : sys Q Q W FixedPositionsActuator.t)
    (sc : sys Q string W CombinedFixedPositionActuator.t) :
  shift <> [] -> names <> [] ->
  _checkMoveRel (this sf) shift = Ok tt ->
  FixedPositionsActuator.moveRel shift sf = (Raise NotImplementedError, sf) /\
  CombinedFixedPositionActuator.moveRel names sc = (Raise NotImplementedError, sc).
Proof.
  intros Hs Hn Hok. split.
  - destruct shift as [|kv shift]; [congruence|].
    unfold FixedPositionsActuator.moveRel.
    unfold mbind, M_bind, get_self, lift, raise. cbn. rewrite Hok. reflexivity.
  - destruct names as [|kv names]; [congruence|]. reflexivity.
Qed.

End DiscreteFacts.

Lemma moveRel_discrete_not_implemented_witness :
  let sf := mk_sys tt [] [] (FixedPositionsActuator.mk "fw" "x" None 0) in
  let sc := mk_sys tt [] []
              (CombinedFixedPositionActuator.mk "pol" [] [] [] "unknown" [] [] []) in
  FixedPositionsActuator.moveRel (B := Scenarios.lenient_base) [("fw", 1%Q)] sf
    = (Raise NotImplementedError, sf) /\
  CombinedFixedPositionActuator.moveRel (W := unit) [("pol", "A")] sc
    = (Raise NotImplementedError, sc).
Proof.
  intros sf sc.
  apply (moveRel_discrete_not_implemented (BF := Scenarios.lenient_base));
    [discriminate | discriminate | reflexivity].
Defined.

(** ** Empty requests *)

Section EmptyRequests.
Context {W WR : Type} {D : Driver Q W} {DR : Driver R WR}.
Context {BM : ActuatorBase Q MultiplexActuator.t}.
Context {BA : ActuatorBase Q AntiBacklashActuator.t}.
Context {BL : ActuatorBase Q LinearActuator.t}.
Context {BF : ActuatorBase Q FixedPositionsActuator.t}.
Context {BS : ActuatorBase Q CombinedSensorActuator.t}.
Context {BC : ActuatorBase string CombinedFixedPositionActuator.t}.
Context {BR : ActuatorBase Q RotationActuator.t}.
Context {BP : ActuatorBase R CoupledStage.t}.

(** C10: [moveRel] and [moveAbs] with an empty mapping return an
    [InstantaneousFuture] and leave queue, trace and fields as they are, on
    the seven wrappers named; [CoupledStage] replaces the empty mapping by a
    zero shift, or by its current position, and goes on to check it and to
    submit the task. *)
Theorem empty_request :
  (forall update (s : sys Q Q W AntiBacklashActuator.t), AntiBacklashActuator.moveRel [] update s = (Ok InstantaneousFuture, s)) /\
  (forall update (s : sys Q Q W AntiBacklashActuator.t), AntiBacklashActuator.moveAbs [] update s = (Ok InstantaneousFuture, s)) /\
  (forall s : sys Q Q W MultiplexActuator.t, MultiplexActuator.moveRel [] s = (Ok InstantaneousFuture, s)) /\
  (forall s : sys Q Q W MultiplexActuator.t, MultiplexActuator.moveAbs [] s = (Ok InstantaneousFuture, s)) /\
  (forall s : sys Q Q W LinearActuator.t, LinearActuator.moveRel [] s = (Ok InstantaneousFuture, s)) /\
  (forall s : sys Q Q W LinearActuator.t, LinearActuator.moveAbs [] s = (Ok InstantaneousFuture, s)) /\
  (forall s : sys Q Q W FixedPositionsActuator.t, FixedPositionsActuator.moveRel [] s = (Ok InstantaneousFuture, s)) /\
  (forall s : sys Q Q W FixedPositionsActuator.t, FixedPositionsActuator.moveAbs [] s = (Ok InstantaneousFuture, s)) /\
  (forall s : sys Q Q W CombinedSensorActuator.t, CombinedSensorActuator.moveRel [] s = (Ok InstantaneousFuture, s)) /\
  (forall s : sys Q Q W CombinedSensorActuator.t, CombinedSensorActuator.moveAbs [] s = (Ok InstantaneousFuture, s)) /\
  (forall s : sys Q string W CombinedFixedPositionActuator.t,
     CombinedFixedPositionActuator.moveRel [] s
             = (Ok InstantaneousFuture, s)) /\
  (forall s : sys Q string W CombinedFixedPositionActuator.t,
     CombinedFixedPositionActuator.moveAbs [] s
             = (Ok InstantaneousFuture, s)) /\
  (forall s : sys Q Q W RotationActuator.t, RotationActuator.moveRel [] s = (Ok InstantaneousFuture, s)) /\
  (forall s : sys Q Q W RotationActuator.t, RotationActuator.moveAbs [] s = (Ok InstantaneousFuture, s)) /\
  (forall s : sys R R WR CoupledStage.t,
     let zero := [("x"%string, 0%R); ("y"%string, 0%R)] in
             CoupledStage.moveRel [] s =
               Spec.coupled_submits DoMoveRel (_checkMoveRel (this s) zero) zero s) /\
  (forall s : sys R R WR CoupledStage.t,
     let cur := CoupledStage.position_value (this s) in
             CoupledStage.moveAbs [] s =
               Spec.coupled_submits DoMoveAbs (_checkMoveAbs (this s) cur) cur s).
Proof.
  repeat split; reflexivity.
Qed.

End EmptyRequests.

(** ** Dictionaries *)

Section DictFacts.
Context {A : Type}.

Lemma dict_keys_set (k : string) (v : A) (d : dict A) :
  (list_to_set (dict_keys (dict_set k v d)) : gset string) =
  {[ k ]} ∪ list_to_set (dict_keys d).
Proof.
  induction d as [|[k' v'] d IH]; cbn.
  - set_solver.
  - destruct (String.eqb_spec k k') as [->|Hne]; cbn.
    + set_solver.
    + unfold dict_keys in IH. rewrite IH. set_solver.
Qed.

Lemma dict_get_set_eq (k : string) (v : A) (d : dict A) :
  dict_get k (dict_set k v d) = Some v.
Proof.
  induction d as [|[k' v'] d IH]; cbn.
  - rewrite String.eqb_refl. reflexivity.
  - destruct (String.eqb_spec k k') as [->|Hne]; cbn.
    + rewrite String.eqb_refl. reflexivity.
    + destruct (String.eqb_spec k k'); [contradiction|exact IH].
Qed.

Lemma dict_get_set_ne (k k' : string) (v : A) (d : dict A) :
  k <> k' -> dict_get k' (dict_set k v d) = dict_get k' d.
Proof.
  intros Hne. induction d as [|[k0 v0] d IH]; cbn.
  - destruct (String.eqb_spec k' k); [congruence|reflexivity].
  - destruct (String.eqb_spec k k0) as [->|Hne0]; cbn.
    + destruct (String.eqb_spec k' k0); [congruence|reflexivity].
    + destruct (String.eqb_spec k' k0); [reflexivity|exact IH].
Qed.

End DictFacts.

(** ** Construction of the anti-backlash wrapper *)

Module BacklashInitFacts.
Local Open Scope Q_scope.
Import AntiBacklashActuator.

(** One axis whose range is shorter than its backlash makes the loop over
    the axes raise, wherever the axis comes in the loop. *)
Lemma init_axes_raises backlash dep_axes an ax lo hi b :
  In (an, ax) dep_axes ->
  range ax = Some (lo, hi) ->
  backlash !! an = Some b ->
  hi - lo < Qabs b ->
  forall axes_def, init_axes backlash dep_axes axes_def = Raise ValueError.
Proof.
  intros Hin Hrng Hb Hlt.
  induction dep_axes as [|[an' ax'] rest IH]; [destruct Hin|].
  intros axes_def. cbn [init_axes].
  destruct Hin as [E|Hin].
  - inversion E; subst an' ax'. rewrite Hb, Hrng. cbn [fst snd].
    destruct (Qlt_le_dec (hi - lo) (Qabs b)); [reflexivity|lraQ].
  - specialize (IH Hin).
    destruct (backlash !! an') as [b'|]; [|apply IH].
    destruct (range ax') as [rng|]; [|apply IH].
    destruct (Qlt_le_dec _ _); [reflexivity|].
    destruct (Qlt_le_dec 0 b'); apply IH.
Qed.

(** When no axis is shorter than its backlash the loop goes through, and the
    axes it defines are those of the dependency. *)
Lemma init_axes_passes backlash dep_axes :
  (forall an ax lo hi b,
     In (an, ax) dep_axes -> range ax = Some (lo, hi) ->
     backlash !! an = Some b -> Qabs b <= hi - lo) ->
  forall axes_def, exists r,
    init_axes backlash dep_axes axes_def = Ok r /\
    (list_to_set (dict_keys r) : gset string) =
      list_to_set (dict_keys axes_def) ∪ list_to_set (dict_keys dep_axes).
Proof.
  induction dep_axes as [|[an ax] rest IH]; intros Hall axes_def.
  - exists axes_def. split; [reflexivity|]. cbn. set_solver.
  - assert (Hrest : forall an ax lo hi b,
               In (an, ax) rest -> range ax = Some (lo, hi) ->
               backlash !! an = Some b -> Qabs b <= hi - lo)
      by (intros; eapply Hall; eauto; right; assumption).
    specialize (IH Hrest). cbn [init_axes].
    assert (Hkeys : forall (v : axis_def) (r : dict axis_def),
               (list_to_set (dict_keys r) : gset string) =
                 list_to_set (dict_keys (dict_set an v axes_def)) ∪
                 list_to_set (dict_keys rest) ->
               (list_to_set (dict_keys r) : gset string) =
                 list_to_set (dict_keys axes_def) ∪
                 list_to_set (dict_keys ((an, ax) :: rest))).
    { intros v r ->. rewrite dict_keys_set. cbn. set_solver. }
    destruct (backlash !! an) as [b|] eqn:Hb;
      [destruct (range ax) as [[lo hi]|] eqn:Hrng|].
    + cbn [fst snd].
      destruct (Qlt_le_dec (hi - lo) (Qabs b)) as [Hlt|_].
      { pose proof (Hall an ax lo hi b (or_introl eq_refl) Hrng Hb). lraQ. }
      destruct (Qlt_le_dec 0 b);
        match goal with
        | |- context [init_axes _ _ ?acc] =>
            destruct (IH acc) as (r & -> & Hr); exists r; split; [reflexivity|];
            eapply Hkeys; exact Hr
        end.
    + destruct (IH (dict_set an (mk_axis None true) axes_def)) as (r & -> & Hr).
      exists r. split; [reflexivity|]. eapply Hkeys; exact Hr.
    + destruct (IH (dict_set an (mk_axis (range ax) true) axes_def)) as (r & -> & Hr).
      exists r. split; [reflexivity|]. eapply Hkeys; exact Hr.
Qed.

(** C8 as worded fails where the backlash equals the span of the range: an
    axis ranging over [0, 1] with a backlash of 1 is accepted. *)
Lemma init_accepts_backlash_equal_to_span :
  Qabs 1 >= 1 - 0 /\
  exists self,
    __init__ [("stage"%string, [("x"%string, mk_axis (Some (0, 1)) false)])]
             {[ "x"%string := 1 ]} = Ok self.
Proof.
  split; [vm_compute; discriminate|].
  eexists. vm_compute. reflexivity.
Qed.

(** C8 (amended): construction raises [ValueError] as soon as one axis with
    a backlash and a range has a backlash strictly larger in magnitude than
    the span of the range; when every such axis has a magnitude at most the
    span, the loop of checks passes, and construction succeeds if the
    backlash names axes of the dependency only. *)
Theorem init_backlash_range_check role dep_axes backlash :
  (forall an ax lo hi b,
     In (an, ax) dep_axes -> range ax = Some (lo, hi) ->
     backlash !! an = Some b -> hi - lo < Qabs b ->
     __init__ [(role, dep_axes)] backlash = Raise ValueError) /\
  ((forall an ax lo hi b,
      In (an, ax) dep_axes -> range ax = Some (lo, hi) ->
      backlash !! an = Some b -> Qabs b <= hi - lo) ->
   (exists axes_def, init_axes backlash dep_axes [] = Ok axes_def) /\
   (dom backlash ⊆ list_to_set (dict_keys dep_axes) ->
    exists self, __init__ [(role, dep_axes)] backlash = Ok self)).
Proof.
  split.
  - intros an ax lo hi b Hin Hrng Hb Hlt. unfold __init__.
    rewrite (init_axes_raises backlash dep_axes an ax lo hi b) by assumption.
    reflexivity.
  - intros Hall.
    destruct (init_axes_passes backlash dep_axes Hall []) as (r & Hr & Hkeys).
    split; [exists r; exact Hr|].
    intros Hdom. unfold __init__. rewrite Hr. cbn.
    rewrite bool_decide_true; [eexists; reflexivity|].
    rewrite Hkeys. cbn. set_solver.
Qed.

Lemma init_backlash_range_check_witness :
  let dep_axes := [("x"%string, mk_axis (Some (0, 10)) false)] in
  __init__ [("stage"%string, dep_axes)] {[ "x"%string := 11 ]} = Raise ValueError /\
  exists self, __init__ [("stage"%string, dep_axes)] {[ "x"%string := - (1) ]} = Ok self.
Proof.
  intros dep_axes. split.
  - apply (proj1 (init_backlash_range_check "stage" dep_axes {[ "x"%string := 11 ]})
             "x"%string (mk_axis (Some (0, 10)) false) 0 10 11).
    + left. reflexivity.
    + reflexivity.
    + reflexivity.
    + reflexivity.
  - apply (proj2 (init_backlash_range_check "stage" dep_axes {[ "x"%string := - (1) ]})).
    + intros an ax lo hi b [E|[]] Hrng Hb. inversion E; subst an ax.
      cbn in Hrng. inversion Hrng; subst lo hi.
      vm_compute in Hb. inversion Hb; subst b. vm_compute. discriminate.
    + vm_compute. intros x Hx. exact Hx.
Defined.

End BacklashInitFacts.

(** ** Position reported by the combined fixed-position actuator *)

Module CombinedFixedFacts.
Local Open Scope Q_scope.
Import PyFloat PyFloatFacts CombinedFixedPositionActuator Spec Scenarios.

Lemma axis_dist_value cp tp cyl :
  cycle_ok cyl -> axis_dist cp tp cyl = Ok (cyclic_dist cp tp cyl).
Proof.
  destruct cyl as [c|]; cbn; [|reflexivity].
  intros Hc. rewrite !fmod_nonzero by assumption. reflexivity.
Qed.

Lemma zip4_cycle_ok (cur tgt atol : list Q) (cycle : list (option Q)) :
  Forall cycle_ok cycle ->
  Forall (fun e => cycle_ok (snd e)) (zip4 cur tgt atol cycle).
Proof.
  intros Hc. revert cur tgt atol.
  induction Hc as [|c cycle Hc Hcs IH]; intros cur tgt atol.
  - destruct cur, tgt, atol; constructor.
  - destruct cur, tgt, atol; cbn; try constructor; [exact Hc|apply IH].
Qed.

(** The inner loop decides whether every axis is within its tolerance. *)
Lemma axes_match_value l :
  Forall (fun e => cycle_ok (snd e)) l ->
  axes_match l =
    Ok (forallb (fun '(cp, tp, atol, cyl) => Qle_bool (cyclic_dist cp tp cyl) atol) l).
Proof.
  induction 1 as [|[[[cp tp] atol] cyl] l Hc Hl IH]; [reflexivity|].
  cbn [axes_match forallb]. cbn in Hc.
  rewrite (axis_dist_value cp tp cyl Hc). cbn.
  destruct (Qlt_le_dec atol (cyclic_dist cp tp cyl)) as [Hlt|Hle].
  - destruct (Qle_bool (cyclic_dist cp tp cyl) atol) eqn:E; [|reflexivity].
    apply Qle_bool_iff in E. lraQ.
  - apply Qle_bool_iff in Hle. rewrite Hle. exact IH.
Qed.

(** The outer loop returns the first entry that matches. *)
Lemma find_position_value self positions cur :
  Forall cycle_ok (_cycle self) ->
  find_position self positions cur =
    match find (fun entry => within_tolerance self cur (snd entry)) positions with
    | Some entry => Ok (fst entry)
    | None => Raise LookupError
    end.
Proof.
  intros Hc. induction positions as [|[key tgt] rest IH]; [reflexivity|].
  cbn [find_position find snd fst].
  rewrite axes_match_value by (apply zip4_cycle_ok; exact Hc). cbn.
  fold (within_tolerance self cur tgt).
  destruct (within_tolerance self cur tgt); [reflexivity|exact IH].
Qed.

Section WithDriver.
Context {W : Type} {D : Driver Q W}.
Abbreviation St := (sys Q string W t).

(** Reading the dependencies only looks at the hardware. *)
Lemma current_positions_reads (deps caxes : list string) :
  exists f : W -> result (list Q),
    forall s : St, current_positions deps caxes s = (f (world s), s).
Proof.
  revert caxes. induction deps as [|c deps IH]; intros caxes.
  - exists (fun _ => Ok []). intros s. reflexivity.
  - destruct caxes as [|ca caxes].
    + exists (fun _ => Ok []). intros s. reflexivity.
    + destruct (IH caxes) as [f Hf].
      exists (fun w => v ← getitem (position c w) ca; vs ← f w; Ok (v :: vs)).
      intros s. cbn [current_positions].
      unfold mbind, M_bind, result_bind, dep_position, lift, mret, M_ret.
      cbv beta iota.
      destruct (getitem (position c (world s)) ca); try reflexivity.
      rewrite Hf. destruct (f (world s)); reflexivity.
Qed.

(** [_updatePosition] when every dependency reports its axis: the position
    VA receives the first matching entry, or the fallback, and nothing else
    changes. *)
Lemma updatePosition_writes (s : St) (cur : list Q) :
  Forall cycle_ok (_cycle (this s)) ->
  current_positions (_dependencies (this s)) (_caxes_map (this s)) s = (Ok cur, s) ->
  _updatePosition s =
    (Ok tt, mk_sys (world s) (trace s) (queue s)
              (set_position [(_axis_name (this s), reported_position (this s) cur)]
                 (this s))).
Proof.
  intros Hc Hcur.
  unfold _updatePosition, _readPositionfromDependencies, try_except.
  unfold mbind, M_bind, get_self, put_self, lift, mret, M_ret. cbv beta iota.
  rewrite Hcur. cbv beta iota.
  rewrite (find_position_value _ _ _ Hc). unfold reported_position.
  destruct (find _ (_positions (this s))) as [entry|]; cbv beta iota; [reflexivity|].
  cbn [is_LookupError this set_position _dependencies _caxes_map].
  destruct (current_positions_reads (_dependencies (this s)) (_caxes_map (this s)))
    as [f Hf].
  rewrite Hf in Hcur |- *. cbn [world] in *.
  inversion Hcur as [Hfw]. rewrite Hfw. reflexivity.
Qed.

End WithDriver.

(** The first entry of a table that satisfies a test. *)
Lemma find_first {A} (f : A -> bool) (before after : list A) (x : A) :
  Forall (fun e => f e = false) before -> f x = true ->
  find f (before ++ x :: after) = Some x.
Proof.
  induction 1 as [|e before He _ IH]; intros Hx; cbn.
  - rewrite Hx. reflexivity.
  - rewrite He. exact (IH Hx).
Qed.

Lemma find_none {A} (f : A -> bool) (l : list A) :
  Forall (fun e => f e = false) l -> find f l = None.
Proof.
  induction 1 as [|e l He _ IH]; cbn; [reflexivity|]. rewrite He. exact IH.
Qed.

(** C6: when each dependency reports its position and no cycle is zero,
    [_updatePosition] returns and writes into the position VA, and into
    nothing else, the key of the first entry of the table whose targets are
    all within tolerance of the current positions, the distance on an axis
    with a cycle being [min ((cp - tp) mod cycle, (tp - cp) mod cycle)] and
    the plain absolute difference otherwise; when no entry is within
    tolerance the VA receives the fallback.  In scenario 4, with both
    dependencies at 0.5 and a tolerance below 0.5 on some axis, the position
    VA reads "unknown". *)
Theorem updatePosition_first_match {W : Type} {D : Driver Q W}
    (s : sys Q string W t) (cur : list Q) :
  Forall cycle_ok (_cycle (this s)) ->
  current_positions (_dependencies (this s)) (_caxes_map (this s)) s = (Ok cur, s) ->
  let self := this s in
  let run := _updatePosition s in
  let self' := this (snd run) in
  let matches target :=
    Forall (fun '(cp, tp, atol, cyl) =>
              match cyl with
              | Some c => Qmin (fmod_val (cp - tp) c) (fmod_val (tp - cp) c) <= atol
              | None => Qabs (cp - tp) <= atol
              end)
      (zip4 cur target (_atol self) (_cycle self)) in
  (fst run = Ok tt /\
   world (snd run) = world s /\ trace (snd run) = trace s /\
   queue (snd run) = queue s /\
   self' = mk (_axis_name self) (_positions self) (_atol self) (_cycle self)
              (_fallback self) (_dependencies self) (_caxes_map self)
              (position_value self')) /\
  position_value self' = [(_axis_name self, reported_position self cur)] /\
  (forall before key target after,
     _positions self = before ++ (key, target) :: after ->
     Forall (fun e => ~ matches (snd e)) before -> matches target ->
     position_value self' = [(_axis_name self, key)]) /\
  (Forall (fun e => ~ matches (snd e)) (_positions self) ->
   position_value self' = [(_axis_name self, _fallback self)]) /\
  (forall atol0 atol1,
     atol0 < 1 # 2 \/ atol1 < 1 # 2 ->
     let run4 := _updatePosition (D := driver_at_half)
                   (mk_sys tt [] [] (pol_AB atol0 atol1)) in
     fst run4 = Ok tt /\
     position_value (this (snd run4)) = [("pol"%string, "unknown"%string)]).
Proof.
  intros Hc Hcur self run self' matches.
  assert (Hm : forall target,
             within_tolerance self cur target = true <-> matches target).
  { intros target. unfold within_tolerance, matches. rewrite forallb_forall.
    rewrite List.Forall_forall. split; intros H [[[cp tp] atol] cyl] Hin.
    - specialize (H _ Hin). cbn in H. apply Qle_bool_iff in H.
      destruct cyl; exact H.
    - specialize (H _ Hin). cbn in H. apply Qle_bool_iff.
      destruct cyl; exact H. }
  assert (Hn : forall l : dict (list Q),
             Forall (fun e => ~ matches (snd e)) l ->
             Forall (fun e => within_tolerance self cur (snd e) = false) l).
  { intros l. apply List.Forall_impl. intros e He.
    destruct (within_tolerance self cur (snd e)) eqn:E; [|reflexivity].
    exfalso. apply He, Hm. exact E. }
  pose proof (updatePosition_writes s cur Hc Hcur) as Hrun. fold run self in Hrun.
  subst self'. rewrite Hrun. cbn [fst snd world trace queue this set_position
    position_value _axis_name _positions _atol _cycle _fallback _dependencies
    _caxes_map].
  split; [repeat split; reflexivity|]. split; [reflexivity|]. split; [|split].
  - intros before key target after Htab Hbefore Htarget.
    unfold reported_position. fold self. rewrite Htab.
    rewrite (find_first _ before after (key, target)); [reflexivity| |].
    + apply Hn. exact Hbefore.
    + apply Hm. exact Htarget.
  - intros Hnone. unfold reported_position. fold self.
    rewrite find_none; [reflexivity|]. apply Hn. exact Hnone.
  - intros atol0 atol1 Hout. cbv zeta.
    rewrite (updatePosition_writes (D := driver_at_half)
               (mk_sys tt [] [] (pol_AB atol0 atol1)) [1 # 2; 1 # 2]);
      [|repeat constructor|reflexivity].
    cbn [fst snd this set_position position_value]. split; [reflexivity|].
    unfold reported_position, within_tolerance, pol_AB.
    cbn -[Qle_bool Qabs Qminus].
    change (Qabs ((1 # 2) - 0)) with (1 # 2).
    change (Qabs ((1 # 2) - 1)) with (1 # 2).
    destruct Hout as [Hout|Hout].
    + destruct (Qle_bool (1 # 2) atol0) eqn:E;
        [apply Qle_bool_iff in E; lraQ|reflexivity].
    + destruct (Qle_bool (1 # 2) atol1) eqn:E;
        [apply Qle_bool_iff in E; lraQ|].
      rewrite !andb_false_r. reflexivity.
Qed.

Lemma updatePosition_first_match_witness :
  let s := mk_sys tt [] [] (pol_AB (1 # 10) (1 # 10)) in
  let run := _updatePosition (D := driver_at_half) s in
  fst run = Ok tt /\
  position_value (this (snd run)) = [("pol"%string, "unknown"%string)].
Proof.
  intros s run.
  destruct (updatePosition_first_match (D := driver_at_half) s [1 # 2; 1 # 2])
    as ((Hok & _) & Hrep & _).
  - repeat constructor.
  - reflexivity.
  - split; [exact Hok|]. exact Hrep.
Defined.

End CombinedFixedFacts.

(** ** Re-synchronisation of the slave of a coupled stage *)

Module CoupledFacts.
Local Open Scope R_scope.
Import CoupledStage Spec Scenarios.

Section WithDriver.
Context {W : Type} {D : Driver R W} {B : ActuatorBase R t}.
Abbreviation St := (sys R R W t).

Lemma updatePosition_trace (s : St) :
  trace (snd (_updatePosition s)) = trace s.
Proof.
  unfold _updatePosition.
  unfold mbind, M_bind, dep_position, get_self, put_self, lift. cbv beta iota.
  destruct (getitem (position master (world s)) "x"); try reflexivity.
  cbn [this world].
  destruct (getitem (position master (world s)) "y"); reflexivity.
Qed.

(** The [finally] block sends the converted master position to the slave
    and waits for that move. *)
Lemma move_slave_value (s : St) (x y cx cy : R) :
  getitem (position master (world s)) "x" = Ok x ->
  getitem (position master (world s)) "y" = Ok y ->
  getitem (ConvertStage.position_value (_stage_conv (this s))) "x" = Ok cx ->
  getitem (ConvertStage.position_value (_stage_conv (this s))) "y" = Ok cy ->
  let c := converted_move (_stage_conv (this s)) x y in
  move_slave s =
    (match fst (await c (world s)) with None => Ok tt | Some e => Raise e end,
     mk_sys (snd (await c (world s))) (trace s ++ [c]) (queue s) (this s)).
Proof.
  intros Hx Hy Hcx Hcy c. unfold move_slave, ConvertStage.moveAbs.
  unfold mbind, M_bind, dep_position, get_self, lift, issue, fresult.
  cbv beta iota. rewrite Hx, Hy. cbv beta iota. cbn [this].
  unfold ConvertStage.get_default. rewrite Hcx, Hcy.
  cbn [mbind result_bind dict_get String.eqb Ascii.eqb Bool.eqb world trace queue this].
  subst c. unfold converted_move. cbv zeta.
  destruct (await _ (world s)) as [[e|] w]; reflexivity.
Qed.

(** The body shared by [_doMoveAbs] and [_doMoveRel], for the master move
    [first]. *)
Lemma do_move_trace (first : call R) (s : St) (x y cx cy : R) :
  let w1 := snd (await first (world s)) in
  getitem (position master w1) "x" = Ok x ->
  getitem (position master w1) "y" = Ok y ->
  getitem (ConvertStage.position_value (_stage_conv (this s))) "x" = Ok cx ->
  getitem (ConvertStage.position_value (_stage_conv (this s))) "y" = Ok cy ->
  let c := converted_move (_stage_conv (this s)) x y in
  let run := (f ← issue first; _ ← try_finally (fresult f) move_slave; _updatePosition) s in
  trace (snd run) = trace s ++ [first; c] /\
  (forall e, fst (await first (world s)) = Some e ->
     fst run = Raise (match fst (await c w1) with Some e2 => e2 | None => e end) /\
     world (snd run) = snd (await c w1)).
Proof.
  intros w1 Hx Hy Hcx Hcy c run.
  assert (Hrun : run =
            (f ← issue first; _ ← try_finally (fresult f) move_slave; _updatePosition) s)
    by reflexivity.
  clearbody run.
  unfold mbind, M_bind, issue, try_finally, fresult in Hrun. cbv beta iota in Hrun.
  cbn [world trace queue this] in Hrun. subst w1.
  remember (await first (world s)) as a1 eqn:E1. destruct a1 as [o1 w1].
  cbn [fst snd] in *.
  pose proof (move_slave_value
                (mk_sys w1 (trace s ++ [first]) (queue s) (this s)) x y cx cy
                Hx Hy Hcx Hcy) as Hms.
  cbv zeta in Hms. cbn [world trace queue this] in Hms. fold c in Hms.
  remember (await c w1) as a2 eqn:E2. destruct a2 as [o2 w2].
  cbn [fst snd] in Hms. rewrite Hms in Hrun. clear Hms.
  destruct o1 as [e1|], o2 as [e2|]; cbv beta iota in Hrun; subst run;
    cbn [fst snd trace world];
    rewrite ?updatePosition_trace; cbn [trace];
    rewrite <- ?app_assoc; cbn [app];
    (split; [reflexivity|]); intros e0 He0; inversion He0; subst;
    split; reflexivity.
Qed.

(** C4: in both move bodies the master move is issued first and, whether
    its future succeeds or raises, the position the master then reports is
    converted and sent to the slave as an absolute move; a failure of the
    master propagates only after the slave move has been waited for (and is
    replaced by the failure of the slave move when that one fails too). *)
Theorem slave_follows_master (rel : bool) (arg : dict R) (s : St) (x y cx cy : R) :
  let first := if rel then MoveRel master arg else MoveAbs master arg in
  let run := if rel then _doMoveRel arg s else _doMoveAbs arg s in
  let w1 := snd (await first (world s)) in
  getitem (position master w1) "x" = Ok x ->
  getitem (position master w1) "y" = Ok y ->
  getitem (ConvertStage.position_value (_stage_conv (this s))) "x" = Ok cx ->
  getitem (ConvertStage.position_value (_stage_conv (this s))) "y" = Ok cy ->
  let c := converted_move (_stage_conv (this s)) x y in
  trace (snd run) = trace s ++ [first; c] /\
  (forall e, fst (await first (world s)) = Some e ->
     fst run = Raise (match fst (await c w1) with Some e2 => e2 | None => e end)).
Proof.
  intros first run w1 Hx Hy Hcx Hcy c.
  destruct (do_move_trace first s x y cx cy Hx Hy Hcx Hcy) as [Ht He].
  destruct rel; (split; [exact Ht|]); intros e E; apply (He e E).
Qed.

End WithDriver.

Lemma slave_follows_master_witness :
  let s := mk_sys tt [] [] coupled_2_3 in
  let run := _doMoveAbs (D := failing_master IOError) (B := lenient_base)
               [("x"%string, 5); ("y"%string, 6)] s in
  trace (snd run) =
    [MoveAbs master [("x"%string, 5); ("y"%string, 6)]; converted_move stage_2_3 3 4] /\
  fst run = Raise IOError.
Proof.
  intros s run.
  destruct (slave_follows_master (D := failing_master IOError) (B := lenient_base)
              false [("x"%string, 5); ("y"%string, 6)] s 3 4 0 0) as [Ht He].
  - reflexivity.
  - reflexivity.
  - reflexivity.
  - reflexivity.
  - split; [exact Ht|]. apply (He IOError). reflexivity.
Defined.

End CoupledFacts.

(** ** Corrections of the sensor-verified actuator *)

Module SensorFacts.
Local Open Scope Q_scope.
Import CombinedSensorActuator Spec Scenarios.

Section WithDriver.
Context {W : Type} {D : Driver Q W} {B : ActuatorBase Q t}.
Abbreviation St := (sys Q Q W t).

(** One corrective move: issued, waited for, any failure turned into
    [IOError]. *)
Lemma corrective_step (c : call Q) (s : St) :
  try_except (f ← issue c; fresult f) (fun ex => raise IOError) s =
    (match fst (await c (world s)) with None => Ok tt | Some _ => Raise IOError end,
     mk_sys (snd (await c (world s))) (trace s ++ [c]) (queue s) (this s)).
Proof.
  unfold try_except, mbind, M_bind, issue, fresult, raise. cbv beta iota.
  cbn [world trace queue this].
  destruct (await c (world s)) as [[e|] w]; reflexivity.
Qed.

Lemma read_sensor_value (s : St) :
  read_sensor s = (getitem (position sensor (world s)) (_axis_sensor (this s)), s).
Proof. reflexivity. Qed.

(** One turn of the loop that goes on to a corrective move. *)
Lemma extra_moves_step fuel retry p_cor prev_pos exp_spos tot_shift spos (s : St) :
  ~ spos == exp_spos -> Nat.eqb (S retry) 10 = false -> ~ p_cor == prev_pos ->
  let c := extra (this s) p_cor prev_pos in
  let s1 := mk_sys (snd (await c (world s))) (trace s ++ [c]) (queue s) (this s) in
  extra_moves (S fuel) retry p_cor prev_pos exp_spos tot_shift spos s =
    match fst (await c (world s)) with
    | Some _ => (Raise IOError, s1)
    | None =>
        match getitem (position sensor (world s1)) (_axis_sensor (this s)) with
        | Ok spos' =>
            extra_moves fuel (S retry) p_cor prev_pos exp_spos
              (tot_shift + (p_cor - prev_pos) * (1 # 10)) spos' s1
        | Raise e => (Raise e, s1)
        | Diverge => (Diverge, s1)
        end
    end.
Proof.
  intros Hs Hr Hp c s1. subst s1 c. unfold extra. cbn [extra_moves].
  destruct (Qeq_bool spos exp_spos) eqn:E1; [apply Qeq_bool_iff in E1; contradiction|].
  rewrite Hr.
  destruct (Qeq_bool p_cor prev_pos) eqn:E2; [apply Qeq_bool_iff in E2; contradiction|].
  unfold mbind at 1. unfold M_bind at 1. unfold get_self at 1. cbv beta iota.
  unfold mbind at 1. unfold M_bind at 1. rewrite corrective_step.
  destruct (await _ (world s)) as [[e|] w] eqn:E; cbn [fst snd]; [reflexivity|].
  unfold mbind at 1. unfold M_bind at 1. rewrite read_sensor_value.
  cbn [this]. destruct (getitem _ _); reflexivity.
Qed.

Lemma getitem_not_diverge {A} (d : dict A) (k : string) : getitem d k <> Diverge.
Proof. unfold getitem. destruct (dict_get k d); discriminate. Qed.

(** The loop makes at most nine corrective moves, all the same, does not
    touch the fields of the component and never runs out of fuel. *)
Lemma extra_moves_bounded p_cor prev_pos exp_spos fuel :
  forall retry tot_shift spos (s : St),
    (10 <= retry + fuel)%nat -> (retry <= 9)%nat ->
    let run := extra_moves fuel retry p_cor prev_pos exp_spos tot_shift spos s in
    exists n,
      (n + retry <= 9)%nat /\
      trace (snd run) = trace s ++ repeat (extra (this s) p_cor prev_pos) n /\
      this (snd run) = this s /\
      fst run <> Diverge /\
      (forall t, fst run = Ok (Some t) ->
         t == tot_shift + inject_Z (Z.of_nat n) * ((p_cor - prev_pos) * (1 # 10))) /\
      (fst run = Ok None -> n = 0%nat /\ p_cor == prev_pos).
Proof.
  induction fuel as [|fuel IH]; intros retry tot_shift spos s Hfuel Hretry run.
  - lia.
  - destruct (Qeq_bool spos exp_spos) eqn:E1.
    { exists 0%nat. subst run. cbn [extra_moves]. rewrite E1. cbn.
      rewrite app_nil_r. repeat split; try lia; try discriminate.
      intros t Ht. inversion Ht; subst. unfold inject_Z. ring. }
    destruct (Nat.eqb (S retry) 10) eqn:E2.
    { exists 0%nat. subst run. cbn [extra_moves]. rewrite E1, E2. cbn.
      rewrite app_nil_r. repeat split; try lia; try discriminate. }
    destruct (Qeq_bool p_cor prev_pos) eqn:E3.
    { exists 0%nat. subst run. cbn [extra_moves]. rewrite E1, E2, E3. cbn.
      rewrite app_nil_r. apply Qeq_bool_iff in E3.
      repeat split; try lia; try discriminate; assumption. }
    assert (Hs : ~ spos == exp_spos)
      by (intros Hq; apply Qeq_bool_iff in Hq; congruence).
    assert (Hp : ~ p_cor == prev_pos)
      by (intros Hq; apply Qeq_bool_iff in Hq; congruence).
    pose proof (extra_moves_step fuel retry p_cor prev_pos exp_spos tot_shift spos s
                  Hs E2 Hp) as Hstep.
    cbv zeta in Hstep. subst run. rewrite Hstep. clear Hstep.
    apply Nat.eqb_neq in E2.
    set (c := extra (this s) p_cor prev_pos) in *.
    destruct (await c (world s)) as [[e|] w1]; cbn [fst snd world this].
    { exists 1%nat. cbn. repeat split; try lia; discriminate. }
    pose proof (getitem_not_diverge (position sensor w1) (_axis_sensor (this s))) as Hnd.
    destruct (getitem (position sensor w1) (_axis_sensor (this s))) as [spos'|e|];
      [| exists 1%nat; cbn; repeat split; try lia; discriminate | congruence].
    destruct (IH (S retry) (tot_shift + (p_cor - prev_pos) * (1 # 10)) spos'
                (mk_sys w1 (trace s ++ [c]) (queue s) (this s)))
      as (n & Hn & Ht & Hthis & Hdiv & Htot & Hnone); [lia|lia|].
    cbv zeta in *. cbn [this trace] in *. fold c in Ht.
    exists (S n).
    split; [lia|]. split; [rewrite Ht, <- app_assoc; reflexivity|].
    split; [assumption|]. split; [assumption|]. split.
    + intros t Hrun. rewrite (Htot t Hrun).
      rewrite Nat2Z.inj_succ. unfold Z.succ. rewrite inject_Z_plus.
      change (inject_Z 1) with 1. ring.
    + intros Hrun. destruct (Hnone Hrun) as [_ Heq]. contradiction.
Qed.

(** When the sensor never reads the expected value and the actuator accepts
    the corrective moves, the loop makes the [9 - retry] moves left and
    raises [IOError]. *)
Lemma extra_moves_exhausted p_cor prev_pos exp_spos m :
  forall retry tot_shift spos (s : St),
    (retry + m = 9)%nat ->
    ~ spos == exp_spos -> ~ p_cor == prev_pos ->
    let c := extra (this s) p_cor prev_pos in
    (forall k, (k < m)%nat ->
       fst (await c (world_after c k (world s))) = None /\
       exists sp,
         getitem (position sensor (world_after c (S k) (world s)))
                 (_axis_sensor (this s)) = Ok sp /\ ~ sp == exp_spos) ->
    extra_moves (S m) retry p_cor prev_pos exp_spos tot_shift spos s =
      (Raise IOError,
       mk_sys (world_after c m (world s)) (trace s ++ repeat c m) (queue s) (this s)).
Proof.
  induction m as [|m IH]; intros retry tot_shift spos s Hm Hs Hp c Hall.
  - assert (retry = 9%nat) by lia. subst retry.
    cbn [extra_moves]. 
    destruct (Qeq_bool spos exp_spos) eqn:E1; [apply Qeq_bool_iff in E1; contradiction|].
    cbn. rewrite app_nil_r. destruct s; reflexivity.
  - assert (Hr : Nat.eqb (S retry) 10 = false) by (apply Nat.eqb_neq; lia).
    pose proof (extra_moves_step (S m) retry p_cor prev_pos exp_spos tot_shift spos s
                  Hs Hr Hp) as Hstep.
    cbv zeta in Hstep. rewrite Hstep. clear Hstep. fold c.
    destruct (Hall 0%nat) as [Hok (sp & Hsp & Hne)]; [lia|].
    cbn [world_after] in Hok, Hsp. rewrite Hok. cbn [world this]. rewrite Hsp.
    rewrite IH; cbn [this world trace queue]; fold c; try assumption; try lia.
    + rewrite <- app_assoc. reflexivity.
    + intros k Hk. destruct (Hall (S k)) as [Hok' Hsp']; [lia|].
      split; [exact Hok'|exact Hsp'].
Qed.

(** [_doMoveAbs] once the target, the previous position and the expected
    sensor value have been looked up. *)
Lemma doMoveAbs_value (pos : dict Q) (s : St) (p prev_pos exp_spos : Q) :
  getitem pos (_axis (this s)) = Ok p ->
  getitem (position actuator (world s)) (_axis (this s)) = Ok prev_pos ->
  getitem_float (_to_sensor (this s)) p = Ok exp_spos ->
  let main := MoveAbs actuator pos in
  let s1 := mk_sys (snd (await main (world s))) (trace s ++ [main]) (queue s) (this s) in
  _doMoveAbs pos s =
    match fst (await main (world s)) with
    | Some e => (Raise e, s1)
    | None =>
        match getitem (position sensor (world s1)) (_axis_sensor (this s)) with
        | Ok spos =>
            let run := extra_moves 10 0 (p + _pos_shift (this s)) prev_pos exp_spos 0
                         spos s1 in
            match fst run with
            | Ok (Some tot_shift) =>
                (Ok tt, mk_sys (world (snd run)) (trace (snd run)) (queue (snd run))
                          (set_pos_shift (_pos_shift (this (snd run)) + tot_shift)
                             (this (snd run))))
            | Ok None => (Ok tt, snd run)
            | Raise e => (Raise e, snd run)
            | Diverge => (Diverge, snd run)
            end
        | Raise e => (Raise e, s1)
        | Diverge => (Diverge, s1)
        end
    end.
Proof.
  intros Hp Hprev Hexp main s1. unfold _doMoveAbs.
  unfold mbind at 1. unfold M_bind at 1. unfold get_self at 1. cbv beta iota.
  unfold mbind at 1. unfold M_bind at 1. unfold lift at 1. rewrite Hp.
  unfold mbind at 1. unfold M_bind at 1. unfold dep_position at 1. cbv beta iota.
  unfold mbind at 1. unfold M_bind at 1. unfold lift at 1. rewrite Hprev.
  unfold mbind at 1. unfold M_bind at 1. unfold issue at 1. cbv beta iota.
  unfold mbind at 1. unfold M_bind at 1. unfold fresult at 1.
  cbn [world trace queue this]. fold main.
  subst s1. destruct (await main (world s)) as [[e|] w1]; cbn [fst snd]; [reflexivity|].
  unfold mbind at 1. unfold M_bind at 1. unfold lift at 1. cbn [this]. rewrite Hexp.
  unfold mbind at 1. unfold M_bind at 1. rewrite read_sensor_value. cbn [world this].
  destruct (getitem (position sensor w1) (_axis_sensor (this s))) as [spos|e|];
    try reflexivity.
  cbv zeta. unfold mbind at 1. unfold M_bind at 1.
  destruct (extra_moves 10 0 _ _ _ _ _ _) as [[[tot|]|e|] s2]; reflexivity.
Qed.

(** [k] turns of the loop in which the sensor disagrees and the corrective
    move is accepted. *)
Lemma extra_moves_prefix p_cor prev_pos exp_spos k :
  forall fuel retry tot_shift spos spos_k (s : St),
    let c := extra (this s) p_cor prev_pos in
    let reads j sp :=
      getitem (position sensor (world_after c j (world s))) (_axis_sensor (this s)) = Ok sp in
    (retry + k <= 9)%nat ->
    ((0 < k)%nat -> ~ p_cor == prev_pos) ->
    reads 0%nat spos ->
    (forall j, (j < k)%nat ->
       fst (await c (world_after c j (world s))) = None /\
       exists sp, reads j sp /\ ~ sp == exp_spos) ->
    reads k spos_k ->
    exists tot,
      tot == tot_shift + inject_Z (Z.of_nat k) * ((p_cor - prev_pos) * (1 # 10)) /\
      extra_moves (k + fuel) retry p_cor prev_pos exp_spos tot_shift spos s =
        extra_moves fuel (retry + k) p_cor prev_pos exp_spos tot spos_k
          (mk_sys (world_after c k (world s)) (trace s ++ repeat c k) (queue s) (this s)).
Proof.
  induction k as [|k IH]; intros fuel retry tot_shift spos spos_k s c reads Hr Hp H0 Hall Hk.
  - exists tot_shift. split; [unfold inject_Z; cbn; ring|].
    unfold reads in H0, Hk. rewrite H0 in Hk. inversion Hk; subst spos_k.
    cbn [world_after repeat Nat.add]. rewrite app_nil_r, Nat.add_0_r.
    destruct s; reflexivity.
  - destruct (Hall 0%nat) as [Hacc (sp0 & Hsp0 & Hne0)]; [lia|].
    unfold reads in H0, Hsp0. rewrite H0 in Hsp0. inversion Hsp0; subst sp0.
    assert (Hpne : ~ p_cor == prev_pos) by (apply Hp; lia).
    assert (Hr10 : Nat.eqb (S retry) 10 = false) by (apply Nat.eqb_neq; lia).
    pose proof (extra_moves_step (k + fuel) retry p_cor prev_pos exp_spos tot_shift spos s
                  Hne0 Hr10 Hpne) as Hstep.
    cbv zeta in Hstep. fold c in Hstep. cbn [world_after] in Hacc.
    cbn [Nat.add]. rewrite Hstep. clear Hstep. rewrite Hacc. cbn [world this].
    set (s1 := mk_sys (snd (await c (world s))) (trace s ++ [c]) (queue s) (this s) : St).
    assert (Hnext : exists sp1, getitem (position sensor (snd (await c (world s))))
                                  (_axis_sensor (this s)) = Ok sp1).
    { destruct k as [|k'].
      - exists spos_k. exact Hk.
      - destruct (Hall 1%nat) as [_ (sp1 & Hsp1 & _)]; [lia|]. exists sp1. exact Hsp1. }
    destruct Hnext as [sp1 Hsp1]. rewrite Hsp1.
    destruct (IH fuel (S retry) (tot_shift + (p_cor - prev_pos) * (1 # 10)) sp1 spos_k s1)
      as (tot & Htot & Hrun).
    + lia.
    + intros _. exact Hpne.
    + exact Hsp1.
    + intros j Hj. destruct (Hall (S j)) as [Ha Hs]; [lia|]. split; [exact Ha|exact Hs].
    + exact Hk.
    + exists tot. split.
      * rewrite Htot. rewrite Nat2Z.inj_succ. unfold Z.succ. rewrite inject_Z_plus.
        change (inject_Z 1) with 1. ring.
      * cbn [this world trace queue s1] in Hrun. fold c in Hrun. rewrite Hrun.
        replace (S retry + k)%nat with (retry + S k)%nat by lia.
        cbn [world_after repeat]. rewrite <- app_assoc. reflexivity.
Qed.

(** X27: the corrective loop of the sensor-verified move.  After the
    absolute move of line 1501 the sensor is read; while it does not read
    the value expected for the requested position, relative moves of a tenth
    of (corrected target - position before the move) follow, nine at most,
    the corrected target being the requested position plus the stored
    offset.  The loop stops as soon as the sensor agrees, and the extra
    shift made is then added to the stored offset; a corrective move that
    fails, and a sensor that still disagrees at the tenth check, end the
    move with [IOError] and leave every field, the stored offset included,
    as it was; when the corrected target is the position before the move
    the loop gives up at once, with no corrective move and no error; and a
    failing main move raises its own exception. *)
Theorem sensor_correction (pos : dict Q) (s : St) (p prev_pos exp_spos : Q) :
  getitem pos (_axis (this s)) = Ok p ->
  getitem (position actuator (world s)) (_axis (this s)) = Ok prev_pos ->
  getitem_float (_to_sensor (this s)) p = Ok exp_spos ->
  let p_cor := p + _pos_shift (this s) in
  let shift := (p_cor - prev_pos) * (1 # 10) in
  let main := MoveAbs actuator pos in
  let c := MoveRel actuator [(_axis (this s), shift)] in
  let run := _doMoveAbs pos s in
  let w1 := snd (await main (world s)) in
  let reads k sp :=
    getitem (position sensor (world_after c k w1)) (_axis_sensor (this s)) = Ok sp in
  let accepted k := fst (await c (world_after c k w1)) = None in
  (exists n,
     (n <= 9)%nat /\
     trace (snd run) = trace s ++ main :: repeat c n /\
     fst run <> Diverge /\
     (forall e, fst run = Raise e -> this (snd run) = this s) /\
     (fst run = Ok tt ->
        _pos_shift (this (snd run)) ==
          _pos_shift (this s) + inject_Z (Z.of_nat n) * shift)) /\
  (forall e, fst (await main (world s)) = Some e ->
     run = (Raise e, mk_sys w1 (trace s ++ [main]) (queue s) (this s))) /\
  (fst (await main (world s)) = None ->
   (forall sp, reads 0%nat sp -> ~ sp == exp_spos -> p_cor == prev_pos ->
      run = (Ok tt, mk_sys w1 (trace s ++ [main]) (queue s) (this s))) /\
   (forall k,
      (k <= 9)%nat -> ((0 < k)%nat -> ~ p_cor == prev_pos) ->
      (forall j, (j < k)%nat ->
         accepted j /\ exists sp, reads j sp /\ ~ sp == exp_spos) ->
      (forall sp, reads k sp -> sp == exp_spos ->
         fst run = Ok tt /\
         trace (snd run) = trace s ++ main :: repeat c k /\
         world (snd run) = world_after c k w1 /\
         _pos_shift (this (snd run)) ==
           _pos_shift (this s) + inject_Z (Z.of_nat k) * shift) /\
      (forall sp, (k < 9)%nat -> reads k sp -> ~ sp == exp_spos ->
         ~ p_cor == prev_pos -> ~ accepted k ->
         fst run = Raise IOError /\
         trace (snd run) = trace s ++ main :: repeat c (S k) /\
         this (snd run) = this s) /\
      (forall sp, k = 9%nat -> reads k sp -> ~ sp == exp_spos ->
         fst run = Raise IOError /\
         trace (snd run) = trace s ++ main :: repeat c 9 /\
         this (snd run) = this s))).
Proof.
  intros Hp Hprev Hexp p_cor shift main c run w1 reads accepted.
  pose proof (doMoveAbs_value pos s p prev_pos exp_spos Hp Hprev Hexp) as Hrun.
  cbv zeta in Hrun. fold main p_cor run in Hrun.
  change (MoveRel actuator [(_axis (this s), shift)])
    with (extra (this s) p_cor prev_pos) in c.
  split; [|split].
  - destruct (await main (world s)) as [[e|] w1']; cbn [fst snd world] in Hrun.
    { exists 0%nat. rewrite Hrun. cbn. repeat split; try lia; discriminate. }
    pose proof (getitem_not_diverge (position sensor w1') (_axis_sensor (this s))) as Hnd.
    destruct (getitem (position sensor w1') (_axis_sensor (this s))) as [spos|e|];
      [| exists 0%nat; rewrite Hrun; cbn; repeat split; try lia; discriminate
       | congruence].
    destruct (extra_moves_bounded p_cor prev_pos exp_spos 10 0 0 spos
                (mk_sys w1' (trace s ++ [main]) (queue s) (this s)))
      as (n & Hn & Ht & Hthis & Hdiv & Htot & Hnone); [lia|lia|].
    cbv zeta in *. cbn [this trace] in *. fold c in Ht.
    exists n. split; [lia|].
    destruct (extra_moves 10 0 p_cor prev_pos exp_spos 0 spos _)
      as [[[tot|]|e|] s2]; cbn [fst snd] in *; rewrite Hrun; cbn [fst snd trace this].
    + split; [rewrite Ht, <- app_assoc; reflexivity|].
      split; [discriminate|]. split; [discriminate|].
      intros _. cbn. rewrite Hthis. rewrite (Htot tot eq_refl). fold shift. ring.
    + split; [rewrite Ht, <- app_assoc; reflexivity|].
      split; [discriminate|]. split; [discriminate|].
      intros _. destruct (Hnone eq_refl) as [-> _]. rewrite Hthis.
      unfold inject_Z. cbn. ring.
    + split; [rewrite Ht, <- app_assoc; reflexivity|].
      split; [discriminate|]. split; [intros _ _; exact Hthis|].
      discriminate.
    + congruence.
  - intros e He. subst w1. rewrite He in Hrun. exact Hrun.
  - intros Hmain. rewrite Hmain in Hrun. cbn [world] in Hrun. fold w1 in Hrun.
    set (s1 := mk_sys w1 (trace s ++ [main]) (queue s) (this s) : St) in *.
    split.
    + intros sp Hsp Hne Heq. unfold reads in Hsp. cbn [world_after] in Hsp.
      rewrite Hsp in Hrun.
      assert (E : extra_moves 10 0 p_cor prev_pos exp_spos 0 sp s1 = (Ok None, s1)).
      { cbn [extra_moves].
        destruct (Qeq_bool sp exp_spos) eqn:E1; [apply Qeq_bool_iff in E1; contradiction|].
        cbn [Nat.eqb]. apply Qeq_bool_iff in Heq. rewrite Heq. reflexivity. }
      rewrite E in Hrun. cbn [fst snd] in Hrun. exact Hrun.
    + intros k Hk9 Hpk Hall.
      assert (Hpre : forall spk, reads k spk ->
                exists sp0 tot,
                  reads 0%nat sp0 /\
                  tot == 0 + inject_Z (Z.of_nat k) * shift /\
                  run =
                    (let r := extra_moves (10 - k) k p_cor prev_pos exp_spos tot spk
                                (mk_sys (world_after c k w1) (trace s1 ++ repeat c k)
                                   (queue s) (this s)) in
                     match fst r with
                     | Ok (Some tot_shift) =>
                         (Ok tt, mk_sys (world (snd r)) (trace (snd r)) (queue (snd r))
                                   (set_pos_shift (_pos_shift (this (snd r)) + tot_shift)
                                      (this (snd r))))
                     | Ok None => (Ok tt, snd r)
                     | Raise e => (Raise e, snd r)
                     | Diverge => (Diverge, snd r)
                     end)).
      { intros spk Hspk.
        assert (H0 : exists sp0, reads 0%nat sp0).
        { destruct k as [|k']; [exists spk; exact Hspk|].
          destruct (Hall 0%nat) as [_ (sp0 & Hsp0 & _)]; [lia|]. exists sp0. exact Hsp0. }
        destruct H0 as [sp0 Hsp0]. pose proof Hsp0 as Hsp0'.
        unfold reads in Hsp0'. cbn [world_after] in Hsp0'. rewrite Hsp0' in Hrun.
        destruct (extra_moves_prefix p_cor prev_pos exp_spos k (10 - k) 0 0 sp0 spk s1)
          as (tot & Htot & Hpref).
        - lia.
        - exact Hpk.
        - exact Hsp0.
        - intros j Hj. destruct (Hall j Hj) as [Ha Hs]. split; [exact Ha|exact Hs].
        - exact Hspk.
        - exists sp0, tot. split; [exact Hsp0|]. split; [exact Htot|].
          cbn [this world trace queue s1] in Hpref. fold c in Hpref.
          replace (k + (10 - k))%nat with 10%nat in Hpref by lia.
          rewrite Hpref in Hrun. exact Hrun. }
      split; [|split].
      * intros sp Hsp Heq. destruct (Hpre sp Hsp) as (sp0 & tot & _ & Htot & Hr).
        assert (E : forall fuel r (s' : St),
                   extra_moves fuel r p_cor prev_pos exp_spos tot sp s' = (Ok (Some tot), s')).
        { intros fuel r s'. apply Qeq_bool_iff in Heq.
          destruct fuel; cbn [extra_moves]; rewrite Heq; reflexivity. }
        rewrite E in Hr. cbv zeta in Hr. cbn [fst snd world trace queue this] in Hr.
        rewrite Hr. cbn [fst snd world trace queue this set_pos_shift _pos_shift s1].
        split; [reflexivity|]. split; [rewrite <- app_assoc; reflexivity|].
        split; [reflexivity|]. rewrite Htot. ring.
      * intros sp Hk Hsp Hne Hpne Hrej.
        destruct (Hpre sp Hsp) as (sp0 & tot & _ & _ & Hr).
        replace (10 - k)%nat with (S (9 - k)) in Hr by lia.
        assert (Hr10 : Nat.eqb (S k) 10 = false) by (apply Nat.eqb_neq; lia).
        rewrite (extra_moves_step (9 - k) k p_cor prev_pos exp_spos tot sp _ Hne Hr10 Hpne)
          in Hr.
        cbn [this world trace queue] in Hr. fold c in Hr.
        unfold accepted in Hrej.
        destruct (await c (world_after c k w1)) as [[e|] w'];
          [|exfalso; apply Hrej; reflexivity].
        cbv zeta in Hr. cbn [fst snd] in Hr. rewrite Hr.
        cbn [fst snd trace this s1].
        split; [reflexivity|]. split; [|reflexivity].
        rewrite <- !app_assoc. cbn [app].
        replace (repeat c k ++ [c]) with (repeat c (S k)); [reflexivity|].
        clear. induction k as [|k IH]; [reflexivity|]. cbn [repeat app].
        rewrite <- IH. reflexivity.
      * intros sp -> Hsp Hne. destruct (Hpre sp Hsp) as (sp0 & tot & _ & _ & Hr).
        cbn [Nat.sub extra_moves] in Hr.
        destruct (Qeq_bool sp exp_spos) eqn:E1; [apply Qeq_bool_iff in E1; contradiction|].
        cbn [Nat.eqb] in Hr. cbv zeta in Hr. cbn [raise fst snd] in Hr. rewrite Hr.
        cbn [fst snd trace this s1]. rewrite <- app_assoc.
        repeat split; reflexivity.
Qed.

End WithDriver.

(** C5 (the code departs from it): the stored correction offset is not
    applied to later moves.  On a stage whose sensor sees position 1 only
    from 1.05 on, a first move to 1 is followed by one corrective move of
    0.1, which the sensor confirms, and 0.1 is stored as the offset; after
    a move back to 0, the next move to 1 is again sent to the dependency as
    1, not as 1.1, needs a corrective move again, and the stored offset
    grows to 0.21. *)
Theorem stored_offset_not_applied :
  let s0 := mk_sys 0 [] [] (flipper 0) in
  let run1 := _doMoveAbs (D := stiff_stage) [("x"%string, 1)] s0 in
  let run2 := _doMoveAbs (D := stiff_stage) [("x"%string, 0)] (snd run1) in
  let run3 := _doMoveAbs (D := stiff_stage) [("x"%string, 1)] (snd run2) in
  (fst run1 = Ok tt /\
   trace (snd run1) = [MoveAbs actuator [("x"%string, 1)];
                       MoveRel actuator [("x"%string, 1 # 10)]] /\
   _pos_shift (this (snd run1)) == 1 # 10) /\
  (fst run2 = Ok tt /\
   trace (snd run2) = trace (snd run1) ++ [MoveAbs actuator [("x"%string, 0)]] /\
   _pos_shift (this (snd run2)) == 1 # 10) /\
  (fst run3 = Ok tt /\
   trace (snd run3) = trace (snd run2) ++ [MoveAbs actuator [("x"%string, 1)];
                                           MoveRel actuator [("x"%string, 11 # 100)]] /\
   _pos_shift (this (snd run3)) == 21 # 100).
Proof. vm_compute. repeat split; reflexivity. Qed.

Lemma sensor_correction_witness :
  let s := mk_sys tt [] [] (flipper 0) in
  let run := _doMoveAbs (D := blind_sensor 0) [("x"%string, 1)] s in
  let gave_up := _doMoveAbs (D := blind_sensor 1) [("x"%string, 1)] s in
  (fst run = Raise IOError /\
   trace (snd run) =
     MoveAbs actuator [("x"%string, 1)] ::
       repeat (MoveRel actuator [("x"%string, (1 + 0 - 0) * (1 # 10))]) 9 /\
   this (snd run) = flipper 0) /\
  gave_up = (Ok tt, mk_sys tt [MoveAbs actuator [("x"%string, 1)]] [] (flipper 0)).
Proof.
  intros s run gave_up. split.
  - destruct (sensor_correction (D := blind_sensor 0) [("x"%string, 1)] s 1 0 5
                eq_refl eq_refl eq_refl) as (_ & _ & H).
    destruct (H eq_refl) as [_ Hk].
    destruct (Hk 9%nat) as (_ & _ & Hex).
    + lia.
    + intros _. vm_compute. discriminate.
    + intros j Hj. split; [reflexivity|]. exists 0. split; [reflexivity|].
      vm_compute. discriminate.
    + apply (Hex 0 eq_refl); [reflexivity|]. vm_compute. discriminate.
  - destruct (sensor_correction (D := blind_sensor 1) [("x"%string, 1)] s 1 1 5
                eq_refl eq_refl eq_refl) as (_ & _ & H).
    destruct (H eq_refl) as [Hgive _].
    apply (Hgive 0); [reflexivity| |reflexivity]. vm_compute. discriminate.
Defined.

End SensorFacts.

(** ** Backlash compensation of relative moves *)

Module BacklashFacts.
Local Open Scope Q_scope.
Import AntiBacklashActuator Spec Scenarios.

Lemma dict_set_fresh {A} (k : string) (v : A) (d : dict A) :
  dict_get k d = None -> dict_set k v d = d ++ [(k, v)].
Proof.
  induction d as [|[k' v'] d IH]; cbn; [reflexivity|].
  destruct (String.eqb_spec k k'); [discriminate|].
  intros Hd. rewrite (IH Hd). reflexivity.
Qed.

Lemma dict_get_app {A} (k : string) (d1 d2 : dict A) :
  dict_get k (d1 ++ d2) =
    match dict_get k d1 with Some v => Some v | None => dict_get k d2 end.
Proof.
  induction d1 as [|[k' v'] d1 IH]; cbn; [reflexivity|].
  destruct (String.eqb k k'); [reflexivity|exact IH].
Qed.

Section WithDriver.
Context {W : Type} {D : Driver Q W} {B : ActuatorBase Q t}.
Abbreviation St := (sys Q Q W t).

Definition with_shifted (sh : gmap string bool) (s : St) : St :=
  mk_sys (world s) (trace s) (queue s) (mk (_backlash (this s)) sh (axes (this s))).

Lemma with_shifted_id (s : St) : with_shifted (_shifted (this s)) s = s.
Proof. destruct s as [w tr q [bl sh ax]]. reflexivity. Qed.


Lemma in_keys {A} (a : string) (v : A) (d : dict A) : In (a, v) d -> In a (dict_keys d).
Proof. intros Hin. unfold dict_keys. apply in_map_iff. exists (a, v). auto. Qed.


Lemma compensation_ext (self self' : t) (axes : list string) :
  _backlash self' = _backlash self ->
  (forall a, In a axes -> _shifted self' !! a = _shifted self !! a) ->
  compensation self' axes = compensation self axes.
Proof.
  intros Hb Hs. induction axes as [|a axes IH]; [reflexivity|].
  cbn [compensation flat_map].
  fold (compensation self' axes). fold (compensation self axes).
  rewrite IH by (intros a' Ha'; apply Hs; right; exact Ha').
  rewrite Hb, (Hs a (or_introl eq_refl)). reflexivity.
Qed.

(** The loop of the compensating move: it collects the backlash of the
    shifted axes and clears every flag it meets. *)
Lemma revert_axes_value (axes : list string) :
  forall (sub_backlash : dict Q) (s : St),
    List.NoDup axes ->
    (forall a, In a axes ->
       is_Some (_shifted (this s) !! a) /\ dict_get a sub_backlash = None) ->
    exists sh,
      revert_axes axes sub_backlash s =
        (Ok (sub_backlash ++ compensation (this s) axes), with_shifted sh s) /\
      (forall a, ~ In a axes -> sh !! a = _shifted (this s) !! a) /\
      (forall a, In a axes -> sh !! a = Some false).
Proof.
  induction axes as [|a0 rest IH]; intros sb s Hnd Hkeys.
  - exists (_shifted (this s)). cbn. rewrite app_nil_r, with_shifted_id.
    split; [reflexivity|]. split; [reflexivity|]. intros a [].
  - apply NoDup_cons_iff in Hnd. destruct Hnd as [Hfresh Hnd].
    destruct (Hkeys a0 (or_introl eq_refl)) as [[f0 Hf0] Hsb0].
    assert (Hne : forall a, In a rest -> a <> a0)
      by (intros a Hin ->; contradiction).
    cbn [revert_axes]. unfold mbind at 1. unfold M_bind at 1. unfold get_self at 1.
    cbv beta iota. rewrite Hf0. cbn [compensation flat_map]. rewrite Hf0.
    destruct f0.
    + unfold mbind at 1. unfold M_bind at 1. unfold put_self at 1. cbv beta iota.
      set (s1 := mk_sys (world s) (trace s) (queue s) (set_shifted a0 false (this s)) : St).
      set (sb1 := match _backlash (this s) !! a0 with
                  | Some b => dict_set a0 b sb
                  | None => sb
                  end).
      destruct (IH sb1 s1 Hnd) as (sh & Hrun & Hout & Hin).
      { intros a Ha. destruct (Hkeys a (or_intror Ha)) as [Hs Hd]. split.
        - subst s1. cbn.
          rewrite lookup_insert_ne by (intros E; exact (Hne _ Ha (eq_sym E))).
          exact Hs.
        - subst sb1. destruct (_backlash (this s) !! a0); [|exact Hd].
          rewrite dict_get_set_ne; [exact Hd|]. intros ->. exact (Hne _ Ha eq_refl). }
      exists sh. split.
      { rewrite Hrun. fold (compensation (this s) rest).
        rewrite (compensation_ext (this s) (this s1) rest).
        - subst sb1. destruct (_backlash (this s) !! a0) as [b|].
          + rewrite (dict_set_fresh _ _ _ Hsb0), <- app_assoc. reflexivity.
          + reflexivity.
        - reflexivity.
        - intros a Ha. subst s1. cbn.
          rewrite lookup_insert_ne by (intros E; exact (Hne _ Ha (eq_sym E))).
          reflexivity. }
      split.
      { intros a Ha. rewrite Hout by (intros Hr; apply Ha; right; exact Hr).
        subst s1. cbn. apply lookup_insert_ne. intros ->. apply Ha. left. reflexivity. }
      intros a [->|Hr]; [|apply Hin; exact Hr].
      rewrite (Hout a Hfresh). subst s1. cbn. apply lookup_insert_eq.
    + destruct (IH sb s Hnd) as (sh & Hrun & Hout & Hin).
      { intros a Ha. apply Hkeys. right. exact Ha. }
      exists sh. split; [rewrite Hrun; reflexivity|]. split.
      { intros a Ha. apply Hout. intros Hr. apply Ha. right. exact Hr. }
      intros a [->|Hr]; [|apply Hin; exact Hr].
      rewrite (Hout a Hfresh). exact Hf0.
Qed.


Lemma compensation_lookup_shifted (self : t) (axes : list string) (a : string) (b : Q) :
  In a axes -> _shifted self !! a = Some true -> _backlash self !! a = Some b ->
  dict_get a (compensation self axes) = Some b.
Proof.
  intros Hin Hs Hb. induction axes as [|a0 rest IH]; [destruct Hin|].
  cbn [compensation flat_map]. rewrite dict_get_app.
  destruct (String.eqb_spec a a0) as [<-|Hne].
  - rewrite Hs, Hb. cbn. rewrite String.eqb_refl. reflexivity.
  - destruct Hin as [->|Hin]; [congruence|].
    replace (dict_get a _) with (@None Q); [apply IH; exact Hin|].
    destruct (_shifted self !! a0) as [[|]|]; try reflexivity.
    destruct (_backlash self !! a0); [|reflexivity].
    cbn. destruct (String.eqb_spec a a0); [congruence|reflexivity].
Qed.

Lemma compensation_lookup_unshifted (self : t) (axes : list string) (a : string) :
  _shifted self !! a = Some false -> dict_get a (compensation self axes) = None.
Proof.
  intros Hs. induction axes as [|a0 rest IH]; [reflexivity|].
  cbn [compensation flat_map]. fold (compensation self rest).
  rewrite dict_get_app, IH.
  destruct (String.eqb_spec a a0) as [<-|Hne].
  - rewrite Hs. reflexivity.
  - destruct (_shifted self !! a0) as [[|]|]; try reflexivity.
    destruct (_backlash self !! a0); [|reflexivity].
    cbn. destruct (String.eqb_spec a a0); [congruence|reflexivity].
Qed.

(** The compensating move once the flags are [sh]. *)
Lemma antiBacklashMove_value (keys : list string) (s : St) :
  List.NoDup keys ->
  (forall a, In a keys -> is_Some (_shifted (this s) !! a)) ->
  let comp := compensation (this s) keys in
  exists sh,
    trace (snd (_antiBacklashMove keys s)) =
      trace s ++ (if is_empty comp then [] else [MoveRelSync dep comp]) /\
    this (snd (_antiBacklashMove keys s)) = mk (_backlash (this s)) sh (axes (this s)) /\
    (forall a, In a keys -> sh !! a = Some false).
Proof.
  intros Hnd Hkeys comp.
  destruct (revert_axes_value keys [] s Hnd) as (sh & Hrun & _ & Hin).
  { intros a Ha. split; [apply Hkeys; exact Ha|reflexivity]. }
  cbn [app] in Hrun. fold comp in Hrun.
  exists sh.
  assert (E : _antiBacklashMove keys s =
              (if is_empty comp then mret tt
               else f ← issue (MoveRelSync dep comp); fresult f) (with_shifted sh s)).
  { unfold _antiBacklashMove. unfold mbind at 1. unfold M_bind at 1.
    rewrite Hrun. reflexivity. }
  rewrite E. clear E.
  destruct comp as [|kv comp]; cbn [is_empty].
  - cbn. rewrite app_nil_r. repeat split; try reflexivity; exact Hin.
  - unfold mbind, M_bind, issue, fresult. cbv beta iota.
    cbn [world trace queue this with_shifted].
    destruct (await _ (world s)) as [[e|] w]; cbn; repeat split; try reflexivity;
      exact Hin.
Qed.

Lemma any_shifted_dom (self self' : t) :
  dom (_shifted self') = dom (_shifted self) -> any_shifted self' = any_shifted self.
Proof. intros Hd. unfold any_shifted. rewrite Hd. reflexivity. Qed.



End WithDriver.



End BacklashFacts.

(** * Further properties of the move bodies *)

(** ** The float modulo *)

Module ModFacts.
Local Open Scope Q_scope.
Import PyFloat PyFloatFacts.

Lemma Qfloor_unique (x : Q) (k : Z) :
  inject_Z k <= x -> x < inject_Z k + 1 -> Qfloor x = k.
Proof.
  intros Hlo Hhi.
  pose proof (Qfloor_le x) as H1. pose proof (Qlt_floor x) as H2.
  rewrite inject_Z_plus in H2. change (inject_Z 1) with 1 in H2.
  assert (Ha : inject_Z (Qfloor x) < inject_Z (k + 1))
    by (rewrite inject_Z_plus; change (inject_Z 1) with 1; lraQ).
  assert (Hb : inject_Z k < inject_Z (Qfloor x + 1))
    by (rewrite inject_Z_plus; change (inject_Z 1) with 1; lraQ).
  rewrite <- Zlt_Qlt in Ha, Hb. lia.
Qed.

(** The modulo differs from its argument by a whole number of divisors. *)
Lemma fmod_val_congruent (x c : Q) :
  fmod_val x c == x - inject_Z (Qfloor (x / c)) * c.
Proof. unfold fmod_val. ring. Qed.

(** A value already in [[0, c)] is its own modulo. *)
Lemma fmod_val_small (x c : Q) : 0 <= x -> x < c -> fmod_val x c == x.
Proof.
  intros Hx Hc. unfold fmod_val.
  assert (Hf : Qfloor (x / c) = 0%Z).
  { apply Qfloor_unique.
    - change (inject_Z 0) with 0. apply Qle_shift_div_l; lraQ.
    - change (inject_Z 0) with 0. apply Qlt_shift_div_r; lraQ. }
  rewrite Hf. change (inject_Z 0) with 0. ring.
Qed.

(** A value in [[-c, 0)] is brought back by one divisor. *)
Lemma fmod_val_negative (x c : Q) : - c <= x -> x < 0 -> fmod_val x c == x + c.
Proof.
  intros Hx Hc. unfold fmod_val.
  assert (Hf : Qfloor (x / c) = (-1)%Z).
  { apply Qfloor_unique.
    - change (inject_Z (-1)) with (- (1)). apply Qle_shift_div_l; lraQ.
    - change (inject_Z (-1)) with (- (1)). apply Qlt_shift_div_r; lraQ. }
  rewrite Hf. change (inject_Z (-1)) with (- (1)). ring.
Qed.

(** Adding one divisor does not change the modulo. *)
Lemma fmod_val_period (x c : Q) : 0 < c -> fmod_val (x + c) c == fmod_val x c.
Proof.
  intros Hc. unfold fmod_val.
  assert (Hf : Qfloor ((x + c) / c) = (Qfloor (x / c) + 1)%Z).
  { assert (E : (x + c) / c == x / c + 1) by (field; lraQ).
    rewrite (Qfloor_comp _ _ E). apply Qfloor_unique.
    - rewrite inject_Z_plus. change (inject_Z 1) with 1.
      pose proof (Qfloor_le (x / c)). lraQ.
    - rewrite inject_Z_plus. change (inject_Z 1) with 1.
      pose proof (Qlt_floor (x / c)) as H. rewrite inject_Z_plus in H.
      change (inject_Z 1) with 1 in H. lraQ. }
  rewrite Hf, inject_Z_plus. change (inject_Z 1) with 1. ring.
Qed.

End ModFacts.

(** ** Running the monad *)

Module MonadFacts.

Lemma run_bind {S A B'} (m : M S A) (k : A -> M S B') (s : S) :
  (m ≫= k) s =
    match m s with
    | (Ok a, s1) => k a s1
    | (Raise e, s1) => (Raise e, s1)
    | (Diverge, s1) => (Diverge, s1)
    end.
Proof. reflexivity. Qed.

Section Sending.
Context {num arg W I : Type} {D : Driver num W}.
Abbreviation St := (sys num arg W I).

(** A call that is issued and waited for at once. *)
Lemma send_run {A} (c : call num) (k : unit -> M St A) (s : St) :
  (issue c ≫= λ f, fresult f ≫= k) s =
    let s1 := mk_sys (snd (await c (world s))) (trace s ++ [c]) (queue s) (this s) in
    match fst (await c (world s)) with
    | None => k tt s1
    | Some e => (Raise e, s1)
    end.
Proof.
  unfold mbind, M_bind, issue, fresult. cbv beta iota zeta.
  cbn [world trace queue this].
  destruct (await c (world s)) as [[e|] w]; reflexivity.
Qed.

Lemma send_last (c : call num) (s : St) :
  (issue c ≫= λ f, fresult f) s =
    (match fst (await c (world s)) with None => Ok tt | Some e => Raise e end,
     mk_sys (snd (await c (world s))) (trace s ++ [c]) (queue s) (this s)).
Proof.
  unfold mbind, M_bind, issue, fresult. cbv beta iota zeta.
  cbn [world trace queue this].
  destruct (await c (world s)) as [[e|] w]; reflexivity.
Qed.

End Sending.

End MonadFacts.

(** ** RotationActuator: shortest moves and reference runs *)

Module RotationMoveFacts.
Local Open Scope Q_scope.
Import PyFloat PyFloatFacts ModFacts MonadFacts RotationActuator RotationMoves SpecMoves.


(** X1: the move returned brings the axis onto the target, up to a whole
    number of cycles. *)
Theorem findShortestMove_lands (self : t) (cur target : Q) :
  0 < _cycle self ->
  exists m k,
    _findShortestMove self cur target = Ok (m, cur) /\
    cur + m == target + inject_Z k * _cycle self.
Proof.
  intros Hc. rewrite RotationFacts.findShortestMove_value by exact Hc. cbv zeta.
  destruct (Qlt_le_dec _ _) as [Hlt|Hge].
  - eexists. exists (- Qfloor ((target - cur) / _cycle self))%Z.
    split; [reflexivity|]. rewrite fmod_val_congruent, inject_Z_opp. ring.
  - eexists. exists (Qfloor (- (target - cur) / _cycle self)).
    split; [reflexivity|]. rewrite fmod_val_congruent. ring.
Qed.

Lemma findShortestMove_lands_witness :
  exists m k,
    _findShortestMove Scenarios.rot_2pi (1 # 10) (62 # 10) = Ok (m, 1 # 10) /\
    (1 # 10) + m == (62 # 10) + inject_Z k * two_pi.
Proof. apply (findShortestMove_lands Scenarios.rot_2pi (1 # 10) (62 # 10)). reflexivity. Defined.

(** X2: a displacement shorter than half a cycle is kept as it is, while a
    displacement of one whole cycle gives no move at all. *)
Theorem findShortestMove_small_or_full_turn (self : t) (cur d : Q) :
  0 < _cycle self ->
  exists m,
    _findShortestMove self cur (cur + d) = Ok (m, cur) /\
    (- (_cycle self / 2) < d -> d < _cycle self / 2 -> m == d) /\
    (d == _cycle self -> m == 0).
Proof.
  intros Hc. rewrite RotationFacts.findShortestMove_value by exact Hc. cbv zeta.
  set (c := _cycle self) in *.
  assert (Hhalf : c / 2 == c * (1 # 2)) by field.
  assert (E1 : fmod_val (cur + d - cur) c == fmod_val d c)
    by (apply RotationFacts.fmod_val_comp; ring).
  assert (E2 : fmod_val (- (cur + d - cur)) c == fmod_val (- d) c)
    by (apply RotationFacts.fmod_val_comp; ring).
  eexists. split; [reflexivity|]. split.
  - intros Hlo Hhi. rewrite Hhalf in Hlo, Hhi.
    destruct (Qlt_le_dec d 0) as [Hneg|Hpos].
    + assert (M1 : fmod_val d c == d + c) by (apply fmod_val_negative; lraQ).
      assert (M2 : fmod_val (- d) c == - d) by (apply fmod_val_small; lraQ).
      destruct (Qlt_le_dec _ _); lraQ.
    + assert (M1 : fmod_val d c == d) by (apply fmod_val_small; lraQ).
      destruct (Qeq_dec d 0) as [Hz|Hnz].
      * assert (M2 : fmod_val (- d) c == 0)
          by (rewrite (RotationFacts.fmod_val_comp (- d) 0 c) by lraQ;
              apply fmod_val_small; lraQ).
        destruct (Qlt_le_dec _ _); lraQ.
      * assert (M2 : fmod_val (- d) c == - d + c) by (apply fmod_val_negative; lraQ).
        destruct (Qlt_le_dec _ _); lraQ.
  - intros Hd.
    assert (M1 : fmod_val d c == 0).
    { rewrite (RotationFacts.fmod_val_comp d (0 + c) c) by lraQ.
      rewrite fmod_val_period by exact Hc. apply fmod_val_small; lraQ. }
    assert (M2 : fmod_val (- d) c == 0).
    { rewrite fmod_val_negative by lraQ. lraQ. }
    destruct (Qlt_le_dec _ _); lraQ.
Qed.

Lemma findShortestMove_small_or_full_turn_witness :
  exists m,
    _findShortestMove Scenarios.rot_2pi (1 # 10) ((1 # 10) + two_pi) = Ok (m, 1 # 10) /\
    m == 0.
Proof.
  destruct (findShortestMove_small_or_full_turn Scenarios.rot_2pi (1 # 10) two_pi)
    as (m & E & _ & Hfull); [reflexivity|].
  exists m. split; [exact E|]. apply Hfull. reflexivity.
Defined.

Section WithDriver.
Context {W : Type} {D : Driver Q W}.
Abbreviation St := (sys Q Q W t).



(** X3: the position reported is not negative, does not exceed the cycle,
    and differs from the corrected position of the dependency by a whole
    number of cycles.  (In exact arithmetic the remainder stays below the
    cycle; the remainder of doubles can round up to the cycle itself, which
    is why the upper bound is not stated as strict.) *)
Theorem updatePosition_in_range (s : St) (v : Q) :
  0 < _cycle (this s) ->
  getitem (position dep (world s)) (_caxis (this s)) = Ok v ->
  exists p k,
    _updatePosition s = (Ok [(_axis (this s), p)], s) /\
    0 <= p /\ p <= _cycle (this s) /\
    p == v - _pos_cor (this s) - inject_Z k * _cycle (this s).
Proof.
  intros Hc Hv. unfold _updatePosition.
  unfold mbind, M_bind, get_self, dep_position, lift, mret, M_ret. cbv beta iota.
  rewrite Hv. rewrite fmod_nonzero by lraQ.
  eexists. exists (Qfloor ((v - _pos_cor (this s)) / _cycle (this s))).
  split; [reflexivity|].
  destruct (fmod_val_range (v - _pos_cor (this s)) (_cycle (this s)) Hc) as [Hlo Hhi].
  split; [exact Hlo|]. split; [apply Qlt_le_weak; exact Hhi|].
  apply fmod_val_congruent.
Qed.


End WithDriver.

Lemma updatePosition_in_range_witness :
  let s := mk_sys tt [] [] Scenarios.rot_2pi in
  exists p k,
    _updatePosition (D := Scenarios.blind_sensor 7) s = (Ok [("rz"%string, p)], s) /\
    0 <= p /\ p <= two_pi /\ p == 7 - 0 - inject_Z k * two_pi.
Proof.
  intros s.
  apply (updatePosition_in_range (D := Scenarios.blind_sensor 7) s 7);
    reflexivity.
Defined.


End RotationMoveFacts.

(** ** FixedPositionsActuator: the move body *)

Module FixedPositionsMoveFacts.
Local Open Scope Q_scope.
Import PyFloat PyFloatFacts ModFacts MonadFacts FixedPositionsActuator FixedPositionsMoves.

Section WithDriver.
Context {W : Type} {D : Driver Q W}.
Abbreviation St := (sys Q Q W obj).

Ltac break_match :=
  match goal with
  | |- context [match ?x with _ => _ end] =>
      lazymatch x with
      | context [match _ with _ => _ end] => fail
      | _ => destruct x eqn:?
      end
  end.

(** The callback only stores the position received. *)
Lemma update_dep_position_run (s : St) :
  _update_dep_position s =
    match dict_get (_caxis (fields (this s))) (position dep (world s)) with
    | None => (Raise KeyError, s)
    | Some v =>
        match _cycle (fields (this s)) with
        | Some c =>
            if Qeq_bool c 0 then (Raise ZeroDivisionError, s)
            else (Ok tt, mk_sys (world s) (trace s) (queue s)
                           (set_position (fmod_val v c) (this s)))
        | None =>
            (Ok tt, mk_sys (world s) (trace s) (queue s) (set_position v (this s)))
        end
    end.
Proof.
  unfold _update_dep_position.
  unfold mbind, M_bind, get_self, put_self, dep_position, lift, mret, M_ret, getitem.
  cbv beta iota.
  destruct (dict_get (_caxis (fields (this s))) (position dep (world s))) as [v|];
    [|reflexivity].
  destruct (_cycle (fields (this s))) as [c|]; [|reflexivity].
  unfold fmod. destruct (Qeq_bool c 0); reflexivity.
Qed.

(** What the [finally] block makes of the outcome of the [try] block. *)
Lemma finally_resubscribe {A} (body : M St A) (s : St) :
  let b := body s in
  let run := try_finally body resubscribe s in
  fst b <> Diverge ->
  trace (snd run) = trace (snd b) /\
  world (snd run) = world (snd b) /\
  queue (snd run) = queue (snd b) /\
  fields (this (snd run)) = fields (this (snd b)) /\
  _offset (this (snd run)) = _offset (this (snd b)) /\
  subscribed (this (snd run)) = true /\
  match dict_get (_caxis (fields (this (snd b)))) (position dep (world (snd b))) with
  | None => fst run = Raise KeyError /\ _position (this (snd run)) = _position (this (snd b))
  | Some v =>
      match _cycle (fields (this (snd b))) with
      | Some c =>
          if Qeq_bool c 0
          then fst run = Raise ZeroDivisionError /\
               _position (this (snd run)) = _position (this (snd b))
          else fst run = fst b /\ _position (this (snd run)) = Some (fmod_val v c)
      | None => fst run = fst b /\ _position (this (snd run)) = Some v
      end
  end.
Proof.
  intros b run Hnd. subst run. unfold try_finally. fold b.
  destruct b as [r s1]. cbn [fst snd] in *.
  assert (E : resubscribe s1 =
              _update_dep_position
                (mk_sys (world s1) (trace s1) (queue s1) (set_subscribed true (this s1))))
    by reflexivity.
  rewrite E, update_dep_position_run.
  cbn [world trace queue this fields set_subscribed].
  destruct (dict_get _ (position dep (world s1))) as [v|].
  - destruct (_cycle (fields (this s1))) as [c|].
    + destruct (Qeq_bool c 0); destruct r; try congruence; cbn; repeat split; reflexivity.
    + destruct r; try congruence; cbn; repeat split; reflexivity.
  - destruct r; try congruence; cbn; repeat split; reflexivity.
Qed.

(** The [try] block always returns or raises. *)
Lemma move_body_returns (distance : Q) (s : St) : fst (move_body distance s) <> Diverge.
Proof.
  unfold move_body, cyclic_move.
  unfold mbind, M_bind, result_bind, get_self, put_self, dep_position, lift, issue,
    fresult, mret, M_ret, fmod, getitem.
  cbv beta iota zeta. cbn [this world trace queue fields subscribed set_subscribed set_move_sum].
  repeat (break_match; cbn [this world trace queue fields subscribed set_subscribed set_move_sum fst snd] in *;
          try discriminate; try congruence).
Qed.

(** The [try] block leaves the axis of the dependency and the cycle as they
    are. *)
Lemma move_body_fields (distance : Q) (s : St) :
  _caxis (fields (this (snd (move_body distance s)))) = _caxis (fields (this s)) /\
  _cycle (fields (this (snd (move_body distance s)))) = _cycle (fields (this s)).
Proof.
  unfold move_body, cyclic_move.
  unfold mbind, M_bind, result_bind, get_self, put_self, dep_position, lift, issue,
    fresult, mret, M_ret, fmod, getitem.
  cbv beta iota zeta.
  cbn [this world trace queue fields subscribed set_subscribed set_move_sum].
  repeat (break_match;
          cbn [this world trace queue fields subscribed set_subscribed set_move_sum
               fst snd _caxis _cycle] in *;
          try (split; congruence)).
Qed.

(** X5: when the body of the move is left, by its end or by an exception,
    the position of the dependency is subscribed again and, the
    subscription asking for it, read at once.  The calls made and the state
    of the hardware are those of the [try] block.  A position that lacks
    the axis makes the move end with [KeyError], and a cycle of zero with
    [ZeroDivisionError], whatever the [try] block did; otherwise the outcome
    is that of the [try] block and the position received, reduced modulo
    the cycle on a cyclic axis, is stored. *)
Theorem doMoveAbs_resubscribes (first : string * Q) (rest : dict Q) (s : St) :
  let b := move_body (snd first) s in
  let run := _doMoveAbs first rest s in
  subscribed (this (snd run)) = true /\
  fst run <> Diverge /\
  trace (snd run) = trace (snd b) /\
  world (snd run) = world (snd b) /\
  match dict_get (_caxis (fields (this s))) (position dep (world (snd b))) with
  | None => fst run = Raise KeyError
  | Some v =>
      match _cycle (fields (this s)) with
      | Some c =>
          if Qeq_bool c 0 then fst run = Raise ZeroDivisionError
          else fst run = fst b /\ _position (this (snd run)) = Some (fmod_val v c)
      | None => fst run = fst b /\ _position (this (snd run)) = Some v
      end
  end.
Proof.
  intros b run.
  pose proof (move_body_returns (snd first) s) as Hnd. fold b in Hnd.
  destruct (finally_resubscribe (move_body (snd first)) s Hnd)
    as (Ht & Hw & _ & _ & _ & Hsub & Hcb).
  fold b in Ht, Hw, Hsub, Hcb.
  change (try_finally (move_body (snd first)) resubscribe s) with run in Ht, Hw, Hsub, Hcb.
  destruct (move_body_fields (snd first) s) as [Hca Hcy]. fold b in Hca, Hcy.
  rewrite Hca, Hcy in Hcb.
  split; [exact Hsub|]. split.
  { destruct (dict_get _ (position dep (world (snd b)))) as [v|].
    - destruct (_cycle (fields (this s))) as [c|].
      + destruct (Qeq_bool c 0); destruct Hcb as [-> _]; [discriminate|exact Hnd].
      + destruct Hcb as [-> _]. exact Hnd.
    - destruct Hcb as [-> _]. discriminate. }
  split; [exact Ht|]. split; [exact Hw|].
  destruct (dict_get _ (position dep (world (snd b)))) as [v|].
  - destruct (_cycle (fields (this s))) as [c|].
    + destruct (Qeq_bool c 0); [destruct Hcb as [-> _]; reflexivity|exact Hcb].
    + exact Hcb.
  - destruct Hcb as [-> _]. reflexivity.
Qed.



End WithDriver.


End FixedPositionsMoveFacts.

(** ** LinearActuator: periodic referencing and the offset *)

Module LinearMoveFacts.
Local Open Scope Q_scope.
Import MonadFacts LinearActuator LinearMoves SpecMoves.

Section WithDriver.
Context {W : Type} {D : Driver Q W}.
Abbreviation St := (sys Q Q W obj).

(** X7: with a period of [n] moves, a call that finds at most [n] moves
    counted and succeeds leaves at most [n] counted: below [n] it only
    counts the move, at [n] it moves to the reference start, runs the
    reference and restarts the count; without a period, or with a period of
    zero, it only counts. *)
Theorem referenceIfNeeded_period (s : St) :
  let o := this s in
  let k := _move_num (fields o) in
  let run := _referenceIfNeeded s in
  (forall n,
     _ref_period o = Some n -> (0 < n)%nat -> (k <= n)%nat -> fst run = Ok tt ->
     (_move_num (fields (this (snd run))) <= n)%nat /\
     ((k < n)%nat ->
        trace (snd run) = trace s /\ _move_num (fields (this (snd run))) = S k) /\
     (k = n ->
        trace (snd run) = trace s ++ reference_run o /\
        _move_num (fields (this (snd run))) = 0%nat)) /\
  (_ref_period o = None \/ _ref_period o = Some 0%nat ->
   run = (Ok tt, mk_sys (world s) (trace s) (queue s) (set_move_num (S k) o))).
Proof.
  intros o k run. split.
  - intros n Hp Hn Hk Hok.
    assert (Hrun : run = _referenceIfNeeded s) by reflexivity. clearbody run.
    unfold _referenceIfNeeded in Hrun.
    rewrite run_bind in Hrun. unfold get_self at 1 in Hrun. cbv beta iota in Hrun.
    rewrite run_bind in Hrun. unfold put_self at 1 in Hrun. cbv beta iota in Hrun.
    rewrite run_bind in Hrun. unfold get_self at 1 in Hrun. cbv beta iota in Hrun.
    cbn [this world trace queue] in Hrun. fold o in Hrun.
    unfold reference_due in Hrun.
    cbn [_ref_period set_move_num fields _move_num _caxis _offset _ref_start] in Hrun.
    fold k in Hrun. rewrite Hp in Hrun.
    destruct n as [|n]; [lia|].
    destruct (Nat.ltb (S n) (S k)) eqn:Hdue.
    + apply Nat.ltb_lt in Hdue. assert (k = S n) by lia.
      rewrite send_run in Hrun. cbv zeta in Hrun. cbn [world trace queue this] in Hrun.
      revert Hrun Hok. destruct (await _ (world s)) as [[e1|] w1]; cbn [fst snd];
        intros Hrun Hok; [subst run; discriminate|].
      rewrite send_run in Hrun. cbv zeta in Hrun. cbn [world trace queue this] in Hrun.
      revert Hrun Hok. destruct (await _ w1) as [[e2|] w2]; cbn [fst snd];
        intros Hrun Hok; [subst run; discriminate|].
      rewrite run_bind in Hrun. unfold get_self at 1 in Hrun. cbv beta iota in Hrun.
      unfold put_self in Hrun. subst run. cbn.
      split; [lia|]. split; [lia|]. intros _.
      split; [rewrite <- app_assoc; reflexivity|reflexivity].
    + apply Nat.ltb_ge in Hdue. subst run. cbn.
      split; [lia|]. split; [intros _; split; reflexivity|lia].
  - intros Hp. subst run. unfold _referenceIfNeeded.
    rewrite run_bind. unfold get_self at 1. cbv beta iota.
    rewrite run_bind. unfold put_self at 1. cbv beta iota.
    rewrite run_bind. unfold get_self at 1. cbv beta iota.
    cbn [this world trace queue]. fold o. unfold reference_due.
    cbn [_ref_period set_move_num]. destruct Hp as [-> | ->]; reflexivity.
Qed.

(** The reference run leaves the names and the offset of the axis alone. *)
Lemma referenceIfNeeded_frame (s : St) (run : result unit * St) :
  run = _referenceIfNeeded s ->
  exists pre,
    trace (snd run) = trace s ++ pre /\
    _axis (fields (this (snd run))) = _axis (fields (this s)) /\
    _caxis (fields (this (snd run))) = _caxis (fields (this s)) /\
    _offset (fields (this (snd run))) = _offset (fields (this s)).
Proof.
  intros Hrun. unfold _referenceIfNeeded in Hrun.
  rewrite run_bind in Hrun. unfold get_self at 1 in Hrun. cbv beta iota in Hrun.
  rewrite run_bind in Hrun. unfold put_self at 1 in Hrun. cbv beta iota in Hrun.
  rewrite run_bind in Hrun. unfold get_self at 1 in Hrun. cbv beta iota in Hrun.
  cbn [this world trace queue] in Hrun.
  destruct (reference_due _).
  - rewrite send_run in Hrun. cbv zeta in Hrun. cbn [world trace queue this] in Hrun.
    revert Hrun. destruct (await _ (world s)) as [[e1|] w1]; cbn [fst snd]; intros Hrun.
    { subst run. eexists. cbn. repeat split; reflexivity. }
    rewrite send_run in Hrun. cbv zeta in Hrun. cbn [world trace queue this] in Hrun.
    revert Hrun. destruct (await _ w1) as [[e2|] w2]; cbn [fst snd]; intros Hrun.
    { subst run. eexists. cbn. rewrite <- app_assoc. repeat split; reflexivity. }
    rewrite run_bind in Hrun. unfold get_self at 1 in Hrun. cbv beta iota in Hrun.
    unfold put_self in Hrun. subst run.
    eexists. cbn. rewrite <- app_assoc. repeat split; reflexivity.
  - subst run. exists []. cbn. rewrite app_nil_r. repeat split; reflexivity.
Qed.

(** X8: an absolute move that succeeds ends with an absolute move of the
    dependency to the requested position plus the offset, and reading that
    position back through [_update_dep_position] reports that sum minus the
    offset: the requested position again, exactly in exact arithmetic and
    up to the rounding of the addition and the subtraction on doubles. *)
Theorem doMoveAbs_offset_round_trip (first : string * Q) (rest : dict Q) (s : St) :
  let self := fields (this s) in
  let sent := [(_caxis self, snd first + _offset self)] in
  let run := _doMoveAbs first rest s in
  fst run = Ok tt ->
  exists pre,
    trace (snd run) = trace s ++ pre ++ [MoveAbs dep sent] /\
    _update_dep_position (this s) sent =
      Ok [(_axis self, snd first + _offset self - _offset self)] /\
    snd first + _offset self - _offset self == snd first.
Proof.
  intros self sent run Hok.
  assert (Hrun : run = _doMoveAbs first rest s) by reflexivity. clearbody run.
  unfold _doMoveAbs in Hrun. rewrite run_bind in Hrun.
  destruct (referenceIfNeeded_frame s _ eq_refl) as (pre & Ht & Ha & Hca & Hoff).
  revert Hrun. destruct (_referenceIfNeeded s) as [[[]|e|] s1]; cbn [fst snd] in *;
    intros Hrun; try (subst run; discriminate).
  rewrite run_bind in Hrun. unfold get_self at 1 in Hrun. cbv beta iota zeta in Hrun.
  rewrite send_last in Hrun. subst run. cbn [fst snd trace] in *.
  rewrite Hca, Hoff, Ht.
  exists pre.
  split; [rewrite <- app_assoc; reflexivity|]. split.
  - unfold _update_dep_position, getitem, sent. cbn [dict_get].
    rewrite String.eqb_refl. reflexivity.
  - ring.
Qed.

End WithDriver.

Lemma referenceIfNeeded_period_witness :
  let s := mk_sys tt [] [] (MoveScenarios.rail 3) in
  let run := _referenceIfNeeded (D := Scenarios.still_driver) s in
  trace (snd run) = [] ++ reference_run (MoveScenarios.rail 3) /\
  _move_num (fields (this (snd run))) = 0%nat.
Proof.
  intros s run.
  destruct (referenceIfNeeded_period (D := Scenarios.still_driver) s) as [Hper _].
  destruct (Hper 3%nat) as (_ & _ & Hdue); try reflexivity; try lia.
  apply Hdue. reflexivity.
Defined.

Lemma doMoveAbs_offset_round_trip_witness :
  let s := mk_sys tt [] [] (MoveScenarios.rail 0) in
  let run := _doMoveAbs (D := Scenarios.still_driver) ("z"%string, 5) [] s in
  exists pre,
    trace (snd run) = [] ++ pre ++ [MoveAbs dep [("x"%string, 5 + 2)]] /\
    _update_dep_position (MoveScenarios.rail 0) [("x"%string, 5 + 2)] =
      Ok [("z"%string, 5 + 2 - 2)] /\
    5 + 2 - 2 == 5.
Proof.
  intros s run.
  apply (doMoveAbs_offset_round_trip (D := Scenarios.still_driver) ("z"%string, 5) [] s).
  reflexivity.
Defined.

End LinearMoveFacts.

(** ** MultiplexActuator: grouping and sending the moves *)

Module MultiplexMoveFacts.
Local Open Scope Q_scope.
Import MonadFacts MultiplexActuator MultiplexMoves SpecMoves.

Lemma dict_set_keys_nodup {A} (k : string) (v : A) (d : dict A) :
  List.NoDup (dict_keys d) -> List.NoDup (dict_keys (dict_set k v d)).
Proof.
  induction d as [|[k' v'] d IH]; cbn; intros Hnd.
  - constructor; [intros []|constructor].
  - apply NoDup_cons_iff in Hnd. destruct Hnd as [Hfresh Hnd].
    destruct (String.eqb_spec k k') as [->|Hne]; cbn.
    + constructor; assumption.
    + constructor; [|apply IH; exact Hnd].
      intros Hin. apply Hfresh. clear IH Hnd Hfresh.
      induction d as [|[k0 v0] d IH]; cbn in *.
      * destruct Hin as [E|[]]. congruence.
      * destruct (String.eqb_spec k k0) as [->|Hne0]; cbn in Hin.
        -- exact Hin.
        -- destruct Hin as [E|Hin]; [left; exact E|right; apply IH; exact Hin].
Qed.

Lemma dict_set_in {A} (k k' : string) (v v' : A) (d : dict A) :
  In (k', v') (dict_set k v d) -> (k' = k /\ v' = v) \/ In (k', v') d.
Proof.
  induction d as [|[k0 v0] d IH]; cbn.
  - intros [E|[]]. inversion E. left. split; reflexivity.
  - destruct (String.eqb_spec k k0) as [->|Hne]; cbn.
    + intros [E|Hin]; [inversion E; left; split; reflexivity|right; right; exact Hin].
    + intros [E|Hin]; [right; left; exact E|].
      destruct (IH Hin) as [H|H]; [left; exact H|right; right; exact H].
Qed.

Lemma dict_set_nonempty {A} (k : string) (v : A) (d : dict A) : dict_set k v d <> [].
Proof. destruct d as [|[k' v'] d]; cbn; [|destruct (String.eqb k k')]; discriminate. Qed.

Lemma dict_get_in {A} (k : string) (v : A) (d : dict A) :
  dict_get k d = Some v -> In (k, v) d.
Proof.
  induction d as [|[k' v'] d IH]; cbn; [discriminate|].
  destruct (String.eqb_spec k k') as [->|Hne].
  - intros E. inversion E. left. reflexivity.
  - intros E. right. apply IH. exact E.
Qed.

(** One turn of the grouping loop changes the value held for its own target
    and for no other. *)
Lemma dep_lookup_step (dep0 da0 dep da : string) (d : Q) (acc : dict (dict Q)) :
  let move := match dict_get dep0 acc with Some m => m | None => [] end in
  dep_lookup dep da (dict_set dep0 (dict_set da0 d move) acc) =
    if bool_decide ((dep0, da0) = (dep, da)) then Some d else dep_lookup dep da acc.
Proof.
  intros move. unfold dep_lookup.
  destruct (decide (dep0 = dep)) as [->|Hdep].
  - rewrite dict_get_set_eq.
    destruct (decide (da0 = da)) as [->|Hda].
    + rewrite bool_decide_eq_true_2 by reflexivity. apply dict_get_set_eq.
    + rewrite bool_decide_eq_false_2 by congruence.
      rewrite dict_get_set_ne by exact Hda.
      subst move. destruct (dict_get dep acc); reflexivity.
  - rewrite bool_decide_eq_false_2 by congruence.
    rewrite dict_get_set_ne by exact Hdep. reflexivity.
Qed.

(** The grouping loop from any table built so far. *)
Lemma moveTodepMove_from (self : t) (mv : dict Q) :
  forall acc cmv,
    List.NoDup (map (fun ad => _axis_to_dep self !! fst ad) mv) ->
    _moveTodepMove self mv acc = Ok cmv ->
    List.NoDup (dict_keys acc) ->
    (forall dep move, In (dep, move) acc -> move <> []) ->
    List.NoDup (dict_keys cmv) /\
    (forall dep move, In (dep, move) cmv -> move <> []) /\
    (forall dep da d,
       dep_lookup dep da cmv = Some d <->
       (exists axis, In (axis, d) mv /\ _axis_to_dep self !! axis = Some (dep, da)) \/
       (dep_lookup dep da acc = Some d /\
        forall axis, In axis (dict_keys mv) ->
                     _axis_to_dep self !! axis <> Some (dep, da))).
Proof.
  induction mv as [|[axis0 d0] rest IH]; intros acc cmv Hinj Hrun Hnd Hne.
  - cbn in Hrun. inversion Hrun; subst cmv. split; [exact Hnd|]. split; [exact Hne|].
    intros dep da d. split.
    + intros H. right. split; [exact H|]. intros axis [].
    + intros [(axis & [] & _)|[H _]]. exact H.
  - cbn [_moveTodepMove] in Hrun. cbn [map fst] in Hinj.
    apply NoDup_cons_iff in Hinj. destruct Hinj as [Hfresh Hinj].
    destruct (_axis_to_dep self !! axis0) as [[dep0 da0]|] eqn:Hax; [|discriminate].
    set (move := match dict_get dep0 acc with Some m => m | None => [] end) in Hrun.
    destruct (IH _ _ Hinj Hrun) as (Hk & Hm & Hl).
    { apply dict_set_keys_nodup. exact Hnd. }
    { intros dep m Hin. apply dict_set_in in Hin. destruct Hin as [[_ ->]|Hin].
      - apply dict_set_nonempty.
      - exact (Hne _ _ Hin). }
    split; [exact Hk|]. split; [exact Hm|].
    intros dep da d. rewrite Hl. clear Hl. subst move. rewrite dep_lookup_step.
    assert (Hrest : forall axis, In axis (dict_keys rest) ->
                      _axis_to_dep self !! axis <> Some (dep0, da0)).
    { intros axis Hin E. apply Hfresh. apply in_map_iff.
      unfold dict_keys in Hin. apply in_map_iff in Hin.
      destruct Hin as (ad & <- & Hin). exists ad. split; [exact E|exact Hin]. }
    split.
    + intros [(axis & Hin & E)|[Hacc Hno]].
      * left. exists axis. split; [right; exact Hin|exact E].
      * destruct (decide ((dep0, da0) = (dep, da))) as [Heq|Hneq].
        -- rewrite bool_decide_eq_true_2 in Hacc by exact Heq.
           inversion Hacc; subst d. left. exists axis0.
           split; [left; reflexivity|]. rewrite Hax, Heq. reflexivity.
        -- rewrite bool_decide_eq_false_2 in Hacc by exact Hneq.
           right. split; [exact Hacc|]. intros axis [E|Hin].
           ++ subst axis. cbn [fst]. rewrite Hax. congruence.
           ++ apply Hno. exact Hin.
    + intros [(axis & [E|Hin] & Hmap)|[Hacc Hno]].
      * inversion E; subst axis d. rewrite Hax in Hmap. inversion Hmap; subst dep da.
        right. rewrite bool_decide_eq_true_2 by reflexivity.
        split; [reflexivity|exact Hrest].
      * left. exists axis. split; [exact Hin|exact Hmap].
      * right. rewrite bool_decide_eq_false_2.
        -- split; [exact Hacc|]. intros axis Hin. apply Hno. right. exact Hin.
        -- intros E. apply (Hno axis0); [left; reflexivity|]. rewrite Hax, E. reflexivity.
Qed.

(** X9: when the requested axes are distinct axes of the dependencies, the
    grouping of a move by dependency loses nothing and invents nothing: each
    dependency appears once, with a move that is not empty, and an axis of a
    dependency gets the value [d] exactly when the request holds [d] for the
    axis of the actuator mapped to it. *)
Theorem moveTodepMove_groups (self : t) (mv : dict Q) (cmv : dict (dict Q)) :
  List.NoDup (map (fun ad => _axis_to_dep self !! fst ad) mv) ->
  _moveTodepMove self mv [] = Ok cmv ->
  List.NoDup (dict_keys cmv) /\
  (forall dep move, In (dep, move) cmv -> move <> []) /\
  (forall dep da d,
     dep_lookup dep da cmv = Some d <->
     exists axis, In (axis, d) mv /\ _axis_to_dep self !! axis = Some (dep, da)).
Proof.
  intros Hinj Hrun.
  destruct (moveTodepMove_from self mv [] cmv Hinj Hrun) as (Hk & Hm & Hl).
  - constructor.
  - intros dep move [].
  - split; [exact Hk|]. split; [exact Hm|].
    intros dep da d. rewrite Hl. split.
    + intros [H|[H _]]; [exact H|discriminate].
    + intros H. left. exact H.
Qed.

Lemma moveTodepMove_groups_witness :
  exists cmv,
    _moveTodepMove MoveScenarios.xyz [("z"%string, 3); ("x"%string, 1); ("y"%string, 2)] []
      = Ok cmv /\
    dep_lookup "stage" "b" cmv = Some 2 /\ dep_lookup "focus" "z" cmv = Some 3.
Proof.
  eexists. split; [vm_compute; reflexivity|].
  pose proof (moveTodepMove_groups MoveScenarios.xyz
                [("z"%string, 3); ("x"%string, 1); ("y"%string, 2)] _
                ltac:(vm_compute; repeat constructor; cbn; intuition congruence)
                ltac:(vm_compute; reflexivity)) as (_ & _ & Hl).
  split; apply Hl.
  - exists "y"%string. split; [cbn; auto|vm_compute; reflexivity].
  - exists "z"%string. split; [cbn; auto|vm_compute; reflexivity].
Defined.

Lemma moveTodepMove_unknown (self : t) (mv : dict Q) (axis : string) :
  In axis (dict_keys mv) -> _axis_to_dep self !! axis = None ->
  forall acc, _moveTodepMove self mv acc = Raise KeyError.
Proof.
  intros Hin Hax. induction mv as [|[a d] rest IH]; [destruct Hin|].
  intros acc. cbn [_moveTodepMove].
  destruct Hin as [E|Hin].
  - cbn in E. subst a. rewrite Hax. reflexivity.
  - destruct (_axis_to_dep self !! a) as [[dep da]|]; [|reflexivity].
    apply IH. exact Hin.
Qed.

Section WithDriver.
Context {W : Type} {D : Driver Q W} {R : Refusals Q W}.
Abbreviation St := (sys Q Q W t).

(** X10: a move that names an axis the actuator does not have fails with
    [KeyError] before anything is sent: no dependency receives a partial
    move, whatever the other axes of the request. *)
Theorem doMove_unknown_axis (mv : dict Q) (s : St) (axis : string) :
  In axis (dict_keys mv) -> _axis_to_dep (this s) !! axis = None ->
  _doMoveRel mv s = (Raise KeyError, s) /\ _doMoveAbs mv s = (Raise KeyError, s).
Proof.
  intros Hin Hax.
  unfold _doMoveRel, _doMoveAbs, mbind, M_bind, get_self, lift. cbv beta iota.
  rewrite (moveTodepMove_unknown (this s) mv axis Hin Hax []). split; reflexivity.
Qed.

(** The sending loop when no call is refused: every call is made, and the
    hardware has not been waited for yet. *)
Lemma send_moves_run (send : string -> dict Q -> call Q) (moves : dict (dict Q)) :
  forall (futures : list (call Q)) (s : St),
    let calls := map (fun dm => send (fst dm) (snd dm)) moves in
    Forall (fun c => refuses c (world s) = None) calls ->
    send_moves send moves futures s =
      (Ok (futures ++ calls), mk_sys (world s) (trace s ++ calls) (queue s) (this s)).
Proof.
  induction moves as [|[dep move] rest IH]; intros futures s; cbn [map fst snd].
  - intros _. cbn. rewrite !app_nil_r. destruct s; reflexivity.
  - intros Hall. inversion Hall as [|? ? Hc Hrest]; subst.
    cbn [send_moves]. unfold mbind at 1. unfold M_bind at 1. unfold call_dep at 1.
    cbv beta. rewrite Hc. unfold issue at 1. cbv beta iota.
    rewrite IH by exact Hrest. cbn [world trace queue this].
    rewrite <- !app_assoc. reflexivity.
Qed.

(** The sending loop when a call is refused: the calls before it have been
    made, and its exception ends the loop. *)
Lemma send_moves_refused (send : string -> dict Q -> call Q) (moves : dict (dict Q)) :
  forall (futures : list (call Q)) (s : St) before c after e,
    map (fun dm => send (fst dm) (snd dm)) moves = before ++ c :: after ->
    Forall (fun c => refuses c (world s) = None) before ->
    refuses c (world s) = Some e ->
    send_moves send moves futures s =
      (Raise e, mk_sys (world s) (trace s ++ before) (queue s) (this s)).
Proof.
  induction moves as [|[dep move] rest IH]; intros futures s before c after e Hmap Hacc Href.
  - destruct before; discriminate.
  - cbn [map fst snd] in Hmap. cbn [send_moves].
    unfold mbind at 1. unfold M_bind at 1. unfold call_dep at 1. cbv beta.
    destruct before as [|b before]; cbn [app] in Hmap; inversion Hmap as [[Hhd Htl]].
    + rewrite Hhd, Href. rewrite app_nil_r. destruct s; reflexivity.
    + inversion Hacc as [|? ? Hb Hrest]; subst b.
      rewrite Hb. unfold issue at 1. cbv beta iota.
      rewrite (IH _ _ before c after e Htl); [| exact Hrest | exact Href].
      cbn [world trace queue this]. rewrite <- app_assoc. reflexivity.
Qed.

Lemma wait_all_run (calls : list (call Q)) :
  forall s : St,
    let ff := first_failure calls (world s) in
    wait_all calls s =
      (match fst ff with None => Ok tt | Some e => Raise e end,
       mk_sys (snd ff) (trace s) (queue s) (this s)).
Proof.
  induction calls as [|c rest IH]; intros s.
  - cbn. destruct s; reflexivity.
  - cbn [wait_all first_failure]. unfold mbind at 1. unfold M_bind at 1.
    unfold fresult at 1. cbv beta iota.
    destruct (await c (world s)) as [[e|] w1] eqn:Haw.
    + reflexivity.
    + rewrite IH. reflexivity.
Qed.

(** X11: the body of a move over several dependencies calls the move of
    each dependency, one call per dependency in the order of the grouping,
    before it waits for any of them.  When every call returns a future it
    then waits for the futures in that order and stops at the first that
    fails, whose exception it raises: the failure of a future does not keep
    the other moves from being sent.  When a dependency raises at the call
    itself, the calls before it have been made, none after it is, no future
    is waited for, and that exception is raised. *)
Theorem doMove_sends_all_then_waits (mv : dict Q) (s : St) (cmv : dict (dict Q)) :
  _moveTodepMove (this s) mv [] = Ok cmv ->
  let accepted (c : call Q) := refuses c (world s) = None in
  let outcome (calls : list (call Q)) (run : result unit * St) : Prop :=
    (Forall accepted calls ->
     let ff := first_failure calls (world s) in
     run = (match fst ff with None => Ok tt | Some e => Raise e end,
            mk_sys (snd ff) (trace s ++ calls) (queue s) (this s))) /\
    (forall before c after e,
       calls = before ++ c :: after -> Forall accepted before ->
       refuses c (world s) = Some e ->
       run = (Raise e, mk_sys (world s) (trace s ++ before) (queue s) (this s))) in
  outcome (map (fun dm => MoveRel (fst dm) (snd dm)) cmv) (_doMoveRel mv s) /\
  outcome (map (fun dm => MoveAbs (fst dm) (snd dm)) cmv) (_doMoveAbs mv s).
Proof.
  intros Hcmv accepted outcome.
  assert (Hbody : forall send,
            outcome (map (fun dm => send (fst dm) (snd dm)) cmv)
              ((self ← get_self;
                cmv ← lift (_moveTodepMove self mv []);
                futures ← send_moves send cmv [];
                wait_all futures) s)).
  { intros send. split.
    - intros Hacc ff.
      unfold mbind at 1. unfold M_bind at 1. unfold get_self at 1. cbv beta iota.
      unfold mbind at 1. unfold M_bind at 1. unfold lift at 1. rewrite Hcmv.
      unfold mbind at 1. unfold M_bind at 1. rewrite send_moves_run by exact Hacc.
      cbn [app]. rewrite wait_all_run. reflexivity.
    - intros before c after e Hcalls Hacc Href.
      unfold mbind at 1. unfold M_bind at 1. unfold get_self at 1. cbv beta iota.
      unfold mbind at 1. unfold M_bind at 1. unfold lift at 1. rewrite Hcmv.
      unfold mbind at 1. unfold M_bind at 1.
      rewrite (send_moves_refused send cmv [] s before c after e Hcalls Hacc Href).
      reflexivity. }
  split; [exact (Hbody MoveRel)|exact (Hbody MoveAbs)].
Qed.

End WithDriver.

Lemma doMove_unknown_axis_witness :
  let s := mk_sys tt [] [] MoveScenarios.xyz in
  _doMoveRel (D := Scenarios.still_driver) (R := MoveScenarios.never_refuses)
    [("x"%string, 1); ("w"%string, 2)] s
    = (Raise KeyError, s).
Proof.
  intros s.
  apply (doMove_unknown_axis (D := Scenarios.still_driver)
           (R := MoveScenarios.never_refuses)
           [("x"%string, 1); ("w"%string, 2)] s "w").
  - cbn. auto.
  - vm_compute. reflexivity.
Defined.

Lemma doMove_sends_all_then_waits_witness :
  let s := mk_sys tt [] [] MoveScenarios.xyz in
  let mv := [("z"%string, 3); ("x"%string, 1); ("y"%string, 2)] in
  let failed := _doMoveRel (D := MoveScenarios.failing_focus)
                  (R := MoveScenarios.never_refuses) mv s in
  let refused := _doMoveRel (D := Scenarios.still_driver)
                   (R := MoveScenarios.focus_refuses)
                   [("x"%string, 1); ("z"%string, 3)] s in
  (fst failed = Raise IOError /\
   trace (snd failed) = [MoveRel "focus" [("z"%string, 3)];
                         MoveRel "stage" [("a"%string, 1); ("b"%string, 2)]]) /\
  (fst refused = Raise NotImplementedError /\
   trace (snd refused) = [MoveRel "stage" [("a"%string, 1)]]).
Proof.
  intros s mv failed refused. split.
  - destruct (doMove_sends_all_then_waits (D := MoveScenarios.failing_focus)
                (R := MoveScenarios.never_refuses) mv s
                [("focus"%string, [("z"%string, 3)]);
                 ("stage"%string, [("a"%string, 1); ("b"%string, 2)])]
                ltac:(vm_compute; reflexivity)) as [[Hrel _] _].
    fold failed in Hrel. rewrite Hrel by (repeat constructor).
    split; vm_compute; reflexivity.
  - destruct (doMove_sends_all_then_waits (D := Scenarios.still_driver)
                (R := MoveScenarios.focus_refuses)
                [("x"%string, 1); ("z"%string, 3)] s
                [("stage"%string, [("a"%string, 1)]);
                 ("focus"%string, [("z"%string, 3)])]
                ltac:(vm_compute; reflexivity)) as [[_ Hrel] _].
    fold refused in Hrel.
    rewrite (Hrel [MoveRel "stage" [("a"%string, 1)]]
               (MoveRel "focus" [("z"%string, 3)]) [] NotImplementedError);
      [split; reflexivity|reflexivity|repeat constructor|reflexivity].
Defined.

Lemma moveTodepMove_one_dep (self : t) (dep : string) (mv : dict Q) :
  (forall a, In a (dict_keys mv) -> exists da, _axis_to_dep self !! a = Some (dep, da)) ->
  forall m, exists move, _moveTodepMove self mv [(dep, m)] = Ok [(dep, move)].
Proof.
  induction mv as [|[a d] rest IH]; intros Hall m.
  - exists m. reflexivity.
  - cbn [_moveTodepMove]. destruct (Hall a (or_introl eq_refl)) as [da Hax].
    rewrite Hax. cbn [dict_get dict_set]. rewrite String.eqb_refl.
    apply IH. intros a' Hin. apply Hall. right. exact Hin.
Qed.

Section Direct.
Context {W : Type} {B : ActuatorBase Q t}.

(** X12: an actuator without executor (a single dependency) forwards a
    relative move whose axes all belong to that dependency as one call, made
    at once:
    the future handed back is the dependency's own and nothing is queued. *)
Theorem move_forwarded (shift : dict Q) (s : sys Q Q W t) (dep : string) :
  _executor (this s) = false ->
  shift <> [] ->
  _checkMoveRel (this s) shift = Ok tt ->
  let sh := _applyInversion (this s) shift in
  sh <> [] ->
  (forall a, In a (dict_keys sh) ->
     exists da, _axis_to_dep (this s) !! a = Some (dep, da)) ->
  exists move,
    _moveTodepMove (this s) sh [] = Ok [(dep, move)] /\
    moveRel shift s =
      (Ok (DepFuture (MoveRel dep move)),
       mk_sys (world s) (trace s ++ [MoveRel dep move]) (queue s) (this s)).
Proof.
  intros Hex Hne Hchk sh Hsh Hall.
  assert (Hcmv : exists move, _moveTodepMove (this s) sh [] = Ok [(dep, move)]).
  { destruct sh as [|[a d] rest] eqn:Esh; [congruence|].
    cbn [_moveTodepMove]. destruct (Hall a (or_introl eq_refl)) as [da Hax].
    rewrite Hax. cbn [dict_get dict_set].
    apply moveTodepMove_one_dep. intros a' Hin. apply Hall. right. exact Hin. }
  destruct Hcmv as [move Hcmv]. exists move. split; [exact Hcmv|].
  unfold moveRel. destruct shift as [|kv shift']; [congruence|]. cbn [is_empty].
  unfold mbind at 1. unfold M_bind at 1. unfold get_self at 1. cbv beta iota.
  unfold mbind at 1. unfold M_bind at 1. unfold lift at 1. rewrite Hchk.
  rewrite Hex. fold sh.
  unfold mbind at 1. unfold M_bind at 1. unfold lift at 1. rewrite Hcmv.
  reflexivity.
Qed.

End Direct.

Lemma move_forwarded_witness :
  let s := mk_sys tt [] [] MoveScenarios.single in
  exists move,
    MultiplexActuator.moveRel (B := Scenarios.lenient_base)
      [("x"%string, 1); ("y"%string, 2)] s =
      (Ok (DepFuture (MoveRel "stage" move)),
       mk_sys tt [MoveRel "stage" move] (queue s) (this s)).
Proof.
  intros s.
  destruct (move_forwarded (W := unit) (B := Scenarios.lenient_base)
              [("x"%string, 1); ("y"%string, 2)] s "stage") as (move & _ & Hrun).
  - reflexivity.
  - discriminate.
  - reflexivity.
  - discriminate.
  - intros a [<-|[<-|[]]]; eexists; vm_compute; reflexivity.
  - exists move. exact Hrun.
Defined.

End MultiplexMoveFacts.

(** ** CombinedFixedPositionActuator: the move to a named position *)

Module CombinedFixedMoveFacts.
Local Open Scope Q_scope.
Import MonadFacts PyFloat PyFloatFacts CombinedFixedPositionActuator CombinedFixedMoves.
Import Spec SpecMoves.

Section WithDriver.
Context {W : Type} {D : Driver Q W}.
Abbreviation St := (sys Q string W obj).

Lemma send_targets_run (l : list (string * string * Q)) :
  forall (futures : list (call Q)) (s : St),
    let calls := map (fun '(dep, ac, cp) => MoveAbs dep [(ac, cp)]) l in
    send_targets l futures s =
      (Ok (futures ++ calls), mk_sys (world s) (trace s ++ calls) (queue s) (this s)).
Proof.
  induction l as [|[[dep ac] cp] rest IH]; intros futures s; cbn [map].
  - cbn. rewrite !app_nil_r. destruct s; reflexivity.
  - cbn [send_targets]. unfold mbind at 1. unfold M_bind at 1. unfold issue at 1.
    cbv beta iota. rewrite IH. cbn [world trace queue this].
    rewrite <- !app_assoc. reflexivity.
Qed.

Lemma wait_collect_run (calls : list (call Q)) :
  forall (exceptions : list exn) (s : St),
    let af := all_failures calls (world s) in
    wait_collect calls exceptions s =
      (Ok (exceptions ++ fst af), mk_sys (snd af) (trace s) (queue s) (this s)).
Proof.
  induction calls as [|c rest IH]; intros exceptions s.
  - cbn. rewrite app_nil_r. destruct s; reflexivity.
  - cbn [wait_collect all_failures]. unfold mbind at 1. unfold M_bind at 1.
    unfold try_except at 1. unfold mbind at 1. unfold M_bind at 1.
    unfold fresult at 1. cbv beta iota.
    destruct (await c (world s)) as [[e|] w1]; cbv beta iota; cbn [fst snd].
    + unfold mret at 1. unfold M_ret at 1. rewrite IH. cbn [world trace queue this fst snd].
      rewrite <- app_assoc. reflexivity.
    + unfold mret at 1. unfold M_ret at 1. rewrite IH. reflexivity.
Qed.

(** Reading the dependencies only looks at the hardware, and returns. *)
Lemma current_positions_returns (deps caxes : list string) :
  exists f : W -> result (list Q),
    (forall s : sys Q string W t, current_positions deps caxes s = (f (world s), s)) /\
    (forall w, f w <> Diverge).
Proof.
  revert caxes. induction deps as [|c deps IH]; intros caxes.
  - exists (fun _ => Ok []). split; [reflexivity|discriminate].
  - destruct caxes as [|ca caxes].
    + exists (fun _ => Ok []). split; [reflexivity|discriminate].
    + destruct (IH caxes) as (f & Hf & Hnd).
      exists (fun w => v ← getitem (position c w) ca; vs ← f w; Ok (v :: vs)).
      split.
      * intros s. cbn [current_positions].
        unfold mbind, M_bind, result_bind, dep_position, lift, mret, M_ret.
        cbv beta iota.
        destruct (getitem (position c (world s)) ca); try reflexivity.
        rewrite Hf. destruct (f (world s)); reflexivity.
      * intros w. unfold mbind, result_bind, getitem.
        destruct (dict_get ca (position c w)); [|discriminate].
        specialize (Hnd w). destruct (f w); [discriminate|discriminate|congruence].
Qed.

Lemma axes_match_returns l : axes_match l <> Diverge.
Proof.
  induction l as [|[[[cp tp] atol] cyl] l IH]; [discriminate|].
  cbn [axes_match]. unfold axis_dist, fmod, mbind, result_bind.
  destruct cyl as [c|].
  - destruct (Qeq_bool c 0); [discriminate|].
    destruct (Qlt_le_dec _ _); [discriminate|exact IH].
  - destruct (Qlt_le_dec _ _); [discriminate|exact IH].
Qed.

Lemma find_position_returns self positions cur :
  find_position self positions cur <> Diverge.
Proof.
  induction positions as [|[key tgt] rest IH]; [discriminate|].
  cbn [find_position]. unfold mbind, result_bind.
  pose proof (axes_match_returns (zip4 cur tgt (_atol self) (_cycle self))) as Hm.
  destruct (axes_match _) as [[|]| |]; [discriminate|exact IH|discriminate|congruence].
Qed.

(** Updating the position only writes the position VA, and returns. *)
Lemma updatePosition_frame (s : sys Q string W t) :
  world (snd (_updatePosition s)) = world s /\
  trace (snd (_updatePosition s)) = trace s /\
  queue (snd (_updatePosition s)) = queue s /\
  fst (_updatePosition s) <> Diverge.
Proof.
  destruct (current_positions_returns (_dependencies (this s)) (_caxes_map (this s)))
    as (f & Hf & Hnd).
  assert (Hhandler : forall e (s1 : sys Q string W t),
            this s1 = this s ->
            let h := (if is_LookupError e then
                        self ← get_self;
                        _ ← put_self (set_position [(_axis_name self, _fallback self)] self);
                        _ ← current_positions (_dependencies self) (_caxes_map self);
                        mret tt
                      else raise e) s1 in
            world (snd h) = world s1 /\ trace (snd h) = trace s1 /\
            queue (snd h) = queue s1 /\ fst h <> Diverge).
  { intros e s1 Hs1 h. subst h.
    destruct (is_LookupError e); [|cbn; repeat split; discriminate].
    unfold mbind, M_bind, get_self, put_self, mret, M_ret. cbv beta iota.
    cbn [this set_position _dependencies _caxes_map].
    rewrite Hs1. rewrite Hf. cbn [world].
    pose proof (Hnd (world s1)) as Hn.
    destruct (f (world s1)) eqn:Ef; cbn; repeat split; try discriminate.
    congruence. }
  set (run := _updatePosition s).
  assert (Hrun : run = _updatePosition s) by reflexivity. clearbody run.
  unfold _updatePosition, _readPositionfromDependencies, try_except in Hrun.
  rewrite run_bind in Hrun. rewrite run_bind in Hrun.
  unfold get_self at 1 in Hrun. cbv beta iota in Hrun.
  rewrite run_bind in Hrun. rewrite Hf in Hrun. unfold lift in Hrun.
  pose proof (Hnd (world s)) as Hn.
  destruct (f (world s)) as [cur|e|] eqn:Ef; cbv beta iota in Hrun.
  - pose proof (find_position_returns (this s) (_positions (this s)) cur) as Hfp.
    destruct (find_position (this s) (_positions (this s)) cur) as [k|e|];
      cbv beta iota in Hrun.
    + subst run. cbn. repeat split; discriminate.
    + subst run. apply Hhandler. reflexivity.
    + congruence.
  - subst run. apply Hhandler. reflexivity.
  - congruence.
Qed.

(** The update when every dependency reports its axis. *)
Lemma updatePosition_reports (s : sys Q string W t) (cur : list Q) :
  Forall cycle_ok (_cycle (this s)) ->
  fst (current_positions (_dependencies (this s)) (_caxes_map (this s)) s) = Ok cur ->
  _updatePosition s =
    (Ok tt, mk_sys (world s) (trace s) (queue s)
              (set_position [(_axis_name (this s), reported_position (this s) cur)]
                 (this s))).
Proof.
  intros Hc Hcur.
  destruct (current_positions_returns (_dependencies (this s)) (_caxes_map (this s)))
    as (f & Hf & _).
  rewrite Hf in Hcur. cbn [fst] in Hcur.
  unfold _updatePosition, _readPositionfromDependencies, try_except.
  unfold mbind, M_bind, get_self, put_self, lift, mret, M_ret. cbv beta iota.
  rewrite Hf, Hcur. cbv beta iota.
  rewrite (CombinedFixedFacts.find_position_value _ _ _ Hc). unfold reported_position.
  destruct (find _ (_positions (this s))) as [entry|]; cbv beta iota; [reflexivity|].
  cbn [is_LookupError this set_position _dependencies _caxes_map].
  rewrite Hf. cbn [world]. rewrite Hcur. reflexivity.
Qed.

(** The update when a dependency does not report its axis: the [KeyError]
    is caught as a [LookupError], the fallback is written, and the read for
    the log message raises again. *)
Lemma updatePosition_missing (s : sys Q string W t) :
  fst (current_positions (_dependencies (this s)) (_caxes_map (this s)) s)
    = Raise KeyError ->
  _updatePosition s =
    (Raise KeyError,
     mk_sys (world s) (trace s) (queue s)
       (set_position [(_axis_name (this s), _fallback (this s))] (this s))).
Proof.
  intros Hcur.
  destruct (current_positions_returns (_dependencies (this s)) (_caxes_map (this s)))
    as (f & Hf & _).
  rewrite Hf in Hcur. cbn [fst] in Hcur.
  unfold _updatePosition, _readPositionfromDependencies, try_except.
  unfold mbind, M_bind, get_self, put_self, lift, mret, M_ret. cbv beta iota.
  rewrite Hf, Hcur. cbv beta iota.
  cbn [is_LookupError this set_position _dependencies _caxes_map].
  rewrite Hf. cbn [world]. rewrite Hcur. reflexivity.
Qed.

(** The whole run of the move body. *)
Lemma doMoveAbs_run (pos : dict string) (s : St) (key : string)
    (targets : list Q) :
  getitem pos (_axis_name (fields (this s))) = Ok key ->
  getitem (_positions (fields (this s))) key = Ok targets ->
  let self := fields (this s) in
  let calls := map (fun '(dep, ac, cp) => MoveAbs dep [(ac, cp)])
                 (zip3 (_dependencies self) (_caxes_map self) targets) in
  let af := all_failures calls (world s) in
  let upd := _updatePosition (mk_sys (snd af) (trace s ++ calls) (queue s) self) in
  _doMoveAbs pos s =
    (match fst upd with
     | Ok _ => match fst af with [] => Ok tt | ex :: _ => Raise ex end
     | Raise e => Raise e
     | Diverge => Diverge
     end,
     mk_sys (world (snd upd)) (trace (snd upd)) (queue (snd upd))
       (mk_obj (this (snd upd)) true)).
Proof.
  intros Hkey Htgt self calls af upd.
  destruct (updatePosition_frame (mk_sys (snd af) (trace s ++ calls) (queue s) self))
    as (_ & _ & _ & Hnd).
  fold upd in Hnd.
  set (run := _doMoveAbs pos s).
  assert (Hrun : run = _doMoveAbs pos s) by reflexivity. clearbody run.
  unfold _doMoveAbs in Hrun.
  rewrite run_bind in Hrun. unfold get_self at 1 in Hrun. cbv beta iota in Hrun.
  rewrite run_bind in Hrun. unfold lift at 1 in Hrun. rewrite Hkey in Hrun.
  cbv beta iota in Hrun.
  rewrite run_bind in Hrun. unfold lift at 1 in Hrun. rewrite Htgt in Hrun.
  cbv beta iota in Hrun.
  unfold try_finally in Hrun.
  rewrite run_bind in Hrun. unfold get_self at 1 in Hrun. cbv beta iota in Hrun.
  rewrite run_bind in Hrun. unfold put_self at 1 in Hrun. cbv beta iota in Hrun.
  rewrite run_bind in Hrun. rewrite send_targets_run in Hrun.
  cbn [world trace queue this app] in Hrun. fold self calls in Hrun.
  rewrite run_bind in Hrun. rewrite wait_collect_run in Hrun.
  cbn [world trace queue this app] in Hrun. fold af in Hrun.
  rewrite run_bind in Hrun. unfold on_fields at 1 in Hrun.
  cbn [world trace queue this fields subscribed set_subscribed fst snd] in Hrun.
  fold self upd in Hrun.
  destruct upd as [r su]. cbn [fst snd] in *.
  destruct r as [[]|e|]; cbv beta iota in Hrun.
  - destruct (fst af) as [|ex excs]; cbn in Hrun; subst run; reflexivity.
  - cbn in Hrun. subst run. reflexivity.
  - congruence.
Qed.

(** X13: the move to a named position, on dependencies that answer each
    call of [moveAbs] with a future: each dependency is handed its target
    before any future is waited for; every future is then waited for, also
    after one of them failed; the position is then updated from where the
    dependencies stand (which raises when a dependency does not report its
    axis, or a cycle is zero); only after that is the first failure of a
    future raised; and the subscription to the positions of the
    dependencies is restored either way. *)
Theorem doMoveAbs_waits_for_all (pos : dict string) (s : St) (key : string)
    (targets : list Q) :
  getitem pos (_axis_name (fields (this s))) = Ok key ->
  getitem (_positions (fields (this s))) key = Ok targets ->
  let self := fields (this s) in
  let calls := map (fun '(dep, ac, cp) => MoveAbs dep [(ac, cp)])
                 (zip3 (_dependencies self) (_caxes_map self) targets) in
  let af := all_failures calls (world s) in
  let after := mk_sys (snd af) (trace s ++ calls) (queue s) self in
  let upd := _updatePosition after in
  let read := fst (current_positions (_dependencies self) (_caxes_map self) after) in
  let run := _doMoveAbs pos s in
  (trace (snd run) = trace s ++ calls /\
   world (snd run) = snd af /\
   queue (snd run) = queue s /\
   this (snd run) = mk_obj (this (snd upd)) true /\
   fst run = match fst upd with
             | Ok _ => match fst af with [] => Ok tt | ex :: _ => Raise ex end
             | r => r
             end) /\
  (forall cur,
     Forall cycle_ok (_cycle self) -> read = Ok cur ->
     position_value (fields (this (snd run))) =
       [(_axis_name self, reported_position self cur)] /\
     fst run = match fst af with [] => Ok tt | ex :: _ => Raise ex end) /\
  (read = Raise KeyError ->
   position_value (fields (this (snd run))) = [(_axis_name self, _fallback self)] /\
   fst run = Raise KeyError).
Proof.
  intros Hkey Htgt self calls af after upd read run.
  destruct (updatePosition_frame after) as (Hw & Ht & Hq & _).
  fold upd in Hw, Ht, Hq. cbn [world trace queue after] in Hw, Ht, Hq.
  pose proof (doMoveAbs_run pos s key targets Hkey Htgt) as Hrun.
  cbv zeta in Hrun. fold self in Hrun. fold calls in Hrun. fold af in Hrun.
  fold after in Hrun. fold upd in Hrun. fold run in Hrun.
  split; [|split].
  - rewrite Hrun. cbn [fst snd world trace queue this]. rewrite Hw, Ht, Hq.
    repeat split; reflexivity.
  - intros cur Hcyc Hread. rewrite Hrun. unfold upd.
    rewrite (updatePosition_reports after cur Hcyc Hread).
    cbn [fst snd this fields position_value set_position after].
    split; reflexivity.
  - intros Hread. rewrite Hrun. unfold upd.
    rewrite (updatePosition_missing after Hread).
    cbn [fst snd this fields position_value set_position after].
    split; reflexivity.
Qed.

(** X28: when a dependency does not report its axis, the [KeyError] of
    the read is caught by [except LookupError], of which it is a subclass:
    the fallback is written into the position VA, and the read of the
    positions for the log message then raises [KeyError] again, which leaves
    [_updatePosition]; nothing else changes. *)
Theorem updatePosition_missing_axis (s : sys Q string W t) :
  fst (current_positions (_dependencies (this s)) (_caxes_map (this s)) s)
    = Raise KeyError ->
  let run := _updatePosition s in
  let self' := this (snd run) in
  fst run = Raise KeyError /\
  position_value self' = [(_axis_name (this s), _fallback (this s))] /\
  world (snd run) = world s /\ trace (snd run) = trace s /\
  queue (snd run) = queue s /\
  self' = mk (_axis_name (this s)) (_positions (this s)) (_atol (this s))
             (_cycle (this s)) (_fallback (this s)) (_dependencies (this s))
             (_caxes_map (this s)) (position_value self').
Proof.
  intros Hcur run self'. subst self' run.
  rewrite (updatePosition_missing s Hcur). cbn. repeat split; reflexivity.
Qed.

End WithDriver.

Lemma fmod_val_zero (c : Q) : fmod_val 0 c == 0.
Proof.
  unfold fmod_val.
  assert (E : 0 / c == 0) by (unfold Qdiv; ring).
  rewrite (Qfloor_comp _ _ E). change (Qfloor 0) with 0%Z.
  change (inject_Z 0) with 0. ring.
Qed.

Lemma cyclic_dist_self (tp : Q) (cyl : option Q) : cyclic_dist tp tp cyl == 0.
Proof.
  destruct cyl as [c|]; unfold cyclic_dist.
  - assert (E : fmod_val (tp - tp) c == 0).
    { rewrite (RotationFacts.fmod_val_comp (tp - tp) 0 c) by ring. apply fmod_val_zero. }
    rewrite E. apply Q.min_id.
  - assert (E : tp - tp == 0) by ring. rewrite E. reflexivity.
Qed.

(** A position is within any tolerance that is not negative of itself. *)
Lemma within_tolerance_self (self : t) (targets : list Q) :
  Forall (fun a => 0 <= a) (_atol self) -> within_tolerance self targets targets = true.
Proof.
  unfold within_tolerance. generalize (_cycle self) as cycle.
  generalize (_atol self) as atol.
  induction targets as [|tp targets IH]; intros atol cycle Hatol; [reflexivity|].
  destruct atol as [|a atol]; [reflexivity|].
  destruct cycle as [|cyl cycle]; [reflexivity|].
  cbn [zip4 forallb]. inversion Hatol as [|? ? Ha Hrest]; subst.
  rewrite (IH atol cycle Hrest), andb_true_r.
  apply Qle_bool_iff. rewrite cyclic_dist_self. exact Ha.
Qed.

Lemma find_target (self : t) (key : string) (targets : list Q) (positions : dict (list Q)) :
  dict_get key positions = Some targets ->
  within_tolerance self targets targets = true ->
  (forall k' t', In (k', t') positions -> k' <> key ->
                 within_tolerance self targets t' = false) ->
  exists t', find (fun entry => within_tolerance self targets (snd entry)) positions
             = Some (key, t').
Proof.
  intros Hget Hself Hother.
  induction positions as [|[k t0] rest IH]; [discriminate|].
  cbn [find snd]. cbn [dict_get] in Hget.
  destruct (String.eqb_spec key k) as [<-|Hne].
  - inversion Hget; subst t0. rewrite Hself. eexists. reflexivity.
  - rewrite (Hother k t0 (or_introl eq_refl)) by congruence.
    apply IH; [exact Hget|]. intros k' t' Hin. apply Hother. right. exact Hin.
Qed.

Section Reporting.
Context {W : Type} {D : Driver Q W}.

(** X14: when the tolerances are not negative, no cycle is zero and no
    entry of the table under another name is within tolerance of the
    requested one, a move after which every dependency stands at its target
    ends with the requested name as the reported position, and succeeds when
    no future failed. *)
Theorem doMoveAbs_reports_target (pos : dict string) (s : sys Q string W obj)
    (key : string) (targets : list Q) :
  let self := fields (this s) in
  getitem pos (_axis_name self) = Ok key ->
  getitem (_positions self) key = Ok targets ->
  Forall cycle_ok (_cycle self) ->
  Forall (fun a => 0 <= a) (_atol self) ->
  (forall k' t', In (k', t') (_positions self) -> k' <> key ->
                 within_tolerance self targets t' = false) ->
  let calls := map (fun '(dep, ac, cp) => MoveAbs dep [(ac, cp)])
                 (zip3 (_dependencies self) (_caxes_map self) targets) in
  let af := all_failures calls (world s) in
  fst (current_positions (_dependencies self) (_caxes_map self)
         (mk_sys (snd af) (trace s ++ calls) (queue s) self)) = Ok targets ->
  let run := _doMoveAbs pos s in
  position_value (fields (this (snd run))) = [(_axis_name self, key)] /\
  (fst af = [] -> fst run = Ok tt).
Proof.
  intros self Hkey Htgt Hcyc Hatol Hother calls af Hcur run.
  pose proof (doMoveAbs_run pos s key targets Hkey Htgt) as Hrun.
  cbv zeta in Hrun. fold self in Hrun. fold calls in Hrun. fold af in Hrun.
  rewrite (updatePosition_reports (mk_sys (snd af) (trace s ++ calls) (queue s) self)
             targets Hcyc Hcur) in Hrun.
  cbn [fst snd this world trace queue] in Hrun.
  assert (Hrep : reported_position self targets = key).
  { unfold reported_position.
    destruct (find_target self key targets (_positions self)) as [t' Hfind].
    - unfold getitem in Htgt. destruct (dict_get key (_positions self)); congruence.
    - apply within_tolerance_self. exact Hatol.
    - exact Hother.
    - rewrite Hfind. reflexivity. }
  rewrite Hrep in Hrun. fold run in Hrun. rewrite Hrun.
  cbn [fst snd this fields position_value set_position].
  split; [reflexivity|]. intros Hnone. rewrite Hnone. reflexivity.
Qed.

End Reporting.

Lemma doMoveAbs_waits_for_all_witness :
  let s := mk_sys [] [] [] (mk_obj (Scenarios.pol_AB (1 # 10) (1 # 10)) true) in
  let run := _doMoveAbs (D := MoveScenarios.obedient) [("pol"%string, "B"%string)] s in
  trace (snd run) = [MoveAbs "dep1" [("rz"%string, 1)]; MoveAbs "dep2" [("rz"%string, 1)]] /\
  position_value (fields (this (snd run))) = [("pol"%string, "B"%string)] /\
  fst run = Ok tt.
Proof.
  intros s run.
  destruct (doMoveAbs_waits_for_all (D := MoveScenarios.obedient)
              [("pol"%string, "B"%string)] s "B" [1; 1]) as ((Htr & _) & Hread & _).
  - reflexivity.
  - reflexivity.
  - split; [exact Htr|].
    destruct (Hread [1; 1]) as [Hp Hr]; [repeat constructor|reflexivity|].
    split; [exact Hp|exact Hr].
Defined.

Lemma doMoveAbs_reports_target_witness :
  let s := mk_sys [] [] [] (mk_obj (Scenarios.pol_AB (1 # 10) (1 # 10)) true) in
  let run := _doMoveAbs (D := MoveScenarios.obedient) [("pol"%string, "B"%string)] s in
  position_value (fields (this (snd run))) = [("pol"%string, "B"%string)] /\
  fst run = Ok tt.
Proof.
  intros s run.
  destruct (doMoveAbs_reports_target (D := MoveScenarios.obedient)
              [("pol"%string, "B"%string)] s "B" [1; 1]) as (Hpos & Hok).
  - reflexivity.
  - reflexivity.
  - repeat constructor.
  - repeat constructor; discriminate.
  - intros k' t' [E|[E|[]]] Hne; inversion E; subst; [reflexivity|congruence].
  - reflexivity.
  - split; [exact Hpos|apply Hok; reflexivity].
Defined.

Lemma updatePosition_missing_axis_witness :
  let s := mk_sys tt [] [] (Scenarios.pol_AB (1 # 10) (1 # 10)) in
  let run := _updatePosition (D := Scenarios.still_driver) s in
  fst run = Raise KeyError /\
  position_value (this (snd run)) = [("pol"%string, "unknown"%string)].
Proof.
  intros s run.
  destruct (updatePosition_missing_axis (D := Scenarios.still_driver) s)
    as (Hr & Hp & _); [reflexivity|].
  split; [exact Hr|exact Hp].
Defined.

End CombinedFixedMoveFacts.

(** ** AntiBacklashActuator: the absolute move *)

Module BacklashMoveFacts.
Local Open Scope Q_scope.
Import MonadFacts AntiBacklashActuator BacklashMoves Spec SpecMoves BacklashFacts.

Section WithDriver.
Context {W : Type} {D : Driver Q W}.
Abbreviation St := (sys Q Q W t).

(** The planning loop of the absolute move: what it sends and which flags
    it sets. *)
Lemma plan_pos_value (items : dict Q) :
  forall (sub : dict Q) (s : St),
    let cur := position dep (world s) in
    List.NoDup (dict_keys items) ->
    (forall a, In a (dict_keys items) ->
       is_Some (_shifted (this s) !! a) /\ dict_get a sub = None) ->
    (forall a, In a (dict_keys items) -> is_Some (_backlash (this s) !! a) ->
       is_Some (dict_get a cur)) ->
    exists sh,
      plan_pos items sub s =
        (Ok (sub ++ planned_pos (this s) cur items), with_shifted sh s) /\
      dom sh = dom (_shifted (this s)) /\
      (forall a, ~ In a (dict_keys items) -> sh !! a = _shifted (this s) !! a) /\
      (forall a v, In (a, v) items ->
         sh !! a =
           match _backlash (this s) !! a, dict_get a cur with
           | Some b, Some p => Some (if Qlt_le_dec ((v - p) * b) 0 then true else false)
           | _, _ => _shifted (this s) !! a
           end).
Proof.
  induction items as [|[a0 v0] rest IH]; intros sub s cur Hnd Hkeys Hcur.
  - exists (_shifted (this s)). cbn. rewrite app_nil_r, with_shifted_id.
    split; [reflexivity|]. split; [reflexivity|]. split; [reflexivity|].
    intros a v [].
  - cbn [dict_keys map fst] in Hnd. apply NoDup_cons_iff in Hnd.
    destruct Hnd as [Hfresh Hnd]. fold (dict_keys rest) in Hfresh, Hnd.
    destruct (Hkeys a0 (or_introl eq_refl)) as [[f0 Hf0] Hsub0].
    assert (Hne : forall a, In a (dict_keys rest) -> a <> a0)
      by (intros a Hin ->; contradiction).
    destruct (_backlash (this s) !! a0) as [b|] eqn:Hb.
    + (* an axis with a backlash: the flag is written either way *)
      destruct (Hcur a0 (or_introl eq_refl)) as [p Hp]; [rewrite Hb; eauto|].
      set (flag := if Qlt_le_dec ((v0 - p) * b) 0 then true else false).
      set (x := if Qlt_le_dec ((v0 - p) * b) 0 then v0 - b else v0).
      set (s1 := mk_sys (world s) (trace s) (queue s) (set_shifted a0 flag (this s)) : St).
      assert (Hstep : plan_pos ((a0, v0) :: rest) sub s =
                      plan_pos rest (dict_set a0 x sub) s1).
      { cbn [plan_pos]. rewrite run_bind. unfold get_self at 1. cbv beta iota.
        rewrite Hb. rewrite run_bind. unfold dep_position at 1. cbv beta iota.
        rewrite run_bind. unfold lift at 1. unfold getitem. fold cur. rewrite Hp.
        cbv beta iota. subst flag x s1.
        destruct (Qlt_le_dec ((v0 - p) * b) 0); rewrite run_bind;
          unfold put_self at 1; cbv beta iota; reflexivity. }
      destruct (IH (dict_set a0 x sub) s1 Hnd) as (sh & Hrun & Hdom & Hout & Hin).
      { intros a Ha. destruct (Hkeys a (or_intror Ha)) as [Hs Hd]. split.
        - subst s1. cbn. rewrite lookup_insert_ne by (intros E; exact (Hne _ Ha (eq_sym E))).
          exact Hs.
        - rewrite dict_get_set_ne; [exact Hd|]. intros ->. exact (Hne _ Ha eq_refl). }
      { intros a Ha. apply Hcur. right. exact Ha. }
      exists sh. split.
      { rewrite Hstep, Hrun, (dict_set_fresh _ _ _ Hsub0), <- app_assoc.
        cbn [planned_pos map fst snd app].
        assert (Hx : planned_pos_value (this s) cur a0 v0 = x)
          by (unfold planned_pos_value; rewrite Hb, Hp; reflexivity).
        rewrite Hx. reflexivity. }
      split.
      { rewrite Hdom. subst s1. cbn. rewrite dom_insert_L.
        assert (a0 ∈ dom (_shifted (this s))) by (apply elem_of_dom; eauto).
        set_solver. }
      split.
      { intros a Ha. rewrite Hout by (intros Hr; apply Ha; right; exact Hr).
        subst s1. cbn. apply lookup_insert_ne. intros ->. apply Ha. left. reflexivity. }
      intros a v [E|Hr].
      * inversion E; subst a v. rewrite (Hout a0 Hfresh). subst s1. cbn.
        rewrite lookup_insert_eq, Hb, Hp. reflexivity.
      * rewrite (Hin a v Hr). subst s1. cbn [this world set_shifted _backlash _shifted].
        fold cur.
        destruct (_backlash (this s) !! a); [|
          apply lookup_insert_ne; intros E; exact (Hne _ (in_keys _ _ _ Hr) (eq_sym E))].
        destruct (dict_get a cur); [reflexivity|].
        apply lookup_insert_ne. intros E. exact (Hne _ (in_keys _ _ _ Hr) (eq_sym E)).
    + (* an axis without backlash goes through unchanged *)
      assert (Hstep : plan_pos ((a0, v0) :: rest) sub s =
                      plan_pos rest (dict_set a0 v0 sub) s).
      { cbn [plan_pos]. rewrite run_bind. unfold get_self at 1. cbv beta iota.
        rewrite Hb. reflexivity. }
      destruct (IH (dict_set a0 v0 sub) s Hnd) as (sh & Hrun & Hdom & Hout & Hin).
      { intros a Ha. destruct (Hkeys a (or_intror Ha)) as [Hs Hd]. split; [exact Hs|].
        rewrite dict_get_set_ne; [exact Hd|]. intros ->. exact (Hne _ Ha eq_refl). }
      { intros a Ha. apply Hcur. right. exact Ha. }
      exists sh. split.
      { rewrite Hstep, Hrun, (dict_set_fresh _ _ _ Hsub0), <- app_assoc.
        cbn [planned_pos map fst snd app].
        assert (Hx : planned_pos_value (this s) cur a0 v0 = v0)
          by (unfold planned_pos_value; rewrite Hb; reflexivity).
        rewrite Hx. reflexivity. }
      split; [exact Hdom|]. split.
      { intros a Ha. apply Hout. intros Hr. apply Ha. right. exact Hr. }
      intros a v [E|Hr].
      * inversion E; subst a v. rewrite (Hout a0 Hfresh), Hb. reflexivity.
      * apply Hin. exact Hr.
Qed.

Lemma planned_pos_lookup (self : t) (cur pos : dict Q) (a : string) (v : Q) :
  List.NoDup (dict_keys pos) -> In (a, v) pos ->
  dict_get a (planned_pos self cur pos) = Some (planned_pos_value self cur a v).
Proof.
  induction pos as [|[a0 v0] rest IH]; intros Hnd Hin; [destruct Hin|].
  apply NoDup_cons_iff in Hnd. destruct Hnd as [Hfresh Hnd].
  cbn [planned_pos map dict_get fst snd].
  destruct Hin as [E|Hin].
  - inversion E; subst. rewrite String.eqb_refl. reflexivity.
  - destruct (String.eqb_spec a a0) as [->|_].
    + exfalso. apply Hfresh. exact (in_keys _ _ _ Hin).
    + apply IH; assumption.
Qed.

(** X15: in an absolute move whose main move completes without the next
    queued move being an update that covers the moved axes, an axis without
    backlash is sent its target unchanged; an axis with a backlash whose
    target lies from the current position in the direction of the backlash
    (or at it) is sent its target, its flag is cleared and the compensating
    move has no entry for it; an axis whose target lies against the backlash
    is sent the target minus the backlash with its flag set, and the
    compensating relative move that follows carries exactly the backlash, so
    that the axis ends on the target, approached in the direction of the
    backlash; either way the flag is clear at the end. *)
Theorem doMoveAbs_net_target (pos : dict Q) (order : list string) (s : St) :
  List.NoDup (dict_keys pos) ->
  Permutation order (dict_keys pos) ->
  (forall a, In a (dict_keys pos) -> is_Some (_shifted (this s) !! a)) ->
  let self := this s in
  let cur := position dep (world s) in
  (forall a, In a (dict_keys pos) -> is_Some (_backlash self !! a) ->
     is_Some (dict_get a cur)) ->
  let sub := planned_pos self cur pos in
  let main := if any_shifted self then MoveAbs dep sub else MoveAbsSync dep sub in
  (if any_shifted self
   then wait_loop (list_to_set (dict_keys pos)) (fst (watch main (world s))) = Ok true
   else fst (await main (world s)) = None) ->
  let run := _doMoveAbs pos order s in
  exists during : t,
    let comp := compensation during order in
    trace (snd run) =
      trace s ++ main :: (if is_empty comp then [] else [MoveRelSync dep comp]) /\
    (forall a v, In (a, v) pos -> _backlash self !! a = None -> dict_get a sub = Some v) /\
    (forall a v b p,
       In (a, v) pos -> _backlash self !! a = Some b -> dict_get a cur = Some p ->
       (0 <= (v - p) * b ->
          dict_get a sub = Some v /\ _shifted during !! a = Some false /\
          dict_get a comp = None) /\
       ((v - p) * b < 0 ->
          dict_get a sub = Some (v - b) /\ _shifted during !! a = Some true /\
          dict_get a comp = Some b) /\
       _shifted (this (snd run)) !! a = Some false).
Proof.
  intros Hnd Hperm Hkeys self cur Hcur sub main Hdone run.
  destruct (plan_pos_value pos [] s Hnd) as (sh & Hplan & Hdom & Hout & Hin).
  { intros a Ha. split; [apply Hkeys; exact Ha|reflexivity]. }
  { exact Hcur. }
  cbn [app] in Hplan. fold self cur sub in Hplan.
  set (during := mk (_backlash self) sh (axes self)).
  assert (Hany : any_shifted during = any_shifted self)
    by (apply any_shifted_dom; exact Hdom).
  assert (Hndo : List.NoDup order).
  { apply NoDup_ListNoDup. rewrite Hperm. apply NoDup_ListNoDup. exact Hnd. }
  assert (Hino : forall a, In a order <-> In a (dict_keys pos)).
  { intros a. split; intros H.
    - eapply Permutation_in; [exact Hperm|exact H].
    - eapply Permutation_in; [symmetry; exact Hperm|exact H]. }
  assert (Hrun : exists s2 : St,
             run = _antiBacklashMove order s2 /\
             trace s2 = trace s ++ [main] /\ this s2 = during).
  { subst run. unfold _doMoveAbs.
    unfold mbind at 1. unfold M_bind at 1. rewrite Hplan.
    unfold mbind at 1. unfold M_bind at 1. unfold get_self at 1. cbv beta iota.
    cbn [this with_shifted]. fold self during. rewrite Hany.
    unfold mbind at 1. unfold M_bind at 1. subst main.
    destruct (any_shifted self); cbn [negb];
      unfold mbind, M_bind, issue, fresult, wait_update, mret, M_ret;
      cbv beta iota; cbn [world trace queue this with_shifted].
    - destruct (watch (MoveAbs dep sub) (world s)) as [r w]. cbn [fst] in Hdone.
      rewrite Hdone. eexists. split; [reflexivity|]. split; reflexivity.
    - destruct (await (MoveAbsSync dep sub) (world s)) as [o w]. cbn [fst] in Hdone.
      subst o. eexists. split; [reflexivity|]. split; reflexivity. }
  destruct Hrun as (s2 & Hrun & Ht2 & Hthis2).
  destruct (antiBacklashMove_value order s2 Hndo) as (sh2 & Htr & Hself & Hclr).
  { intros a Ha. rewrite Hthis2. cbn. apply elem_of_dom. rewrite Hdom.
    apply elem_of_dom. apply Hkeys. apply Hino. exact Ha. }
  cbv zeta in Htr. rewrite Hthis2 in Htr, Hself. rewrite <- Hrun in Htr, Hself.
  exists during. cbv zeta. split.
  { rewrite Htr, Ht2, <- app_assoc. reflexivity. }
  split.
  { intros a v Hav Hb. unfold sub. rewrite (planned_pos_lookup self cur pos a v Hnd Hav).
    unfold planned_pos_value. rewrite Hb. reflexivity. }
  intros a v b p Hav Hb Hp.
  pose proof (Hin a v Hav) as Hflag. fold self cur in Hflag. rewrite Hb, Hp in Hflag.
  assert (Hval : dict_get a sub = Some (planned_pos_value self cur a v))
    by (apply planned_pos_lookup; assumption).
  unfold planned_pos_value in Hval. rewrite Hb, Hp in Hval.
  split; [|split].
  - intros Hge. destruct (Qlt_le_dec ((v - p) * b) 0) as [Hlt|_]; [lraQ|].
    split; [exact Hval|]. split; [exact Hflag|].
    apply compensation_lookup_unshifted; exact Hflag.
  - intros Hlt. destruct (Qlt_le_dec ((v - p) * b) 0) as [_|Hge]; [|lraQ].
    split; [exact Hval|]. split; [exact Hflag|].
    apply compensation_lookup_shifted;
      [apply Hino; exact (in_keys _ _ _ Hav)|exact Hflag|exact Hb].
  - rewrite Hself. cbn. apply Hclr. apply Hino. exact (in_keys _ _ _ Hav).
Qed.

End WithDriver.

Lemma doMoveAbs_net_target_witness :
  let s := mk_sys tt [] [] (Scenarios.stage_x false) in
  let D0 := MoveScenarios.standing_at "x" (1 # 2) in
  let run := _doMoveAbs (D := D0) [("x"%string, 1 # 5)] ["x"%string] s in
  exists during : t,
    dict_get "x" (planned_pos (this s) [("x"%string, 1 # 2)] [("x"%string, 1 # 5)])
      = Some ((1 # 5) - (1 # 100)) /\
    _shifted during !! "x"%string = Some true /\
    dict_get "x" (compensation during ["x"%string]) = Some (1 # 100) /\
    _shifted (this (snd run)) !! "x"%string = Some false.
Proof.
  intros s D0 run.
  destruct (doMoveAbs_net_target (D := D0) [("x"%string, 1 # 5)] ["x"%string] s)
    as (during & _ & _ & Hax).
  - repeat constructor. intros [].
  - reflexivity.
  - intros a [<-|[]]. vm_compute. eauto.
  - intros a [<-|[]] _. vm_compute. eauto.
  - vm_compute. reflexivity.
  - exists during.
    destruct (Hax "x"%string (1 # 5) (1 # 100) (1 # 2)) as (_ & Hopp & Hend).
    + left. reflexivity.
    + reflexivity.
    + reflexivity.
    + destruct Hopp as (H1 & H2 & H3); [reflexivity|].
      repeat split; assumption.
Defined.

End BacklashMoveFacts.

(** ** AntiBacklashActuator: what construction yields *)

Module BacklashConstructionFacts.
Local Open Scope Q_scope.
Import MonadFacts AntiBacklashActuator Spec SpecMoves.

Lemma dict_get_keys {A} (a : string) (d : dict A) :
  is_Some (dict_get a d) <-> In a (dict_keys d).
Proof.
  induction d as [|[k v] d IH]; cbn.
  - split; [intros [x Hx]; discriminate|intros []].
  - destruct (String.eqb_spec a k) as [->|Hne].
    + split; [left; reflexivity|eauto].
    + rewrite IH. split; [right; assumption|intros [E|H]; [congruence|exact H]].
Qed.

Lemma flags_lookup (l : list string) (a : string) :
  In a l ->
  (list_to_map (map (fun a => (a, false)) l) : gmap string bool) !! a = Some false.
Proof.
  induction l as [|a0 l IH]; cbn [map]; intros Hin; [destruct Hin|].
  rewrite list_to_map_cons.
  destruct (decide (a0 = a)) as [->|Hne].
  - apply lookup_insert_eq.
  - rewrite lookup_insert_ne by exact Hne. apply IH.
    destruct Hin as [E|H]; [congruence|exact H].
Qed.

(** The loop over the axes of the dependency defines, for each of them, the
    axis [restricted] describes, and leaves the others as they were. *)
Lemma init_axes_lookup (backlash : gmap string Q) (dep_axes : dict axis_def) :
  forall acc r,
    List.NoDup (dict_keys dep_axes) ->
    init_axes backlash dep_axes acc = Ok r ->
    forall an,
      dict_get an r =
        match dict_get an dep_axes with
        | Some ax => Some (restricted backlash an ax)
        | None => dict_get an acc
        end.
Proof.
  induction dep_axes as [|[a0 ax0] rest IH]; intros acc r Hnd Hrun an.
  - cbn in Hrun. inversion Hrun. reflexivity.
  - cbn [dict_keys map fst] in Hnd. apply NoDup_cons_iff in Hnd.
    destruct Hnd as [Hfresh Hnd]. fold (dict_keys rest) in Hfresh, Hnd.
    assert (Hstep : init_axes backlash rest (dict_set a0 (restricted backlash a0 ax0) acc)
                    = Ok r).
    { cbn [init_axes] in Hrun. unfold restricted.
      destruct (backlash !! a0) as [b|]; [|exact Hrun].
      destruct (range ax0) as [rng|]; [|exact Hrun].
      destruct (Qlt_le_dec (snd rng - fst rng) (Qabs b)); [discriminate|].
      destruct (Qlt_le_dec 0 b); exact Hrun. }
    rewrite (IH _ _ Hnd Hstep an). cbn [dict_get].
    destruct (String.eqb_spec an a0) as [->|Hne].
    + destruct (dict_get a0 rest) as [ax|] eqn:Hget.
      * exfalso. apply Hfresh. apply dict_get_keys. eauto.
      * apply dict_get_set_eq.
    + destruct (dict_get an rest); [reflexivity|].
      apply dict_get_set_ne. congruence.
Qed.

Lemma restricted_canUpdate (backlash : gmap string Q) (a : string) (ax : axis_def) :
  canUpdate (restricted backlash a ax) = true.
Proof.
  unfold restricted. destruct (backlash !! a) as [b|]; [|reflexivity].
  destruct (range ax); [|reflexivity]. destruct (Qlt_le_dec 0 b); reflexivity.
Qed.

(** What construction yields. *)
Lemma init_result (dependencies : list (string * dict axis_def))
    (backlash : gmap string Q) (self : t) :
  __init__ dependencies backlash = Ok self ->
  (forall role dep_axes, In (role, dep_axes) dependencies ->
     List.NoDup (dict_keys dep_axes)) ->
  exists role dep_axes,
    dependencies = [(role, dep_axes)] /\
    _backlash self = backlash /\
    (forall a, dict_get a (axes self) =
               match dict_get a dep_axes with
               | Some ax => Some (restricted backlash a ax)
               | None => None
               end) /\
    (forall a, is_Some (dict_get a (axes self)) -> _shifted self !! a = Some false) /\
    (forall a, is_Some (backlash !! a) -> is_Some (dict_get a (axes self))) /\
    (forall a ax lo hi b,
       dict_get a dep_axes = Some ax -> range ax = Some (lo, hi) ->
       backlash !! a = Some b -> Qabs b <= hi - lo).
Proof.
  intros Hinit Hnd. unfold __init__ in Hinit.
  destruct dependencies as [|[role dep_axes] [|? ?]]; try discriminate.
  specialize (Hnd role dep_axes (or_introl eq_refl)).
  destruct (init_axes backlash dep_axes []) as [axes_def|e|] eqn:Hloop; try discriminate.
  cbn in Hinit.
  destruct (bool_decide (dom backlash ∖ list_to_set (dict_keys axes_def) = ∅)) eqn:Hmiss;
    [|discriminate].
  apply bool_decide_eq_true in Hmiss.
  inversion Hinit; subst self. clear Hinit. cbn [_backlash _shifted axes].
  pose proof (init_axes_lookup backlash dep_axes [] axes_def Hnd Hloop) as Hlook.
  exists role, dep_axes. split; [reflexivity|]. split; [reflexivity|].
  split; [exact Hlook|]. split.
  { intros a Ha. apply flags_lookup. apply dict_get_keys. exact Ha. }
  split.
  { intros a Ha. apply dict_get_keys.
    assert (Hin : a ∈ dom backlash) by (apply elem_of_dom; exact Ha).
    destruct (decide (a ∈ (list_to_set (dict_keys axes_def) : gset string))) as [Hk|Hk].
    - apply elem_of_list_to_set in Hk. apply list_elem_of_In. exact Hk.
    - exfalso.
      assert (Hd : a ∈ dom backlash ∖ list_to_set (dict_keys axes_def))
        by (apply elem_of_difference; split; assumption).
      rewrite Hmiss in Hd. exact (not_elem_of_empty a Hd). }
  intros a ax lo hi b Hax Hrng Hb.
  destruct (Qlt_le_dec (hi - lo) (Qabs b)) as [Hlt|Hle]; [|exact Hle].
  rewrite (BacklashInitFacts.init_axes_raises backlash dep_axes a ax lo hi b) in Hloop;
    [discriminate| |exact Hrng|exact Hb|exact Hlt].
  clear -Hax. induction dep_axes as [|[k v] d IH]; [discriminate|].
  cbn in Hax. destruct (String.eqb_spec a k) as [->|Hne].
  - inversion Hax. left. reflexivity.
  - right. apply IH. exact Hax.
Qed.

(** X16: a constructed anti-backlash actuator wraps one dependency and
    exposes exactly its axes; each of them accepts update moves and starts
    with its flag clear; every axis named by the backlash is one of them; an
    axis with a backlash [b] and a range gets a range inside the original
    one, shorter by the magnitude of [b] (at the lower end when [b] is
    positive, at the upper end otherwise); the other axes keep their range. *)
Theorem init_axes_and_flags (dependencies : list (string * dict axis_def))
    (backlash : gmap string Q) (self : t) :
  __init__ dependencies backlash = Ok self ->
  (forall role dep_axes, In (role, dep_axes) dependencies ->
     List.NoDup (dict_keys dep_axes)) ->
  exists role dep_axes,
    dependencies = [(role, dep_axes)] /\
    _backlash self = backlash /\
    (forall a, is_Some (dict_get a (axes self)) <-> is_Some (dict_get a dep_axes)) /\
    (forall a, is_Some (backlash !! a) -> is_Some (dict_get a (axes self))) /\
    (forall a ax, dict_get a (axes self) = Some ax ->
       canUpdate ax = true /\ _shifted self !! a = Some false) /\
    (forall a ax lo hi b,
       dict_get a dep_axes = Some ax -> range ax = Some (lo, hi) ->
       backlash !! a = Some b ->
       exists lo' hi',
         dict_get a (axes self) = Some (mk_axis (Some (lo', hi')) true) /\
         lo <= lo' /\ lo' <= hi' /\ hi' <= hi /\ hi' - lo' == hi - lo - Qabs b /\
         (0 < b -> hi' = hi) /\ (b <= 0 -> lo' = lo)) /\
    (forall a ax,
       dict_get a dep_axes = Some ax -> backlash !! a = None \/ range ax = None ->
       dict_get a (axes self) = Some (mk_axis (range ax) true)).
Proof.
  intros Hinit Hnd.
  destruct (init_result dependencies backlash self Hinit Hnd)
    as (role & dep_axes & Hdeps & Hbl & Hlook & Hflags & Hnamed & Hfit).
  exists role, dep_axes. split; [exact Hdeps|]. split; [exact Hbl|].
  split.
  { intros a. rewrite Hlook. destruct (dict_get a dep_axes); cbn.
    - split; eauto.
    - split; intros [x Hx]; discriminate. }
  split; [exact Hnamed|]. split.
  { intros a ax Hax. split; [|apply Hflags; eauto].
    rewrite Hlook in Hax. destruct (dict_get a dep_axes) as [ax0|]; [|discriminate].
    inversion Hax. apply restricted_canUpdate. }
  split.
  { intros a ax lo hi b Hax Hrng Hb.
    pose proof (Hfit a ax lo hi b Hax Hrng Hb) as Hle.
    rewrite Hlook, Hax. unfold restricted. rewrite Hb, Hrng. cbn [fst snd].
    destruct (Qlt_le_dec 0 b) as [Hpos|Hneg].
    - exists (lo + b), hi. split; [reflexivity|].
      assert (Habs : Qabs b == b) by (apply Qabs_pos; lraQ).
      repeat split; try lraQ; try reflexivity.
    - exists lo, (hi + b). split; [reflexivity|].
      assert (Habs : Qabs b == - b) by (apply Qabs_neg; lraQ).
      repeat split; try lraQ; try reflexivity. }
  intros a ax Hax Hor. rewrite Hlook, Hax. unfold restricted.
  destruct Hor as [Hb|Hr].
  - rewrite Hb. reflexivity.
  - rewrite Hr. destruct (backlash !! a); reflexivity.
Qed.

Lemma init_axes_and_flags_witness :
  let dep_axes := [("x"%string, mk_axis (Some (0, 10)) false);
                   ("y"%string, mk_axis None false)] in
  exists self lo' hi',
    __init__ [("stage"%string, dep_axes)] {[ "x"%string := - (1) ]} = Ok self /\
    dict_get "x" (axes self) = Some (mk_axis (Some (lo', hi')) true) /\
    lo' = 0 /\ hi' - lo' == 10 - 0 - Qabs (- (1)).
Proof.
  intros dep_axes.
  assert (Hinit : exists self,
            __init__ [("stage"%string, dep_axes)] {[ "x"%string := - (1) ]} = Ok self)
    by (eexists; vm_compute; reflexivity).
  destruct Hinit as [self Hinit].
  destruct (init_axes_and_flags _ _ self Hinit) as (role & da & Hdeps & _ & _ & _ & _ & Hrng & _).
  - intros role da [E|[]]. inversion E; subst.
    repeat constructor; cbn; intuition congruence.
  - inversion Hdeps; subst role da.
    destruct (Hrng "x"%string (mk_axis (Some (0, 10)) false) 0 10 (- (1)))
      as (lo' & hi' & Hax & _ & _ & _ & Hlen & _ & Hlo); try reflexivity.
    exists self, lo', hi'. split; [exact Hinit|]. split; [exact Hax|].
    split; [apply Hlo; discriminate|exact Hlen].
Defined.

Section Updates.
Context {W : Type} {B : ActuatorBase Q t}.

Lemma all_canUpdate_true (self : t) (l : list string) :
  (forall a, In a l -> exists ax, dict_get a (axes self) = Some ax /\ canUpdate ax = true) ->
  all_canUpdate self l = Ok true.
Proof.
  induction l as [|a l IH]; intros Hall; [reflexivity|].
  cbn [all_canUpdate]. destruct (Hall a (or_introl eq_refl)) as (ax & Hax & Hup).
  unfold getitem. rewrite Hax. cbn. rewrite Hup. apply IH.
  intros a' Hin. apply Hall. right. exact Hin.
Qed.

(** X17: on an anti-backlash actuator as constructed, an update move over
    axes of the actuator is always accepted as such: the task queued for a
    relative or an absolute move with [update=True] carries the axes of the
    request, for the running move to yield to it. *)
Theorem update_move_accepted (dependencies : list (string * dict axis_def))
    (backlash : gmap string Q) (self0 : t) (mv : dict Q) (s : sys Q Q W t) :
  __init__ dependencies backlash = Ok self0 ->
  (forall role dep_axes, In (role, dep_axes) dependencies ->
     List.NoDup (dict_keys dep_axes)) ->
  axes (this s) = axes self0 ->
  mv <> [] ->
  (forall a, In a (dict_keys mv) -> is_Some (dict_get a (axes self0))) ->
  let queued (fn : task_fn) : result (future Q Q) * sys Q Q W t :=
    let tk := mk_task fn mv (list_to_set (dict_keys mv)) in
    (Ok (TaskFuture tk), mk_sys (world s) (trace s) (queue s ++ [tk]) (this s)) in
  (_checkMoveRel (this s) mv = Ok tt -> moveRel mv true s = queued DoMoveRel) /\
  (_checkMoveAbs (this s) mv = Ok tt -> moveAbs mv true s = queued DoMoveAbs).
Proof.
  intros Hinit Hnd Haxes Hne Hknown queued.
  destruct (init_result dependencies backlash self0 Hinit Hnd)
    as (role & dep_axes & _ & _ & Hlook & _).
  assert (Hall : all_canUpdate (this s) (dict_keys mv) = Ok true).
  { apply all_canUpdate_true. intros a Ha. rewrite Haxes.
    destruct (Hknown a Ha) as [ax Hax]. exists ax. split; [exact Hax|].
    rewrite Hlook in Hax. destruct (dict_get a dep_axes) as [ax0|]; [|discriminate].
    inversion Hax. apply restricted_canUpdate. }
  destruct mv as [|kv mv']; [congruence|].
  subst queued. cbv beta zeta.
  split; intros Hchk.
  - unfold moveRel. cbn [is_empty].
    rewrite run_bind. unfold get_self at 1. cbv beta iota.
    rewrite run_bind. unfold lift at 1. rewrite Hchk. cbv beta iota.
    rewrite run_bind. unfold _createFuture.
    rewrite run_bind. unfold get_self at 1. cbv beta iota.
    rewrite run_bind. unfold lift at 1. rewrite Hall. cbv beta iota.
    reflexivity.
  - unfold moveAbs. cbn [is_empty].
    rewrite run_bind. unfold get_self at 1. cbv beta iota.
    rewrite run_bind. unfold lift at 1. rewrite Hchk. cbv beta iota.
    rewrite run_bind. unfold _createFuture.
    rewrite run_bind. unfold get_self at 1. cbv beta iota.
    rewrite run_bind. unfold lift at 1. rewrite Hall. cbv beta iota.
    reflexivity.
Qed.

End Updates.

Lemma update_move_accepted_witness :
  let dep_axes := [("x"%string, mk_axis (Some (0, 10)) false)] in
  exists self,
    __init__ [("stage"%string, dep_axes)] {[ "x"%string := - (1) ]} = Ok self /\
    fst (moveRel (W := unit) (B := Scenarios.lenient_base) [("x"%string, 1)] true
           (mk_sys tt [] [] self)) =
      Ok (TaskFuture (mk_task DoMoveRel [("x"%string, 1)] {[ "x"%string ]})).
Proof.
  intros dep_axes.
  assert (Hinit : exists self,
            __init__ [("stage"%string, dep_axes)] {[ "x"%string := - (1) ]} = Ok self)
    by (eexists; vm_compute; reflexivity).
  destruct Hinit as [self Hinit]. exists self. split; [exact Hinit|].
  destruct (update_move_accepted (W := unit) (B := Scenarios.lenient_base)
              _ _ self [("x"%string, 1)] (mk_sys tt [] [] self) Hinit) as [Hrel _].
  - intros role da [E|[]]. inversion E; subst. repeat constructor. intros [].
  - reflexivity.
  - discriminate.
  - intros a [<-|[]]. vm_compute in Hinit. inversion Hinit. cbn. eauto.
  - rewrite Hrel by reflexivity. vm_compute. reflexivity.
Defined.

End BacklashConstructionFacts.

(** ** ConvertStage: moves and the position update *)

Module ConvertMoveFacts.
Local Open Scope R_scope.
Import ConvertStage ConvertMoves ConvertFacts.

(** Converting to the dependency and back gives the position again. *)
Lemma fromdep_todep (self : t) (p : vec) :
  fst (md_pixel_size_cor self) <> 0 ->
  snd (md_pixel_size_cor self) <> 0 ->
  let cs := _updateConversion self in
  _convertPosFromdep cs (_convertPosTodep cs p true) true = p.
Proof.
  intros Hx Hy cs. subst cs.
  destruct self as [[ox oy] r [sx sy] mt mf o d a pv], p as [x y].
  cbn in Hx, Hy.
  unfold _convertPosTodep, _convertPosFromdep, _updateConversion, dot.
  rewrite cos_neg, sin_neg.
  cbn [fst snd md_pos_cor md_rotation_cor md_pixel_size_cor _Mtodep _Mfromdep _O].
  f_equal.
  all: match goal with
       | |- _ = ?v =>
           first [ by_unit_circle r v x | by_unit_circle r v y
                 | by_unit_circle r v (x + ox) | by_unit_circle r v (y + oy) ]
       end.
Qed.

Section WithState.
Context {W arg I : Type}.

(** X18: an absolute move followed by the position update is a round
    trip within floating-point tolerance, and an exact one over the reals,
    which stand for the floats here: when the scale has no zero component
    and the two axes of the dependency have different names, the position
    computed from what the move sent to the dependency is the position that
    was asked, an axis left out of the request keeping its current value. *)
Theorem moveAbs_then_updatePosition (self0 : t) (pos : dict R) (s : sys R arg W I)
    (x y : R) :
  fst (md_pixel_size_cor self0) <> 0 ->
  snd (md_pixel_size_cor self0) <> 0 ->
  fst (_axes_dep self0) <> snd (_axes_dep self0) ->
  let self := _updateConversion self0 in
  get_default pos (position_value self) "x" = Ok x ->
  get_default pos (position_value self) "y" = Ok y ->
  exists pos_dep self',
    moveAbs self pos s =
      (Ok (MoveAbs (_dependency self) pos_dep),
       mk_sys (world s) (trace s ++ [MoveAbs (_dependency self) pos_dep]) (queue s)
         (this s)) /\
    _updatePosition self pos_dep = Ok self' /\
    position_value self' = [("x"%string, x); ("y"%string, y)].
Proof.
  intros Hsx Hsy Hax self Hx Hy.
  set (v := _convertPosTodep self (x, y) true).
  exists (dict_set (snd (_axes_dep self)) (snd v) [(fst (_axes_dep self), fst v)]).
  assert (Hnames : _axes_dep self = _axes_dep self0) by reflexivity.
  assert (Hget1 : getitem (dict_set (snd (_axes_dep self)) (snd v)
                             [(fst (_axes_dep self), fst v)]) (fst (_axes_dep self))
                  = Ok (fst v)).
  { unfold getitem. rewrite dict_get_set_ne by (rewrite Hnames; congruence).
    cbn. rewrite String.eqb_refl. reflexivity. }
  assert (Hget2 : getitem (dict_set (snd (_axes_dep self)) (snd v)
                             [(fst (_axes_dep self), fst v)]) (snd (_axes_dep self))
                  = Ok (snd v)).
  { unfold getitem. rewrite dict_get_set_eq. reflexivity. }
  eexists. split; [|split].
  - unfold moveAbs. unfold mbind at 1. unfold M_bind at 1. unfold lift at 1.
    rewrite Hx. unfold mbind at 1. unfold M_bind at 1. unfold lift at 1.
    rewrite Hy. reflexivity.
  - unfold _updatePosition. rewrite Hget1. cbn [mbind result_bind].
    rewrite Hget2. cbn [mbind result_bind]. reflexivity.
  - cbn [position_value set_position].
    replace (fst v, snd v) with v by (destruct v; reflexivity).
    subst v. unfold self. rewrite (fromdep_todep self0 (x, y) Hsx Hsy). reflexivity.
Qed.

End WithState.

(** X19: over the reals, which stand for the floats here (on doubles the
    equalities hold within floating-point tolerance), a relative conversion
    is the difference of two absolute ones, in both directions: moving by
    [d] sends the dependency the difference between where the absolute moves
    to [p + d] and to [p] would send it, and the translation plays no part
    in it. *)
Theorem relative_is_difference (self : t) (p d : vec) :
  let plus (u w : vec) : vec := (fst u + fst w, snd u + snd w) in
  let minus (u w : vec) : vec := (fst u - fst w, snd u - snd w) in
  _convertPosTodep self d false =
    minus (_convertPosTodep self (plus p d) true) (_convertPosTodep self p true) /\
  _convertPosFromdep self d false =
    minus (_convertPosFromdep self (plus p d) true) (_convertPosFromdep self p true).
Proof.
  destruct self as [tr r sc [[m11 m12] [m21 m22]] [[f11 f12] [f21 f22]] [ox oy] dn a pv].
  destruct p as [px py], d as [dx dy].
  unfold _convertPosTodep, _convertPosFromdep, dot. cbn [fst snd _Mtodep _Mfromdep _O].
  split; f_equal; ring.
Qed.

Lemma moveAbs_then_updatePosition_witness :
  exists pos_dep self',
    _updatePosition Scenarios.stage_2_3 pos_dep = Ok self' /\
    fst (moveAbs (W := unit) (arg := R) (I := unit) Scenarios.stage_2_3
           [("y"%string, 5)] (mk_sys tt [] [] tt))
      = Ok (MoveAbs "aligner" pos_dep) /\
    position_value self' = [("x"%string, 0); ("y"%string, 5)].
Proof.
  destruct (moveAbs_then_updatePosition (W := unit) (arg := R) (I := unit)
              (ConvertStage.mk (1, 1) 0 (2, 3) ((0, 0), (0, 0)) ((0, 0), (0, 0)) (0, 0)
                 "aligner" ("x", "y")%string [("x"%string, 0); ("y"%string, 0)])
              [("y"%string, 5)] (mk_sys tt [] [] tt) 0 5)
    as (pos_dep & self' & Hmove & Hupd & Hpos).
  - cbn. lraR.
  - cbn. lraR.
  - cbn. discriminate.
  - reflexivity.
  - reflexivity.
  - exists pos_dep, self'. split; [exact Hupd|]. split; [|exact Hpos].
    change Scenarios.stage_2_3 with
      (_updateConversion
         (ConvertStage.mk (1, 1) 0 (2, 3) ((0, 0), (0, 0)) ((0, 0), (0, 0)) (0, 0)
            "aligner" ("x", "y")%string [("x"%string, 0); ("y"%string, 0)])).
    rewrite Hmove. reflexivity.
Defined.

End ConvertMoveFacts.

(** ** CoupledStage: the reported position *)

Module CoupledMoveFacts.
Local Open Scope R_scope.
Import CoupledStage Spec Scenarios CoupledFacts.

Section WithDriver.
Context {W : Type} {D : Driver R W} {B : ActuatorBase R t}.
Abbreviation St := (sys R R W t).

Lemma updatePosition_value (s : St) (x y : R) :
  getitem (position master (world s)) "x" = Ok x ->
  getitem (position master (world s)) "y" = Ok y ->
  let P := dict_set "y" y (dict_set "x" x (_position (this s))) in
  _updatePosition s =
    (Ok tt,
     mk_sys (world s) (trace s) (queue s)
       (mk (_stage_conv (this s)) P
           (_applyInversion (mk (_stage_conv (this s)) P (position_value (this s))) P))).
Proof.
  intros Hx Hy P. unfold _updatePosition.
  unfold mbind, M_bind, dep_position, get_self, put_self, lift. cbv beta iota.
  rewrite Hx. cbv beta iota. cbn [this world]. rewrite Hy. reflexivity.
Qed.

(** X20: the position a coupled stage reports is refreshed from the master
    once the slave has been moved, and only when both moves succeeded: then
    it is the position the master reports at that moment, through the axis
    inversion; after a failure of the master or of the slave move, the body
    raises and the reported position keeps its previous value. *)
Theorem position_after_move (rel : bool) (arg : dict R) (s : St) (x y cx cy : R) :
  let first := if rel then MoveRel master arg else MoveAbs master arg in
  let run := if rel then _doMoveRel arg s else _doMoveAbs arg s in
  let w1 := snd (await first (world s)) in
  getitem (position master w1) "x" = Ok x ->
  getitem (position master w1) "y" = Ok y ->
  getitem (ConvertStage.position_value (_stage_conv (this s))) "x" = Ok cx ->
  getitem (ConvertStage.position_value (_stage_conv (this s))) "y" = Ok cy ->
  let c := converted_move (_stage_conv (this s)) x y in
  let w2 := snd (await c w1) in
  (fst (await first (world s)) = None -> fst (await c w1) = None ->
   forall x2 y2,
     getitem (position master w2) "x" = Ok x2 ->
     getitem (position master w2) "y" = Ok y2 ->
     let P := dict_set "y" y2 (dict_set "x" x2 (_position (this s))) in
     run =
       (Ok tt,
        mk_sys w2 (trace s ++ [first; c]) (queue s)
          (mk (_stage_conv (this s)) P
              (_applyInversion (mk (_stage_conv (this s)) P (position_value (this s)))
                 P)))) /\
  (forall e, fst (await first (world s)) = Some e \/ fst (await c w1) = Some e ->
     this (snd run) = this s /\ exists e', fst run = Raise e').
Proof.
  intros first run w1 Hx Hy Hcx Hcy c w2.
  assert (Hrun : run =
            (f ← issue first; _ ← try_finally (fresult f) move_slave; _updatePosition) s)
    by (subst run first; destruct rel; reflexivity).
  clearbody run.
  unfold mbind, M_bind, issue, try_finally, fresult in Hrun. cbv beta iota in Hrun.
  cbn [world trace queue this] in Hrun. subst w2 w1.
  remember (await first (world s)) as a1 eqn:E1. destruct a1 as [o1 w1].
  cbn [fst snd] in *.
  pose proof (move_slave_value
                (mk_sys w1 (trace s ++ [first]) (queue s) (this s)) x y cx cy
                Hx Hy Hcx Hcy) as Hms.
  cbv zeta in Hms. cbn [world trace queue this] in Hms. fold c in Hms.
  remember (await c w1) as a2 eqn:E2. destruct a2 as [o2 w2].
  cbn [fst snd] in Hms. rewrite Hms in Hrun. clear Hms. cbn [fst snd].
  split.
  - intros -> -> x2 y2 Hx2 Hy2. cbv beta iota in Hrun.
    rewrite (updatePosition_value
               (mk_sys w2 ((trace s ++ [first]) ++ [c]) (queue s) (this s))
               x2 y2 Hx2 Hy2) in Hrun.
    cbn [world trace queue this] in Hrun. rewrite <- app_assoc in Hrun. exact Hrun.
  - intros e He.
    destruct o1 as [e1|], o2 as [e2|]; cbv beta iota in Hrun; subst run;
      cbn [fst snd this]; try (split; [reflexivity|eexists; reflexivity]).
    destruct He; discriminate.
Qed.

End WithDriver.

Lemma position_after_move_witness :
  let s := mk_sys tt [] [] coupled_2_3 in
  let run := _doMoveAbs (D := failing_master IOError) (B := lenient_base)
               [("x"%string, 5); ("y"%string, 6)] s in
  this (snd run) = coupled_2_3.
Proof.
  intros s run.
  destruct (position_after_move (D := failing_master IOError) (B := lenient_base)
              false [("x"%string, 5); ("y"%string, 6)] s 3 4 0 0) as [_ Hfail].
  - reflexivity.
  - reflexivity.
  - reflexivity.
  - reflexivity.
  - destruct (Hfail IOError) as [Hthis _]; [left; reflexivity|exact Hthis].
Defined.

End CoupledMoveFacts.

(** ** CoupledStage and CombinedSensorActuator: what is reported *)

Module CoupledReferencedFacts.
Import CoupledReferenced SpecMoves.

Lemma merge_referenced_lookup (axes : gset string) (cref ref : gmap string bool)
    (a : string) :
  merge_referenced axes cref ref !! a =
    match cref !! a with
    | Some b => if decide (a ∈ axes) then Some (default true (ref !! a) && b)
                else ref !! a
    | None => ref !! a
    end.
Proof.
  unfold merge_referenced.
  set (f := fun (a : string) (ref : gmap string bool) =>
              match cref !! a with
              | Some b => <[a := default true (ref !! a) && b]> ref
              | None => ref
              end).
  assert (H : forall X : gset string,
            forall a, set_fold f ref X !! a =
              if decide (a ∈ X)
              then match cref !! a with
                   | Some b => Some (default true (ref !! a) && b)
                   | None => ref !! a
                   end
              else ref !! a).
  { apply (set_fold_ind_L
             (fun r X => forall a, r !! a =
                if decide (a ∈ X)
                then match cref !! a with
                     | Some b => Some (default true (ref !! a) && b)
                     | None => ref !! a
                     end
                else ref !! a)).
    - intros a0. rewrite decide_False by set_solver. reflexivity.
    - intros x X r Hx IH a0. unfold f.
      pose proof (IH x) as IHx. rewrite decide_False in IHx by exact Hx.
      destruct (decide (a0 = x)) as [->|Hne].
      + rewrite decide_True by set_solver.
        destruct (cref !! x) as [b|].
        * rewrite lookup_insert_eq, IHx. reflexivity.
        * exact IHx.
      + assert (Hr : (match cref !! x with
                      | Some b => <[x := default true (r !! x) && b]> r
                      | None => r
                      end) !! a0 = r !! a0).
        { destruct (cref !! x); [apply lookup_insert_ne; congruence|reflexivity]. }
        rewrite Hr, IH.
        destruct (decide (a0 ∈ X)) as [Hin|Hnin].
        * rewrite decide_True by set_solver. reflexivity.
        * rewrite decide_False by set_solver. reflexivity. }
  rewrite H. destruct (cref !! a) as [b|] eqn:Hc.
  - destruct (decide (a ∈ axes)) as [Hin|Hnin].
    + rewrite decide_True; [reflexivity|].
      apply elem_of_intersection. split; [exact Hin|]. apply elem_of_dom. eauto.
    + rewrite decide_False; [reflexivity|]. set_solver.
  - destruct (decide (a ∈ axes ∩ dom cref)); reflexivity.
Qed.

Lemma updateReferenced_from (axes : gset string)
    (dependencies : list (option (gmap string bool))) (a : string) :
  forall ref,
    _updateReferenced axes dependencies ref !! a =
      if decide (a ∈ axes)
      then match reports a dependencies with
           | [] => ref !! a
           | bs => Some (default true (ref !! a) && forallb (fun b => b) bs)
           end
      else ref !! a.
Proof.
  induction dependencies as [|[cref|] rest IH]; intros ref.
  - cbn. destruct (decide (a ∈ axes)); reflexivity.
  - cbn [_updateReferenced reports flat_map]. rewrite IH.
    fold (reports a rest).
    destruct (decide (a ∈ axes)) as [Hin|Hnin].
    + rewrite merge_referenced_lookup.
      destruct (cref !! a) as [b|] eqn:Hc.
      * rewrite decide_True by exact Hin. cbn [app default].
        destruct (reports a rest) as [|b' bs].
        -- cbn. rewrite andb_true_r. reflexivity.
        -- cbn. rewrite ?andb_assoc. reflexivity.
      * reflexivity.
    + rewrite merge_referenced_lookup.
      destruct (cref !! a); [rewrite decide_False by exact Hnin|]; reflexivity.
  - cbn [_updateReferenced reports flat_map app]. apply IH.
Qed.

(** X21: the referenced state of a coupled stage has an entry for an axis
    exactly when it is an axis of the stage that at least one dependency
    reports, and the entry says referenced exactly when every dependency
    reporting the axis says so; dependencies without a [referenced] VA and
    the order of the dependencies play no part. *)
Theorem updateReferenced_all (axes : gset string)
    (dependencies : list (option (gmap string bool))) (a : string) :
  let ref := _updateReferenced axes dependencies ∅ in
  (is_Some (ref !! a) <-> a ∈ axes /\ reports a dependencies <> []) /\
  (ref !! a = Some true <->
   a ∈ axes /\ reports a dependencies <> [] /\
   forall cref, In (Some cref) dependencies -> is_Some (cref !! a) ->
                cref !! a = Some true) /\
  (forall dependencies', Permutation dependencies dependencies' ->
     _updateReferenced axes dependencies' ∅ !! a = ref !! a).
Proof.
  intros ref. subst ref.
  assert (Hall : forall deps,
            forallb (fun b => b) (reports a deps) = true <->
            forall cref, In (Some cref) deps -> is_Some (cref !! a) ->
                         cref !! a = Some true).
  { induction deps as [|[cref|] rest IH]; cbn [reports flat_map].
    - split; [intros _ cref []|reflexivity].
    - fold (reports a rest). destruct (cref !! a) as [b|] eqn:Hc; cbn [app forallb].
      + rewrite andb_true_iff, IH. split.
        * intros [-> Hrest] c [E|Hin] Hs; [inversion E; subst; exact Hc|].
          apply Hrest; assumption.
        * intros H. split.
          -- specialize (H cref (or_introl eq_refl)). rewrite Hc in H.
             assert (E : Some b = Some true) by (apply H; eauto). congruence.
          -- intros c Hin. apply H. right. exact Hin.
      + rewrite IH. split.
        * intros Hrest c [E|Hin] Hs; [inversion E; subst; rewrite Hc in Hs;
                                      destruct Hs; discriminate|].
          apply Hrest; assumption.
        * intros H c Hin. apply H. right. exact Hin.
    - fold (reports a rest). rewrite IH. split.
      + intros Hrest c [E|Hin]; [discriminate|]. apply Hrest. exact Hin.
      + intros H c Hin. apply H. right. exact Hin. }
  rewrite !updateReferenced_from, lookup_empty. cbn [default andb].
  split; [|split].
  - destruct (decide (a ∈ axes)) as [Hin|Hnin].
    + destruct (reports a dependencies) as [|b bs].
      * split; [intros [x Hx]; discriminate|intros [_ H]; congruence].
      * split; [intros _; split; [exact Hin|discriminate]|eauto].
    + split; [intros [x Hx]; discriminate|intros [H _]; contradiction].
  - destruct (decide (a ∈ axes)) as [Hin|Hnin].
    + rewrite <- Hall. destruct (reports a dependencies) as [|b bs].
      * split; [discriminate|intros (_ & H & _); congruence].
      * split.
        -- intros E. split; [exact Hin|]. split; [discriminate|congruence].
        -- intros (_ & _ & H). rewrite H. reflexivity.
    + split; [discriminate|intros [H _]; contradiction].
  - intros deps' Hperm. rewrite updateReferenced_from, lookup_empty.
    destruct (decide (a ∈ axes)) as [Hin|Hnin]; [|reflexivity].
    assert (Hp : Permutation (reports a dependencies) (reports a deps')).
    { unfold reports. apply Permutation_flat_map. exact Hperm. }
    assert (Hf : forallb (fun b => b) (reports a deps') = forallb (fun b => b) (reports a dependencies)).
    { clear -Hp. induction Hp; cbn [forallb]; try congruence.
      rewrite !andb_assoc, (andb_comm y). reflexivity. }
    destruct (reports a dependencies) as [|b bs] eqn:E1;
      destruct (reports a deps') as [|b' bs'] eqn:E2.
    + reflexivity.
    + apply Permutation_nil in Hp. discriminate.
    + symmetry in Hp. apply Permutation_nil in Hp. discriminate.
    + cbn [default andb]. rewrite Hf. reflexivity.
Qed.

End CoupledReferencedFacts.

Module SensorMoveFacts.
Local Open Scope Q_scope.
Import CombinedSensorActuator SensorMoves.

Lemma actuator_position_found (to_sensor : list (Q * Q)) (p sp sp' : Q) :
  getitem_float to_sensor p = Ok sp ->
  (forall ap1 sp1 ap2 sp2,
     In (ap1, sp1) to_sensor -> In (ap2, sp2) to_sensor -> sp1 == sp2 -> ap1 == ap2) ->
  sp' == sp ->
  exists ap, actuator_position to_sensor sp' = Some ap /\ ap == p.
Proof.
  intros Hget Hinj Hsp.
  assert (Hin : exists k, In (k, sp) to_sensor /\ k == p).
  { clear Hinj. induction to_sensor as [|[k v] rest IH]; [discriminate|].
    cbn [getitem_float] in Hget. destruct (Qeq_bool p k) eqn:E.
    - inversion Hget; subst v. exists k. split; [left; reflexivity|].
      apply Qeq_bool_iff in E. symmetry. exact E.
    - destruct (IH Hget) as (k' & Hk & Hk'). exists k'. split; [right; exact Hk|exact Hk']. }
  destruct Hin as (k & Hk & Hkp). clear Hget.
  assert (Hgen : forall l,
            (forall ap1 sp1, In (ap1, sp1) l -> In (ap1, sp1) to_sensor) ->
            In (k, sp) l ->
            exists ap, actuator_position l sp' = Some ap /\ ap == p).
  { induction l as [|[ap0 sp0] rest IH]; intros Hsub Hinl; [destruct Hinl|].
    cbn [actuator_position]. destruct (Qeq_bool sp0 sp') eqn:E.
    - exists ap0. split; [reflexivity|]. apply Qeq_bool_iff in E.
      rewrite <- Hkp. apply (Hinj ap0 sp0 k sp).
      + apply Hsub. left. reflexivity.
      + exact Hk.
      + rewrite E. exact Hsp.
    - destruct Hinl as [E'|Hinl].
      + inversion E'; subst ap0 sp0.
        assert (Hq : Qeq_bool sp sp' = true) by (apply Qeq_bool_iff; symmetry; exact Hsp).
        congruence.
      + apply IH; [|exact Hinl]. intros a1 s1 H1. apply Hsub. right. exact H1. }
  apply Hgen; [auto|exact Hk].
Qed.

(** X22: the position update decodes what the move expects of the
    sensor: when no two actuator positions share a sensor value and the sensor
    reports the value that [to_sensor] gives for the position [p], the update
    writes [p]; when the sensor reports a value that [to_sensor] does not
    hold, it writes nothing. *)
Theorem updatePosition_decodes (self : t) (spos : dict Q) (sp' : Q) :
  getitem spos (_axis_sensor self) = Ok sp' ->
  (forall p sp,
     getitem_float (_to_sensor self) p = Ok sp ->
     (forall ap1 sp1 ap2 sp2,
        In (ap1, sp1) (_to_sensor self) -> In (ap2, sp2) (_to_sensor self) ->
        sp1 == sp2 -> ap1 == ap2) ->
     sp' == sp ->
     exists ap, _updatePosition self spos = Ok (Some [(_axis self, ap)]) /\ ap == p) /\
  ((forall ap sp, In (ap, sp) (_to_sensor self) -> ~ sp == sp') ->
   _updatePosition self spos = Ok None).
Proof.
  intros Hs. unfold _updatePosition. rewrite Hs. cbn [mbind result_bind]. split.
  - intros p sp Hget Hinj Hsp.
    destruct (actuator_position_found _ p sp sp' Hget Hinj Hsp) as (ap & -> & Hap).
    exists ap. split; [reflexivity|exact Hap].
  - intros Hnone.
    assert (E : actuator_position (_to_sensor self) sp' = None).
    { revert Hnone. generalize (_to_sensor self) as l.
      induction l as [|[ap sp] rest IH]; intros Hnone; [reflexivity|].
      cbn [actuator_position]. destruct (Qeq_bool sp sp') eqn:Eq.
      - apply Qeq_bool_iff in Eq. exfalso. exact (Hnone ap sp (or_introl eq_refl) Eq).
      - apply IH. intros a1 s1 H1. apply (Hnone a1 s1). right. exact H1. }
    rewrite E. reflexivity.
Qed.

Lemma updatePosition_decodes_witness :
  exists ap,
    _updatePosition (Scenarios.flipper 0) [("s"%string, 5)]
      = Ok (Some [("x"%string, ap)]) /\ ap == 1.
Proof.
  destruct (updatePosition_decodes (Scenarios.flipper 0) [("s"%string, 5)] 5 eq_refl)
    as [Hdec _].
  apply (Hdec 1 5).
  - reflexivity.
  - intros ap1 sp1 ap2 sp2 [E1|[E1|[]]] [E2|[E2|[]]] Hsp;
      inversion E1; inversion E2; subst; try reflexivity;
      exfalso; revert Hsp; vm_compute; discriminate.
  - reflexivity.
Defined.

End SensorMoveFacts.

(** ** RotationActuator: a move and the position reported after it *)

Module RotationRoundTrip.
Local Open Scope Q_scope.
Import PyFloat PyFloatFacts ModFacts MonadFacts RotationActuator RotationMoves SpecMoves.
Import RotationMoveFacts.



Section WithDriver.
Context {W : Type} {D : Driver Q W}.
Abbreviation St := (sys Q Q W t).





End WithDriver.



End RotationRoundTrip.

(** ** RotationActuator: construction *)

Module RotationInitFacts.
Local Open Scope Q_scope.
Import PyFloat PyFloatFacts RotationActuator RotationInit.

Section WithDriver.
Context {W : Type} {D : Driver Q W}.

(** What [_updatePosition] reports. *)
Lemma updatePosition_run (s : sys Q Q W t) :
  RotationMoves._updatePosition s =
    (match dict_get (_caxis (this s)) (position dep (world s)) with
     | None => Raise KeyError
     | Some v =>
         if Qeq_bool (_cycle (this s)) 0 then Raise ZeroDivisionError
         else Ok [(_axis (this s), fmod_val (v - _pos_cor (this s)) (_cycle (this s)))]
     end, s).
Proof.
  unfold RotationMoves._updatePosition.
  unfold mbind, M_bind, get_self, dep_position, lift, mret, M_ret, getitem.
  cbv beta iota.
  destruct (dict_get (_caxis (this s)) (position dep (world s))); [|reflexivity].
  unfold fmod. destruct (Qeq_bool (_cycle (this s)) 0); reflexivity.
Qed.

(** The constructor once its arguments have passed the checks. *)
Lemma init_checked (axis axis_name : string) (dep_axes : dict axis_def)
    (cycle : Q) (ref_start : option Q) (w : W) :
  let start := match ref_start with None => cycle * (5 # 100) | Some r => r end in
  is_Some (dict_get axis_name dep_axes) ->
  0 <= cycle -> 0 <= start -> start <= cycle ->
  __init__ [(axis, dep_axes)] axis_name cycle ref_start false w =
    match dict_get axis_name (position dep w) with
    | None => Raise KeyError
    | Some v =>
        if Qeq_bool cycle 0 then Raise ZeroDivisionError
        else Ok (mk cycle axis axis_name start 0 0 true, [(axis, fmod_val (v - 0) cycle)])
    end.
Proof.
  intros start [ac Hac] Hcy Hlo Hhi. unfold __init__. fold start.
  apply Qle_bool_iff in Hcy, Hlo, Hhi. rewrite Hcy, Hlo, Hhi. cbn [negb andb].
  unfold getitem. rewrite Hac. rewrite updatePosition_run.
  cbn [mbind result_bind fst this world _caxis _cycle _pos_cor _axis].
  destruct (dict_get axis_name (position dep w)) as [v|]; [|reflexivity].
  destruct (Qeq_bool cycle 0); reflexivity.
Qed.

(** X24: construction of a rotation actuator, up to and including the
    first report of the position.  It raises [ValueError] exactly when the
    axes are inverted, there is not exactly one dependency, the cycle is
    negative or the reference start lies outside [[0, cycle]]; the default
    reference start, a twentieth of the cycle, always lies inside.  A cycle
    of 0 passes these checks, and the first report of the position then
    raises [ZeroDivisionError]: this part of the construction succeeds
    exactly when, besides the checks, the cycle is positive and the
    dependency has the axis and reports its position.  The object then
    carries the cycle, the reference start and the axis names, no move
    counted and no offset, and the position VA holds the position of the
    dependency modulo the cycle. *)
Theorem init_accepts (dependencies : list (string * dict axis_def)) (axis_name : string)
    (cycle : Q) (ref_start : option Q) (inverted : bool) (w : W) :
  let start := match ref_start with None => cycle * (5 # 100) | Some r => r end in
  let r := __init__ dependencies axis_name cycle ref_start inverted w in
  let checks :=
    inverted = false /\ length dependencies = 1%nat /\
    0 <= cycle /\ 0 <= start /\ start <= cycle in
  let has_axis :=
    exists axis dep_axes,
      dependencies = [(axis, dep_axes)] /\ is_Some (dict_get axis_name dep_axes) in
  (r = Raise ValueError <-> ~ checks) /\
  (ref_start = None -> 0 <= cycle -> 0 <= start /\ start <= cycle) /\
  (checks -> has_axis -> cycle == 0 ->
   is_Some (dict_get axis_name (position dep w)) -> r = Raise ZeroDivisionError) /\
  ((exists self pos, r = Ok (self, pos)) <->
   checks /\ has_axis /\ 0 < cycle /\ is_Some (dict_get axis_name (position dep w))) /\
  (forall self pos,
     r = Ok (self, pos) ->
     _cycle self = cycle /\ _ref_start self = start /\ _caxis self = axis_name /\
     _move_num_total self = 0%nat /\ _pos_cor self = 0 /\
     exists v, dict_get axis_name (position dep w) = Some v /\
               pos = [(_axis self, fmod_val (v - 0) cycle)]).
Proof.
  intros start r checks has_axis.
  assert (Hbad : ~ checks -> r = Raise ValueError).
  { intros Hn. subst r. unfold __init__. fold start.
    destruct inverted; [reflexivity|].
    destruct dependencies as [|[axis dep_axes] [|? ?]]; try reflexivity.
    destruct (Qle_bool 0 cycle) eqn:Hcy; cbn [negb]; [|reflexivity].
    destruct (Qle_bool 0 start) eqn:Hlo; cbn [negb andb]; [|reflexivity].
    destruct (Qle_bool start cycle) eqn:Hhi; cbn [negb]; [|reflexivity].
    apply Qle_bool_iff in Hcy, Hlo, Hhi.
    exfalso. apply Hn. repeat split; assumption. }
  assert (Hgood : checks ->
            exists axis dep_axes,
              dependencies = [(axis, dep_axes)] /\
              r = match dict_get axis_name dep_axes with
                  | None => Raise KeyError
                  | Some _ =>
                      match dict_get axis_name (position dep w) with
                      | None => Raise KeyError
                      | Some v =>
                          if Qeq_bool cycle 0 then Raise ZeroDivisionError
                          else Ok (mk cycle axis axis_name start 0 0 true,
                                   [(axis, fmod_val (v - 0) cycle)])
                      end
                  end).
  { intros (-> & Hlen & Hcy & Hlo & Hhi).
    destruct dependencies as [|[axis dep_axes] [|? ?]]; try discriminate.
    exists axis, dep_axes. split; [reflexivity|].
    destruct (dict_get axis_name dep_axes) as [ac|] eqn:Hac.
    - subst r. rewrite init_checked; try assumption; [reflexivity|eauto].
    - subst r. unfold __init__. fold start.
      apply Qle_bool_iff in Hcy, Hlo, Hhi. rewrite Hcy, Hlo, Hhi. cbn [negb andb].
      unfold getitem. rewrite Hac. reflexivity. }
  assert (Hdec : checks \/ ~ checks).
  { subst checks. destruct inverted; [right; intros [H _]; discriminate|].
    destruct (Nat.eq_dec (length dependencies) 1%nat) as [Hl|Hl];
      [|right; intros (_ & H & _); contradiction].
    destruct (Qlt_le_dec cycle 0) as [Hc|Hc];
      [right; intros (_ & _ & H & _); lraQ|].
    destruct (Qlt_le_dec start 0) as [Hs|Hs];
      [right; intros (_ & _ & _ & H & _); lraQ|].
    destruct (Qlt_le_dec cycle start) as [Hh|Hh];
      [right; intros (_ & _ & _ & _ & H); lraQ|].
    left. repeat split; assumption. }
  split; [|split; [|split; [|split]]].
  - split; [|exact Hbad]. intros Hr Hc.
    destruct (Hgood Hc) as (axis & dep_axes & _ & Hv). rewrite Hv in Hr.
    destruct (dict_get axis_name dep_axes); [|discriminate].
    destruct (dict_get axis_name (position dep w)); [|discriminate].
    destruct (Qeq_bool cycle 0); discriminate.
  - intros -> Hcy. subst start. cbv beta iota. split; lraQ.
  - intros Hc (axis & dep_axes & Hd & [ac Hac]) Hzero [v Hv].
    destruct (Hgood Hc) as (axis' & dep_axes' & Hd' & Hr).
    rewrite Hd in Hd'. inversion Hd'; subst axis' dep_axes'.
    rewrite Hr, Hac, Hv. apply Qeq_bool_iff in Hzero. rewrite Hzero. reflexivity.
  - split.
    + intros (self & pos & Hr).
      destruct Hdec as [Hc|Hn]; [|rewrite (Hbad Hn) in Hr; discriminate].
      split; [exact Hc|].
      destruct (Hgood Hc) as (axis & dep_axes & Hd & Hv). rewrite Hv in Hr.
      destruct (dict_get axis_name dep_axes) as [ac|] eqn:Hac; [|discriminate].
      destruct (dict_get axis_name (position dep w)) as [v|]; [|discriminate].
      destruct (Qeq_bool cycle 0) eqn:Hz; [discriminate|].
      split; [exists axis, dep_axes; split; [exact Hd|rewrite Hac; eauto]|].
      split; [|eauto].
      destruct Hc as (_ & _ & Hcy & _).
      destruct (Qeq_dec cycle 0) as [E|E];
        [apply Qeq_bool_iff in E; congruence|lraQ].
    + intros (Hc & (axis & dep_axes & Hd & [ac Hac]) & Hpos & [v Hv]).
      destruct (Hgood Hc) as (axis' & dep_axes' & Hd' & Hr).
      rewrite Hd in Hd'. inversion Hd'; subst axis' dep_axes'.
      rewrite Hr, Hac, Hv.
      destruct (Qeq_bool cycle 0) eqn:Hz; [apply Qeq_bool_iff in Hz; lraQ|].
      eexists. eexists. reflexivity.
  - intros self pos Hr.
    destruct Hdec as [Hc|Hn]; [|rewrite (Hbad Hn) in Hr; discriminate].
    destruct (Hgood Hc) as (axis & dep_axes & Hd & Hv). rewrite Hv in Hr.
    destruct (dict_get axis_name dep_axes) as [ac|] eqn:Hac; [|discriminate].
    destruct (dict_get axis_name (position dep w)) as [v|]; [|discriminate].
    destruct (Qeq_bool cycle 0) eqn:Hz; [discriminate|].
    inversion Hr; subst self pos. cbn.
    repeat split; try reflexivity. exists v. split; reflexivity.
Qed.

End WithDriver.
End RotationInitFacts.

(** ** LinearActuator: a reference run that fails *)

Module LinearRetryFacts.
Local Open Scope Q_scope.
Import MonadFacts LinearActuator LinearMoves SpecMoves.

Section WithDriver.
Context {W : Type} {D : Driver Q W}.
Abbreviation St := (sys Q Q W obj).

(** The periodic referencing once the count has reached the period. *)
Lemma referenceIfNeeded_due (s : St) (n : nat) :
  let o := this s in
  let k := _move_num (fields o) in
  _ref_period o = Some n -> (0 < n)%nat -> (n <= k)%nat ->
  let start := MoveAbsSync dep [(_caxis (fields o), _ref_start o + _offset (fields o))] in
  let ref := Reference dep {[ _caxis (fields o) ]} in
  let w1 := snd (await start (world s)) in
  let w2 := snd (await ref w1) in
  _referenceIfNeeded s =
    match fst (await start (world s)) with
    | Some e => (Raise e, mk_sys w1 (trace s ++ [start]) (queue s) (set_move_num (S k) o))
    | None =>
        match fst (await ref w1) with
        | Some e => (Raise e, mk_sys w2 (trace s ++ [start; ref]) (queue s)
                                (set_move_num (S k) o))
        | None => (Ok tt, mk_sys w2 (trace s ++ [start; ref]) (queue s)
                            (set_move_num 0 o))
        end
    end.
Proof.
  intros o k Hp Hn Hk start ref w1 w2.
  unfold _referenceIfNeeded.
  rewrite run_bind. unfold get_self at 1. cbv beta iota.
  rewrite run_bind. unfold put_self at 1. cbv beta iota.
  rewrite run_bind. unfold get_self at 1. cbv beta iota.
  cbn [this world trace queue]. fold o. unfold reference_due.
  cbn [_ref_period set_move_num fields _move_num _caxis _offset _ref_start].
  fold k. rewrite Hp. destruct n as [|n]; [lia|].
  assert (Hdue : Nat.ltb (S n) (S k) = true) by (apply Nat.ltb_lt; lia).
  rewrite Hdue. rewrite send_run. cbv zeta. cbn [world trace queue this].
  fold start. subst w2 w1.
  destruct (await start (world s)) as [[e1|] w1]; cbn [fst snd]; [reflexivity|].
  rewrite send_run. cbv zeta. cbn [world trace queue this]. fold ref.
  destruct (await ref w1) as [[e2|] w2]; cbn [fst snd].
  - rewrite <- app_assoc. reflexivity.
  - rewrite run_bind. unfold get_self at 1. cbv beta iota. unfold put_self.
    cbn [world trace queue this]. rewrite <- app_assoc. reflexivity.
Qed.

(** X25: once the count of moves has reached the period, every move body
    starts with the move to the reference start; when that move fails the
    body raises its error with nothing else sent and the count left above
    the period, so that the next move tries the reference run again; a body
    that succeeds leaves the count at zero.  An explicit reference resets the
    count whether it succeeds or fails. *)
Theorem failed_reference_is_retried (shift : dict Q) (first : string * Q) (rest : dict Q)
    (s : St) (n : nat) :
  let o := this s in
  let k := _move_num (fields o) in
  _ref_period o = Some n -> (0 < n)%nat -> (n <= k)%nat ->
  let start := MoveAbsSync dep [(_caxis (fields o), _ref_start o + _offset (fields o))] in
  (forall run,
     run = _doMoveRel shift s \/ run = _doMoveAbs first rest s ->
     (exists more, trace (snd run) = trace s ++ start :: more) /\
     (forall e, fst (await start (world s)) = Some e ->
        run = (Raise e, mk_sys (snd (await start (world s))) (trace s ++ [start])
                          (queue s) (set_move_num (S k) o))) /\
     (fst run = Ok tt -> _move_num (fields (this (snd run))) = 0%nat)) /\
  _move_num (fields (this (snd (_doReference s)))) = 0%nat.
Proof.
  intros o k Hp Hn Hk start. split.
  - intros run Hrun.
    pose proof (referenceIfNeeded_due s n Hp Hn Hk) as Href. cbv zeta in Href.
    fold o k start in Href.
    set (ref := Reference dep {[ _caxis (fields o) ]} : call Q) in *.
    destruct Hrun as [Hrun|Hrun]; unfold _doMoveRel, _doMoveAbs in Hrun;
      rewrite run_bind, Href in Hrun;
      destruct (await start (world s)) as [[e1|] w1]; cbn [fst snd] in Hrun |- *.
    + subst run. cbn [fst snd trace]. split; [exists []; reflexivity|].
      split; [intros e E; inversion E; reflexivity|discriminate].
    + destruct (await ref w1) as [[e2|] w2]; cbn [fst snd] in Hrun.
      * subst run. cbn [fst snd trace]. split; [exists [ref]; reflexivity|].
        split; [discriminate|discriminate].
      * rewrite run_bind in Hrun. unfold get_self at 1 in Hrun. cbv beta iota in Hrun.
        cbn [this] in Hrun. rewrite run_bind in Hrun. unfold lift at 1 in Hrun.
        destruct (getitem shift _) as [d|e|]; cbv beta iota in Hrun.
        -- rewrite send_last in Hrun. subst run. cbn [fst snd trace this world queue].
           split; [eexists; rewrite <- app_assoc; reflexivity|].
           split; [discriminate|reflexivity].
        -- subst run. cbn. split; [exists [ref]; reflexivity|].
           split; discriminate.
        -- subst run. cbn. split; [exists [ref]; reflexivity|].
           split; discriminate.
    + subst run. cbn [fst snd trace]. split; [exists []; reflexivity|].
      split; [intros e E; inversion E; reflexivity|discriminate].
    + destruct (await ref w1) as [[e2|] w2]; cbn [fst snd] in Hrun.
      * subst run. cbn [fst snd trace]. split; [exists [ref]; reflexivity|].
        split; [discriminate|discriminate].
      * rewrite run_bind in Hrun. unfold get_self at 1 in Hrun. cbv beta iota zeta in Hrun.
        rewrite send_last in Hrun. subst run. cbn [fst snd trace this world queue].
        split; [eexists; rewrite <- app_assoc; reflexivity|].
        split; [discriminate|reflexivity].
  - unfold _doReference.
    rewrite run_bind. unfold get_self at 1. cbv beta iota.
    rewrite run_bind. unfold put_self at 1. cbv beta iota.
    rewrite send_last. reflexivity.
Qed.

End WithDriver.

Lemma failed_reference_is_retried_witness :
  let s := mk_sys tt [] [] (MoveScenarios.rail 3) in
  let run := _doMoveRel (D := MoveScenarios.failing_focus) [("z"%string, 1)] s in
  exists more,
    trace (snd run) = [] ++ MoveAbsSync dep [("x"%string, (1 # 2) + 2)] :: more.
Proof.
  intros s run.
  destruct (failed_reference_is_retried (D := MoveScenarios.failing_focus)
              [("z"%string, 1)] ("z"%string, 1) [] s 3) as [Hbody _];
    try reflexivity; try lia.
  destruct (Hbody run) as [Htr _]; [left; reflexivity|exact Htr].
Defined.

End LinearRetryFacts.
